(** * Kokoro-Local-Gui: synthesis orchestration, ledger and temp-file reaper

    A shallow embedding of the Python sources
      persistence.py, temp_cleanup.py, models.py, tts_wrapper.py, ui_main.py
    with the properties the specification states about them (C1 to C10)
    and further properties read off the code (numbered X).

    Conventions of the embedding
    - A Python [str] is the list of its code points ([pystr]).
    - The file system is a finite map from paths to nodes, with the paths of
      POSIX: [/] is the one separator and names are told apart exactly, case
      included. What the operating system decides (clock readings, failing
      calls) is read from a record of oracles, one per module, so that every
      [try/except] of the source has both of its branches in the model.
    - A Python call that may raise returns a [result].
    - A finite float is read as the rational it stands for, and an operation
      on floats gives the exact result rounded as IEEE 754 rounds it. *)

From Stdlib Require Import Ascii String DecimalString DecimalNat QArith Qround Qabs Qpower Lqa.
From stdpp Require Import base tactics option list gmap fin_maps strings.

Local Open Scope Z_scope.
Local Open Scope list_scope.

(** ** Python strings *)

(** A [str]: its code points, in order. *)
Abbreviation pystr := (list N).

(** An ASCII literal of the source as a [str]. *)
Definition lit (s : string) : pystr :=
  (λ a, N_of_ascii a) <$> list_ascii_of_string s.

(** [s.startswith(p)] *)
Fixpoint startswith (s p : pystr) {struct p} : bool :=
  match p, s with
  | [], _ => true
  | _ :: _, [] => false
  | c :: p', d :: s' => bool_decide (c = d) && startswith s' p'
  end.

(** [s.endswith(p)] *)
Definition endswith (s p : pystr) : bool := startswith (reverse s) (reverse p).

(** [s[len(p):]] when [s.startswith(p)] *)
Fixpoint strip_prefix (p s : pystr) : option pystr :=
  match p, s with
  | [], _ => Some s
  | _ :: _, [] => None
  | c :: p', d :: s' => if bool_decide (c = d) then strip_prefix p' s' else None
  end.

(** [str(n)] for a non-negative [int]. *)
Definition str_of_nat (n : nat) : pystr :=
  lit (NilEmpty.string_of_uint (Nat.to_uint n)).

Definition SLASH : N := 47%N.
Definition DOT : N := 46%N.

(** [os.path.join(a, p)] (posixpath): an absolute [p] wins; otherwise the two
    parts are glued with exactly one separator. *)
Definition path_join (a p : pystr) : pystr :=
  if startswith p [SLASH] then p
  else if bool_decide (a = []) || endswith a [SLASH] then a ++ p
  else a ++ SLASH :: p.

(** [s.rsplit('.', 1)[0]]: the text before the last dot, all of [s] when it
    has none. *)
Fixpoint rsplit_dot_head (s : pystr) : pystr :=
  match s with
  | [] => []
  | c :: s' =>
      if bool_decide (c = DOT) && negb (bool_decide (DOT ∈ s')) then []
      else c :: rsplit_dot_head s'
  end.

(** ** Floating point *)

(** The integer nearest to [q]; of two that are as near, the even one. *)
Definition round_half_even (q : Q) : Z :=
  let f := Qfloor q in
  match Qcompare (q - inject_Z f) (1 # 2) with
  | Lt => f
  | Gt => f + 1
  | Eq => if Z.even f then f else f + 1
  end.

(** The power of two at or just below [|q|], for [q] other than zero:
    [2 ^ binade q <= |q| < 2 ^ (binade q + 1)]. *)
Definition binade (q : Q) : Z :=
  let k := Z.log2 (Z.abs (Qnum q)) - Z.log2 (Zpos (Qden q)) in
  if Qle_bool (2 ^ k) (Qabs q) then k else k - 1.

(** The exponent of the last binary digit of a float of [prec] digits with
    the value [q]; below [2 ^ (emin + prec - 1)] the floats are evenly
    spaced (the subnormal ones). *)
Definition last_digit (prec emin : Z) (q : Q) : Z :=
  Z.max (binade q - (prec - 1)) emin.

(** The float of [prec] binary digits nearest to [q], the one with the even
    last digit of two that are as near (round to nearest, ties to even).
    Overflow to infinity is not followed: the numbers of the program stay
    far below the largest float. *)
Definition fround (prec emin : Z) (q : Q) : Q :=
  if Qeq_bool q 0 then 0
  else
    let e := last_digit prec emin q in
    Qred (inject_Z (round_half_even (q / 2 ^ e)) * 2 ^ e).

(** Python's [float] and NumPy's [float64] (binary64), and NumPy's
    [float32] (binary32). *)
Definition float64 : Q → Q := fround 53 (-1074).
Definition float32 : Q → Q := fround 24 (-149).

(** ** Exceptions and results *)

Inductive exn : Type :=
  | FileNotFoundError (what : pystr)
  | NotADirectoryError (what : pystr)
  | ValueError (what : pystr)
  | OSError (what : pystr)
  | RuntimeError (what : pystr).

Inductive result (A : Type) : Type :=
  | Ok (a : A)
  | Raise (e : exn).
Arguments Ok {A} a.
Arguments Raise {A} e.

(** ** The file system *)

(** What a file holds, as far as the program looks at it: a text; the
    16-bit samples of an audio file of one channel, as the engine writes
    them; those of an audio file of any number of channels, interleaved, as
    a file of another origin may hold them; or anything else. *)
Inductive file_data : Type :=
  | TextFile (text : pystr)
  | WavFile (samplerate : Z) (pcm16 : list Z)
  | WavFileN (nchannels samplerate : Z) (pcm16 : list Z)
  | Blob.

Inductive node : Type :=
  | Dir
  | File (data : file_data).

(** A path names a node up to leading [./] parts: [./voices/x.pt], which
    [os.path.join(".", "voices/x.pt")] builds, is the file [voices/x.pt].
    This is the one respelling the program itself puts into a path. Other
    spellings of one file (a [.] or [..] part further in, a doubled
    separator), which can only come in with a name given from outside, are
    not identified; what is stated about such a name is stated for a plain
    one ([entry_name]). *)
Fixpoint canon (p : pystr) : pystr :=
  match p with
  | c1 :: c2 :: p' =>
      if bool_decide (c1 = DOT) && bool_decide (c2 = SLASH) then canon p' else p
  | _ => p
  end.

(** The file system: a finite map from canonical paths to nodes. A directory
    is a node of its own, and an entry of directory [d] is a node at
    [path_join d name]. The two log files of the program, which the handlers
    of [logging] hold open and append to, are not followed by the map: what
    is stated of every path is stated of every path but theirs. *)
Abbreviation filesystem := (gmap pystr node).

(** The node a path names. *)
Definition fs_node (fs : filesystem) (p : pystr) : option node := fs !! canon p.

(** [os.path.exists(p)] *)
Definition path_exists (fs : filesystem) (p : pystr) : bool :=
  bool_decide (is_Some (fs_node fs p)).

(** [os.path.isfile(p)] *)
Definition isfile (fs : filesystem) (p : pystr) : bool :=
  match fs_node fs p with Some (File _) => true | _ => false end.

(** [os.path.isdir(p)] *)
Definition isdir (fs : filesystem) (p : pystr) : bool :=
  match fs_node fs p with Some Dir => true | _ => false end.

(** Writing a file at [p]: it is created or replaced. Whether the write is
    allowed is for the caller's oracle to say. *)
Definition fs_write (fs : filesystem) (p : pystr) (data : file_data) : filesystem :=
  <[canon p := File data]> fs.

(** The path prefix shared by the entries of directory [d]. *)
Definition dir_prefix (d : pystr) : pystr :=
  if bool_decide (d = []) || endswith d [SLASH] then d else d ++ [SLASH].

(** The entry name of the canonical path [p] in directory [d], if [p] is
    directly in [d]. *)
Definition child_name (d p : pystr) : option pystr :=
  match strip_prefix (canon (dir_prefix d)) p with
  | Some n =>
      if bool_decide (n ≠ []) && negb (bool_decide (SLASH ∈ n)) then Some n
      else None
  | None => None
  end.

(** [os.listdir(d)]: the names of the entries of [d], in the arbitrary order
    of the directory; raises when [d] is missing or is not a directory. *)
Definition listdir (fs : filesystem) (d : pystr) : result (list pystr) :=
  match fs_node fs d with
  | Some Dir => Ok (omap (child_name d) (map_to_list fs).*1)
  | Some (File _) => Raise (NotADirectoryError d)
  | None => Raise (FileNotFoundError d)
  end.

(** [os.remove(p)] on a file system where removing [p] is or is not
    permitted ([fails] is the operating system's answer: a locked or
    read-only file, say). *)
Definition os_remove (fails : bool) (fs : filesystem) (p : pystr)
  : result filesystem :=
  if fails then Raise (OSError p)
  else match fs_node fs p with
       | Some (File _) => Ok (delete (canon p) fs)
       | Some Dir => Raise (OSError p)
       | None => Raise (FileNotFoundError p)
       end.

(** ** Stateful code that may raise *)

(** A computation over a state [S]: it leaves a state behind whether it
    returns or raises, as a Python function that mutates and then throws. *)
Definition M (S A : Type) : Type := S → result A * S.

Global Instance M_ret {S} : MRet (M S) := λ A a s, (Ok a, s).

Global Instance M_bind {S} : MBind (M S) := λ A B f m s,
  match m s with
  | (Ok a, s') => f a s'
  | (Raise e, s') => (Raise e, s')
  end.

(** [raise e] *)
Definition raise {S A} (e : exn) : M S A := λ s, (Raise e, s).

(** [try: body / except Exception as e: handler(e)] *)
Definition try_except {S A} (body : M S A) (handler : exn → M S A) : M S A := λ s,
  match body s with
  | (Ok a, s') => (Ok a, s')
  | (Raise e, s') => handler e s'
  end.

(** [try: body / finally: cleanup]: the cleanup runs on both ways out, and
    an exception it raises replaces the outcome of the body. *)
Definition try_finally {S A} (body : M S A) (cleanup : M S ()) : M S A := λ s,
  match body s with
  | (r, s') =>
      match cleanup s' with
      | (Ok _, s'') => (r, s'')
      | (Raise e, s'') => (Raise e, s'')
      end
  end.

Definition get {S} : M S S := λ s, (Ok s, s).
Definition modify {S} (f : S → S) : M S () := λ s, (Ok (), f s).

(** [for x in xs: body(x)] *)
Fixpoint for_each {S A} (xs : list A) (body : A → M S ()) : M S () :=
  match xs with
  | [] => mret ()
  | x :: xs' => body x ≫= λ _, for_each xs' body
  end.

(** [c.isspace()]: the characters [str.strip()] removes. *)
Definition isspace (c : N) : bool :=
  bool_decide (9 ≤ c ≤ 13)%N || bool_decide (28 ≤ c ≤ 32)%N
  || bool_decide (c = 133)%N || bool_decide (c = 160)%N
  || bool_decide (c = 5760)%N || bool_decide (8192 ≤ c ≤ 8202)%N
  || bool_decide (c = 8232)%N || bool_decide (c = 8233)%N
  || bool_decide (c = 8239)%N || bool_decide (c = 8287)%N
  || bool_decide (c = 12288)%N.

(** [s.lstrip()] *)
Fixpoint lstrip (s : pystr) : pystr :=
  match s with
  | c :: s' => if isspace c then lstrip s' else s
  | [] => []
  end.

(** [s.strip()] *)
Definition strip (s : pystr) : pystr := reverse (lstrip (reverse (lstrip s))).

(** ** temp_cleanup.py *)

Module TempCleanup.

(** What the operating system answers during one run of the reaper. Times
    are seconds since the epoch, as Python's floats. *)
Record os_world : Type := {
  time_time : Q;                  (* time.time() *)
  getmtime : pystr → Q;           (* os.path.getmtime(path) *)
  remove_fails : pystr → bool     (* os.remove(path) raises *)
}.

(** [a > b] on the rationals. *)
Definition Qgt_bool (a b : Q) : bool := negb (Qle_bool a b).

Definition CHUNK_PREFIX : pystr := lit "chunk_".

(** The body of the [for filename in os.listdir(temp_dir)] loop. The state
    is the file system and the paths whose removal error was printed. *)
Definition cleanup_step (w : os_world) (temp_dir : pystr) (now retention_seconds : Q)
    (st : filesystem * list pystr) (filename : pystr) : filesystem * list pystr :=
  let filepath := path_join temp_dir filename in
  if isfile st.1 filepath && startswith filename CHUNK_PREFIX then
    let file_age := float64 (now - getmtime w filepath) in
    if Qgt_bool file_age retention_seconds then
      match os_remove (remove_fails w filepath) st.1 filepath with
      | Ok fs' => (fs', st.2)
      | Raise _ => (st.1, st.2 ++ [filepath])
      end
    else st
  else st.

(** [cleanup_temp_files(temp_dir, retention_days=7)]. The program calls it
    with the [int] 7, so that [retention_days * 86400] is an exact product of
    integers, and comparing the float [file_age] with it is exact. *)
Definition cleanup_temp_files (w : os_world) (fs : filesystem)
    (temp_dir : pystr) (retention_days : Q) : result (filesystem * list pystr) :=
  let now := time_time w in
  let retention_seconds := (retention_days * 86400)%Q in
  if negb (path_exists fs temp_dir) then Ok (fs, [])
  else
    match listdir fs temp_dir with
    | Ok names =>
        Ok (fold_left (cleanup_step w temp_dir now retention_seconds) names (fs, []))
    | Raise e => Raise e
    end.

(** The age of [temp_dir/filename] as the reaper computes it: the
    difference of two floats, which is a float. *)
Definition file_age (w : os_world) (temp_dir filename : pystr) : Q :=
  float64 (time_time w - getmtime w (path_join temp_dir filename)).

(** The entry [filename] is one the reaper tries to remove. *)
Definition expired (w : os_world) (fs : filesystem) (temp_dir : pystr)
    (retention_days : Q) (filename : pystr) : bool :=
  isfile fs (path_join temp_dir filename)
  && startswith filename CHUNK_PREFIX
  && Qgt_bool (file_age w temp_dir filename) (retention_days * 86400)%Q.

End TempCleanup.

(** ** Python's [json], as persistence.py uses it *)

Module Json.

Local Open Scope N_scope.

(** A Python object that [json.dump] writes and [json.load] builds. A number
    is named by its literal: for a finite float that is [repr(x)], and
    [float(repr(x)) == x]. A [dict] keeps its items in insertion order. *)
#[local] Unset Elimination Schemes.
Inductive value : Type :=
  | Null
  | Bool (b : bool)
  | Number (literal : pystr)
  | String (s : pystr)
  | Array (items : list value)
  | Object (members : list (pystr * value)).
#[local] Set Elimination Schemes.

(** *** Writing: [json.dump(obj, f, indent=2)] (so [ensure_ascii=True],
    separators [','] and [': ']) *)

Definition QUOTE : N := 34.
Definition BACKSLASH : N := 92.

(** ['0123456789abcdef'[d]] *)
Definition hexdigit (d : N) : N := if d <? 10 then 48 + d else 87 + d.

(** ['\\u{0:04x}'.format(n)] *)
Definition u_escape (n : N) : pystr :=
  [BACKSLASH; 117;
   hexdigit (n / 4096 mod 16); hexdigit (n / 256 mod 16);
   hexdigit (n / 16 mod 16); hexdigit (n mod 16)].

(** The replacement of one character in [py_encode_basestring_ascii]. *)
Definition encode_char (c : N) : pystr :=
  if c =? QUOTE then [BACKSLASH; QUOTE]
  else if c =? BACKSLASH then [BACKSLASH; BACKSLASH]
  else if c =? 10 then [BACKSLASH; 110]
  else if c =? 13 then [BACKSLASH; 114]
  else if c =? 9 then [BACKSLASH; 116]
  else if c =? 8 then [BACKSLASH; 98]
  else if c =? 12 then [BACKSLASH; 102]
  else if (32 <=? c) && (c <=? 126) then [c]
  else if c <? 65536 then u_escape c
  else
    let n := c - 65536 in
    let s1 := N.lor 55296 (N.land (N.shiftr n 10) 1023) in
    let s2 := N.lor 56320 (N.land n 1023) in
    u_escape s1 ++ u_escape s2.

Definition encode_string (s : pystr) : pystr :=
  QUOTE :: concat (encode_char <$> s) ++ [QUOTE].

(** ['\n' + ' ' * (2 * level)] *)
Definition newline_indent (level : nat) : pystr := 10 :: replicate (2 * level) 32.

(** [separator.join(parts)] *)
Fixpoint join (separator : pystr) (parts : list pystr) : pystr :=
  match parts with
  | [] => []
  | [part] => part
  | part :: parts' => part ++ separator ++ join separator parts'
  end.

(** The text of [obj] written at nesting depth [level]. *)
Fixpoint dumps_at (level : nat) (obj : value) : pystr :=
  match obj with
  | Null => lit "null"
  | Bool true => lit "true"
  | Bool false => lit "false"
  | Number literal => literal
  | String s => encode_string s
  | Array [] => lit "[]"
  | Array items =>
      lit "[" ++ newline_indent (S level)
      ++ join (lit "," ++ newline_indent (S level)) (dumps_at (S level) <$> items)
      ++ newline_indent level ++ lit "]"
  | Object [] => lit "{}"
  | Object members =>
      lit "{" ++ newline_indent (S level)
      ++ join (lit "," ++ newline_indent (S level))
           ((λ kv, encode_string kv.1 ++ lit ": " ++ dumps_at (S level) kv.2)
              <$> members)
      ++ newline_indent level ++ lit "}"
  end.

Definition dumps (obj : value) : pystr := dumps_at 0 obj.

(** *** Reading: [json.load(f)] *)

Definition is_ws (c : N) : bool := (c =? 32) || (c =? 9) || (c =? 10) || (c =? 13).

Fixpoint skip_ws (s : pystr) : pystr :=
  match s with
  | c :: s' => if is_ws c then skip_ws s' else s
  | [] => []
  end.

Definition hexval (c : N) : option N :=
  if (48 <=? c) && (c <=? 57) then Some (c - 48)
  else if (97 <=? c) && (c <=? 102) then Some (c - 87)
  else if (65 <=? c) && (c <=? 70) then Some (c - 55)
  else None.

(** [_decode_uXXXX] *)
Definition hex4 (h1 h2 h3 h4 : N) : option N :=
  d1 ← hexval h1; d2 ← hexval h2; d3 ← hexval h3; d4 ← hexval h4;
  Some (((d1 * 16 + d2) * 16 + d3) * 16 + d4).

(** The [BACKSLASH] table of the decoder. *)
Definition unescape (c : N) : option N :=
  if c =? QUOTE then Some QUOTE
  else if c =? BACKSLASH then Some BACKSLASH
  else if c =? 47 then Some 47
  else if c =? 98 then Some 8
  else if c =? 102 then Some 12
  else if c =? 110 then Some 10
  else if c =? 114 then Some 13
  else if c =? 116 then Some 9
  else None.

Definition is_high_surrogate (u : N) : bool := (55296 <=? u) && (u <=? 56319).
Definition is_low_surrogate (u : N) : bool := (56320 <=? u) && (u <=? 57343).

(** [py_scanstring] (strict) from just after the opening quote: the string
    and the text after its closing quote. *)
Fixpoint scan_string (s : pystr) : option (pystr * pystr) :=
  match s with
  | [] => None
  | c :: rest =>
      if c =? QUOTE then Some ([], rest)
      else if c =? BACKSLASH then
        match rest with
        | [] => None
        | esc :: rest1 =>
            if esc =? 117 then
              match rest1 with
              | h1 :: h2 :: h3 :: h4 :: rest2 =>
                  match hex4 h1 h2 h3 h4 with
                  | None => None
                  | Some uni =>
                      match rest2 with
                      | b :: u :: rest3 =>
                          if is_high_surrogate uni && (b =? BACKSLASH) && (u =? 117) then
                            match rest3 with
                            | g1 :: g2 :: g3 :: g4 :: rest4 =>
                                match hex4 g1 g2 g3 g4 with
                                | None => None
                                | Some uni2 =>
                                    if is_low_surrogate uni2 then
                                      let ch := 65536 + N.lor (N.shiftl (uni - 55296) 10)
                                                              (uni2 - 56320) in
                                      match scan_string rest4 with
                                      | Some (str, r) => Some (ch :: str, r)
                                      | None => None
                                      end
                                    else
                                      match scan_string rest2 with
                                      | Some (str, r) => Some (uni :: str, r)
                                      | None => None
                                      end
                                end
                            | _ => None
                            end
                          else
                            match scan_string rest2 with
                            | Some (str, r) => Some (uni :: str, r)
                            | None => None
                            end
                      | _ =>
                          match scan_string rest2 with
                          | Some (str, r) => Some (uni :: str, r)
                          | None => None
                          end
                      end
                  end
              | _ => None
              end
            else
              match unescape esc with
              | Some ch =>
                  match scan_string rest1 with
                  | Some (str, r) => Some (ch :: str, r)
                  | None => None
                  end
              | None => None
              end
        end
      else if c <? 32 then None
      else
        match scan_string rest with
        | Some (str, r) => Some (c :: str, r)
        | None => None
        end
  end.

Definition is_digit (c : N) : bool := (48 <=? c) && (c <=? 57).

(** A character a number literal is made of. *)
Definition number_char (c : N) : bool :=
  is_digit c || (c =? 45) || (c =? 43) || (c =? 46) || (c =? 101) || (c =? 69).

Fixpoint span (f : N → bool) (s : pystr) : pystr * pystr :=
  match s with
  | c :: s' => if f c then let '(a, b) := span f s' in (c :: a, b) else ([], s)
  | [] => ([], [])
  end.

(** The exponent part of [NUMBER_RE], up to the end of the literal. *)
Definition exponent_shape (s : pystr) : bool :=
  match s with
  | [] => true
  | e :: s1 =>
      ((e =? 101) || (e =? 69))
      && let s2 := match s1 with
                   | sign :: s2 => if (sign =? 45) || (sign =? 43) then s2 else s1
                   | [] => s1
                   end in
         let '(digits, s3) := span is_digit s2 in
         negb (bool_decide (digits = [])) && bool_decide (s3 = [])
  end.

(** The fraction and exponent parts. *)
Definition fraction_shape (s : pystr) : bool :=
  match s with
  | c :: s1 =>
      if c =? 46 then
        let '(digits, s2) := span is_digit s1 in
        negb (bool_decide (digits = [])) && exponent_shape s2
      else exponent_shape s
  | [] => true
  end.

(** [NUMBER_RE] matches the whole of [literal]: an optional minus sign, an
    integer part without a leading zero, an optional fraction, an optional
    exponent. *)
Definition number_shape (literal : pystr) : bool :=
  let s := match literal with
           | c :: s' => if c =? 45 then s' else literal
           | [] => literal
           end in
  match s with
  | d :: s1 =>
      if d =? 48 then fraction_shape s1
      else if is_digit d then fraction_shape (span is_digit s1).2
      else false
  | [] => false
  end.

(** The scanner ([scan_once], [JSONArray], [JSONObject]); [fuel] bounds the
    depth of the recursion. *)
Fixpoint parse_value (fuel : nat) (s : pystr) : option (value * pystr) :=
  match fuel with
  | O => None
  | S fuel' =>
      match s with
      | [] => None
      | c :: rest =>
          if c =? QUOTE then
            match scan_string rest with
            | Some (str, r) => Some (String str, r)
            | None => None
            end
          else if c =? 123 then
            match skip_ws rest with
            | c2 :: r2 =>
                if c2 =? 125 then Some (Object [], r2)
                else
                  match parse_members fuel' (skip_ws rest) with
                  | Some (kvs, r) => Some (Object kvs, r)
                  | None => None
                  end
            | [] => None
            end
          else if c =? 91 then
            match skip_ws rest with
            | c2 :: r2 =>
                if c2 =? 93 then Some (Array [], r2)
                else
                  match parse_items fuel' (skip_ws rest) with
                  | Some (vs, r) => Some (Array vs, r)
                  | None => None
                  end
            | [] => None
            end
          else if startswith s (lit "null") then Some (Null, drop 4 s)
          else if startswith s (lit "true") then Some (Bool true, drop 4 s)
          else if startswith s (lit "false") then Some (Bool false, drop 5 s)
          else if startswith s (lit "NaN") then Some (Number (lit "NaN"), drop 3 s)
          else if startswith s (lit "Infinity") then
            Some (Number (lit "Infinity"), drop 8 s)
          else if startswith s (lit "-Infinity") then
            Some (Number (lit "-Infinity"), drop 9 s)
          else
            let '(literal, r) := span number_char s in
            if number_shape literal then Some (Number literal, r) else None
      end
  end
with parse_items (fuel : nat) (s : pystr) : option (list value * pystr) :=
  match fuel with
  | O => None
  | S fuel' =>
      match parse_value fuel' s with
      | Some (v, r) =>
          match skip_ws r with
          | c :: r' =>
              if c =? 93 then Some ([v], r')
              else if c =? 44 then
                match parse_items fuel' (skip_ws r') with
                | Some (vs, r'') => Some (v :: vs, r'')
                | None => None
                end
              else None
          | [] => None
          end
      | None => None
      end
  end
with parse_members (fuel : nat) (s : pystr) : option (list (pystr * value) * pystr) :=
  match fuel with
  | O => None
  | S fuel' =>
      match s with
      | q :: s1 =>
          if q =? QUOTE then
            match scan_string s1 with
            | Some (key, r1) =>
                match skip_ws r1 with
                | colon :: r2 =>
                    if colon =? 58 then
                      match parse_value fuel' (skip_ws r2) with
                      | Some (v, r3) =>
                          match skip_ws r3 with
                          | c :: r4 =>
                              if c =? 125 then Some ([(key, v)], r4)
                              else if c =? 44 then
                                match parse_members fuel' (skip_ws r4) with
                                | Some (kvs, r5) => Some ((key, v) :: kvs, r5)
                                | None => None
                                end
                              else None
                          | [] => None
                          end
                      | None => None
                      end
                    else None
                | [] => None
                end
            | None => None
            end
          else None
      | [] => None
      end
  end.

(** [json.loads(s)]: one value, blanks around it, nothing else. *)
Definition loads (s : pystr) : option value :=
  match parse_value (S (length s)) (skip_ws s) with
  | Some (v, r) => if bool_decide (skip_ws r = []) then Some v else None
  | None => None
  end.

(** *** What a round trip through a file preserves *)

(** A Unicode scalar value: a code point that is no surrogate. A [str] read
    from the text box or produced by the pipeline holds nothing else. *)
Definition scalar_value (c : N) : bool :=
  (c <? 1114112) && negb ((55296 <=? c) && (c <=? 57343)).

Definition wf_string (s : pystr) : bool := forallb scalar_value s.

(** The literal of a finite number. *)
Definition wf_number (literal : pystr) : bool :=
  number_shape literal && forallb number_char literal.

(** An object made of finite numbers, strings of scalar values, lists, and
    dicts whose keys are such strings, each key once. *)
Fixpoint wf_value (obj : value) : bool :=
  match obj with
  | Null | Bool _ => true
  | Number literal => wf_number literal
  | String s => wf_string s
  | Array items => forallb wf_value items
  | Object members =>
      forallb (λ kv, wf_string kv.1 && wf_value kv.2) members
      && bool_decide (NoDup members.*1)
  end.

End Json.

(** ** persistence.py *)

Module Persistence.

(** What [open] answers, and how far a write to the opened file gets. *)
Record io_world : Type := {
  open_r_fails : pystr → bool;        (* open(path, "r") raises *)
  open_w_fails : pystr → bool;        (* open(path, "w") raises *)
  write_stops : pystr → option nat    (* the write to path raises (a full
                                         disk, a size limit) with that many
                                         characters in the file *)
}.

(** [load_generations(file_path)]: what the file holds, or the empty list
    when the file is missing or anything goes wrong. *)
Definition load_generations (w : io_world) (fs : filesystem) (file_path : pystr)
  : Json.value :=
  if path_exists fs file_path then
    if open_r_fails w file_path then Json.Array []
    else
      match fs_node fs file_path with
      | Some (File (TextFile text)) =>
          match Json.loads text with
          | Some generations => generations
          | None => Json.Array []
          end
      | _ => Json.Array []
      end
  else Json.Array [].

(** [save_generations(file_path, generations)]. When [open] raises, the
    error is printed and the files stay as they are. Once the file is open
    it has been emptied; [json.dump] writes the text into it, and when that
    (or the flush on leaving the [with]) raises, the error is printed as
    well, and the file is left with the part of the text that got there. *)
Definition save_generations (w : io_world) (fs : filesystem) (file_path : pystr)
    (generations : Json.value) : filesystem :=
  if open_w_fails w file_path then fs
  else
    let text := Json.dumps generations in
    match write_stops w file_path with
    | None => fs_write fs file_path (TextFile text)
    | Some n => fs_write fs file_path (TextFile (take n text))
    end.

End Persistence.

(** ** models.py *)

Module Models.

(** [VOICE_FILES] *)
Definition VOICE_FILES : list pystr := lit <$>
  [ "af_alloy.pt"; "af_aoede.pt"; "af_bella.pt"; "af_jessica.pt";
    "af_kore.pt"; "af_nicole.pt"; "af_nova.pt"; "af_river.pt";
    "af_sarah.pt"; "af_sky.pt";
    "am_adam.pt"; "am_echo.pt"; "am_eric.pt"; "am_fenrir.pt";
    "am_liam.pt"; "am_michael.pt"; "am_onyx.pt"; "am_puck.pt";
    "am_santa.pt";
    "bf_alice.pt"; "bf_emma.pt"; "bf_isabella.pt"; "bf_lily.pt";
    "bm_daniel.pt"; "bm_fable.pt"; "bm_george.pt"; "bm_lewis.pt";
    "el_dora.pt"; "em_alex.pt"; "em_santa.pt";
    "ff_siwis.pt";
    "hf_alpha.pt"; "hf_beta.pt";
    "hm_omega.pt"; "hm_psi.pt";
    "jf_sara.pt"; "jm_nicola.pt";
    "jf_alpha.pt"; "jf_gongtsuene.pt"; "jf_nezumi.pt"; "jf_tebukuro.pt";
    "jm_kumo.pt";
    "pf_dora.pt"; "pm_alex.pt"; "pm_santa.pt";
    "zf_xiaobei.pt"; "zf_xiaoni.pt"; "zf_xiaoqiao.pt"; "zf_xiaoyi.pt" ]%string.

Definition REPO_ID : pystr := lit "hexgrad/Kokoro-82M".

(** Voice weights as [torch.load] hands them over, and the device they sit on. *)
Record voice_model : Type := { weights : list Q; on_device : pystr }.

(** [voice_model.to(device)] *)
Definition to_device (v : voice_model) (device : pystr) : voice_model :=
  {| weights := weights v; on_device := device |}.

(** The [KPipeline] object, as far as models.py touches it. *)
Record KPipeline : Type := { device : pystr; voices : gmap pystr voice_model }.

(** What the module does to the outside, in order: an existence test of a
    local artifact with its answer, and a fetch from the hub of the artifact
    that lands at a local path. *)
Inductive event : Type :=
  | EvExists (artifact : pystr) (found : bool)
  | EvFetch (artifact : pystr).

(** What the outside answers. *)
Record hub_world : Type := {
  hub_serves : pystr → bool;      (* hf_hub_download(filename=...) succeeds *)
  hub_path : pystr → pystr;       (* the str it returns for the file it put
                                     at a local path: that path as the
                                     library spells it (absolute, say) *)
  hub_leaves : pystr → list (pystr * node);
                                  (* what a call for a file leaves below
                                     local_dir/.cache: paths from there on,
                                     and the nodes *)
  kpipeline_init_fails : bool;    (* KPipeline(lang_code='a') raises *)
  torch_load : pystr → result (option voice_model)
}.

(** The module's state: the files, the global [_pipeline], and the trace. *)
Record state : Type := {
  fs : filesystem;
  _pipeline : option KPipeline;
  trace : list event
}.

Definition set_fs (f : filesystem → filesystem) (st : state) : state :=
  {| fs := f (fs st); _pipeline := _pipeline st; trace := trace st |}.
Definition set_pipeline (p : option KPipeline) (st : state) : state :=
  {| fs := fs st; _pipeline := p; trace := trace st |}.
Definition log (e : event) (st : state) : state :=
  {| fs := fs st; _pipeline := _pipeline st; trace := trace st ++ [e] |}.

(** [os.path.exists(p)] (and [Path.exists]), traced. *)
Definition os_path_exists (p : pystr) : M state bool := λ st,
  let found := path_exists (fs st) p in
  (Ok found, log (EvExists (canon p) found) st).

(** The bookkeeping of the hub library: a call of [hf_hub_download] leaves
    lock and metadata files, and the directories they are in, below
    [local_dir/.cache], whether the download goes through or not. *)
Definition hub_cache (w : hub_world) (filename local_dir : pystr) : filesystem :=
  list_to_map
    ((λ kn, (canon (path_join local_dir (lit ".cache" ++ kn.1)), kn.2))
       <$> hub_leaves w filename).

(** The str a download that went through returns: a spelling of the path of
    the file, never the empty str. *)
Definition downloaded_path (w : hub_world) (target : pystr) : pystr :=
  match hub_path w target with
  | [] => target
  | p => p
  end.

(** [hf_hub_download(repo_id, filename, local_dir, force_download=False)]:
    the file lands at [local_dir/filename] and the call returns a path of
    it, or the call raises; either way the library leaves its bookkeeping,
    where there is none yet. *)
Definition hf_hub_download (w : hub_world) (repo_id filename local_dir : pystr)
  : M state pystr := λ st,
  let target := path_join local_dir filename in
  let st' := set_fs (λ fs, fs ∪ hub_cache w filename local_dir)
               (log (EvFetch (canon target)) st) in
  if hub_serves w filename
  then (Ok (downloaded_path w target), set_fs (λ fs, fs_write fs target Blob) st')
  else (Raise (OSError filename), st').

(** [download_file(repo_id, filename, local_dir)]: the local path, or the
    empty string when the download failed. *)
Definition download_file (w : hub_world) (repo_id filename local_dir : pystr)
  : M state pystr :=
  let local_path := path_join local_dir filename in
  found ← os_path_exists local_path;
  if negb found then
    try_except
      (download_path ← hf_hub_download w repo_id filename local_dir;
       mret download_path)
      (λ _, mret [])
  else mret local_path.

(** [Path.mkdir(exist_ok=True)] *)
Definition mkdir_exist_ok (d : pystr) : M state () := λ st,
  match fs_node (fs st) d with
  | None => (Ok (), set_fs (λ fs, <[canon d := Dir]> fs) st)
  | Some Dir => (Ok (), st)
  | Some (File _) => (Raise (OSError d), st)
  end.

(** One round of the loop of [download_voice_files]; [downloaded_voices] is
    the list built so far. *)
Definition download_voice_step (w : hub_world) (force_download : bool)
    (voices_dir : pystr) (downloaded_voices : list pystr) (voice_file : pystr)
  : M state (list pystr) :=
  let voice_path := path_join voices_dir voice_file in
  missing ← (if force_download then mret true
             else found ← os_path_exists voice_path; mret (negb found));
  if (missing : bool) then
    r ← download_file w REPO_ID (lit "voices/" ++ voice_file) (lit ".");
    if bool_decide (r ≠ []) then mret (downloaded_voices ++ [voice_file])
    else mret downloaded_voices
  else mret (downloaded_voices ++ [voice_file]).

Fixpoint download_voice_loop (w : hub_world) (force_download : bool)
    (voices_dir : pystr) (todo : list pystr) (downloaded_voices : list pystr)
  : M state (list pystr) :=
  match todo with
  | [] => mret downloaded_voices
  | voice_file :: todo' =>
      acc ← download_voice_step w force_download voices_dir downloaded_voices voice_file;
      download_voice_loop w force_download voices_dir todo' acc
  end.

(** [download_voice_files(force_download=False)] *)
Definition download_voice_files (w : hub_world) (force_download : bool)
  : M state (list pystr) :=
  let voices_dir := lit "voices" in
  _ ← mkdir_exist_ok voices_dir;
  download_voice_loop w force_download voices_dir VOICE_FILES [].

(** The model or config part of [build_model]: download only if missing. *)
Definition ensure_artifact (w : hub_world) (path filename : pystr) (failure : pystr)
  : M state pystr :=
  found ← os_path_exists path;
  if negb found then
    r ← download_file w REPO_ID filename (lit ".");
    if bool_decide (r = []) then raise (ValueError failure) else mret r
  else mret path.

(** [KPipeline(lang_code='a')] with [device] and an empty [voices] set on it. *)
Definition new_pipeline (w : hub_world) (dev : pystr) : M state KPipeline :=
  if kpipeline_init_fails w then raise (RuntimeError (lit "KPipeline"))
  else mret {| device := dev; voices := ∅ |}.

(** [build_model(model_path='kokoro-v1_0.pth', device='cpu')]. The call of
    [patch_json_load()] is left out: it swaps [json.load] for a reader of the
    same texts and touches no file. *)
Definition build_model (w : hub_world) (model_path dev : pystr) : M state KPipeline :=
  st ← get;
  match _pipeline st with
  | Some cached => mret cached
  | None =>
      try_except
        (_ ← ensure_artifact w model_path (lit "kokoro-v1_0.pth")
               (lit "Failed to download model file.");
         _ ← ensure_artifact w (lit "config.json") (lit "config.json")
               (lit "Failed to download config file.");
         p ← new_pipeline w dev;
         _ ← modify (set_pipeline (Some p));
         mret p)
        (λ e, raise e)
  end.

(** [voice_name.replace('.pt', '')] *)
Fixpoint remove_pt (s : pystr) : pystr :=
  match s with
  | [] => []
  | c1 :: s1 =>
      match s1 with
      | c2 :: c3 :: s3 =>
          if bool_decide ([c1; c2; c3] = lit ".pt") then remove_pt s3
          else c1 :: remove_pt s1
      | _ => c1 :: remove_pt s1
      end
  end.

(** The last component of a path ([Path(p).name]). *)
Fixpoint basename (p : pystr) : pystr :=
  match p with
  | [] => []
  | c :: p' => if bool_decide (SLASH ∈ p') then basename p'
               else if bool_decide (c = SLASH) then p' else p
  end.

(** [Path(p).stem]: the name without its last suffix; a name whose only dot
    is the first or the last character has no suffix. *)
Definition stem (p : pystr) : pystr :=
  let name := basename p in
  let head := rsplit_dot_head name in
  if bool_decide (head = []) || bool_decide (length name ≤ S (length head))%nat
  then name else head.

(** [patched_load_voice(self, voice_path)], [self] being the global pipeline. *)
Definition patched_load_voice (w : hub_world) (self : KPipeline) (voice_path : pystr)
  : M state voice_model :=
  found ← os_path_exists voice_path;
  if negb found then raise (FileNotFoundError voice_path)
  else
    let voice_name := stem voice_path in
    match torch_load w voice_path with
    | Raise e => raise e
    | Ok None => raise (ValueError voice_path)
    | Ok (Some voice) =>
        let v := to_device voice (device self) in
        st ← get;
        _ ← modify (set_pipeline
               ((λ p, {| device := device p; voices := <[voice_name := v]> (voices p) |})
                  <$> _pipeline st));
        mret v
    end.

(** [load_voice(voice_name, device)] *)
Definition load_voice (w : hub_world) (voice_name dev : pystr) : M state voice_model :=
  pipeline ← build_model w (lit "kokoro-v1_0.pth") dev;
  let voice_name := remove_pt voice_name in
  let voice_path := lit "voices/" ++ voice_name ++ lit ".pt" in
  found ← os_path_exists voice_path;
  _ ← (if negb found then
         _ ← download_voice_files w false;
         again ← os_path_exists voice_path;
         if negb again then raise (ValueError voice_path) else mret ()
       else mret ());
  patched_load_voice w pipeline voice_path.

(** [list_available_voices()]: the stems of the entries of the directory
    [voices] that match [*.pt], in the order of the directory; no voice when
    there is no such directory. *)
Definition list_available_voices : M state (list pystr) :=
  let voices_dir := lit "voices" in
  found ← os_path_exists voices_dir;
  if negb found then mret []
  else
    st ← get;
    match listdir (fs st) voices_dir with
    | Ok names =>
        mret ((λ f, stem (path_join voices_dir f))
                <$> filter (λ f, endswith f (lit ".pt") = true) names)
    | Raise _ => mret []      (* [glob] under a file yields nothing *)
    end.

End Models.

(** ** tts_wrapper.py *)

Module TtsWrapper.

(** The file the module's [logger] appends to ([logging.FileHandler]). The
    [logger.info], [logger.error] and [logger.exception] calls of the module
    add a record to it, and to the log file of ui_main.py, and do nothing
    else; they are not written out below. *)
Definition log_file : pystr := lit "tts_wrapper.log".

(** An audio tensor: its samples, [float32] numbers as the pipeline gives
    them. *)
Abbreviation tensor := (list Q).

(** One element of the raw synthesis sequence: [(gs, ps, audio_tensor)],
    the audio being [None] for a segment without sound. *)
Record raw_item : Type := {
  gs : pystr;
  ps : pystr;
  audio_tensor : option tensor
}.

(** A run of the lazy sequence the pipeline returns: what it yields, in
    order, and the exception it ends with, if any. *)
Record generator : Type := {
  yields : list raw_item;
  fault : option exn
}.

(** What the outside answers during one call of [synthesize]. *)
Record world : Type := {
  hub : Models.hub_world;
  strftime : pystr;                                   (* time.strftime("%Y%m%d_%H%M%S") *)
  pipeline_call : pystr → pystr → Q → pystr → generator; (* self.pipeline(text, voice, speed, split_pattern) *)
  sf_write_fails : pystr → pystr → bool;              (* sf.write(path, ..., format) raises *)
  sf_write_leaves : pystr → pystr → option file_data  (* the file it then leaves at path, if any *)
}.

(** The wrapper's settings, fixed by [__init__]. *)
Record KokoroTTSWrapper : Type := {
  output_dir : pystr;
  temp_dir : pystr;
  split_pattern : pystr;
  model_path : pystr;
  device : pystr
}.

Record state : Type := {
  models : Models.state;
  last_synthesis_timestamp : option pystr
}.

Definition set_models (f : Models.state → Models.state) (st : state) : state :=
  {| models := f (models st); last_synthesis_timestamp := last_synthesis_timestamp st |}.
Definition set_timestamp (t : option pystr) (st : state) : state :=
  {| models := models st; last_synthesis_timestamp := t |}.

(** A call into models.py. *)
Definition in_models {A} (c : M Models.state A) : M state A := λ st,
  match c (models st) with
  | (r, m') => (r, set_models (λ _, m') st)
  end.

(** The files as the wrapper sees them. *)
Definition files (st : state) : filesystem := Models.fs (models st).

(** One entry of the list [synthesize] returns:
    [(gs, ps, audio_data_numpy, chunk_filepath)]. *)
Abbreviation chunk := (pystr * pystr * tensor * pystr)%type.

(** Truncation toward zero, as the cast of a float to an integer does. *)
Definition Qtrunc (q : Q) : Z := if Qle_bool 0 q then Qfloor q else Qceiling q.

(** What a cast to [int16] keeps of an integer: its low sixteen bits, read
    as a signed number. *)
Definition wrap_int16 (z : Z) : Z := (z + 32768) mod 65536 - 32768.

(** [(audio_data_numpy * 32767).astype(np.int16)]: the product of a
    [float32] array and a Python [int] is a [float32] array, so each product
    is rounded to a [float32]; the cast truncates it toward zero and keeps
    sixteen bits, so that a sample beyond [-1, 1] wraps around. (This is the
    cast for products below [2 ^ 31] in size; beyond, what it leaves is
    the machine's own.) *)
Definition to_int16 (audio : tensor) : list Z :=
  (λ x, wrap_int16 (Qtrunc (float32 (x * 32767)))) <$> audio.

(** [s.upper()] on ASCII letters. *)
Definition upper (s : pystr) : pystr :=
  (λ c, if bool_decide (97 ≤ c ≤ 122)%N then (c - 32)%N else c) <$> s.

(** [sf.write(path, data, samplerate=24000, format=..., subtype='PCM_16')].
    A write that raises may have left a file at [path] all the same, empty
    or cut short. *)
Definition sf_write (w : world) (path : pystr) (data : list Z) (format : pystr)
  : M state () := λ st,
  if sf_write_fails w path format then
    (Raise (OSError path),
     match sf_write_leaves w path format with
     | Some broken => set_models (Models.set_fs (λ fs, fs_write fs path broken)) st
     | None => st
     end)
  else (Ok (), set_models (Models.set_fs (λ fs, fs_write fs path (WavFile 24000 data))) st).

(** [save_audio(self, audio_data_numpy, filepath, format='WAV')]: the path
    the audio was saved at. *)
Definition save_audio (w : world) (audio_data_numpy : tensor) (filepath format : pystr)
  : M state pystr :=
  try_except
    (let audio_int16 := to_int16 audio_data_numpy in
     _ ← sf_write w filepath audio_int16 (upper format);
     mret filepath)
    (λ _,
     let fallback_path := rsplit_dot_head filepath ++ lit ".wav" in
     let audio_int16 := to_int16 audio_data_numpy in
     _ ← sf_write w fallback_path audio_int16 (lit "WAV");
     mret fallback_path).

Definition chunk_filename (timestamp : pystr) (chunk_index : nat) : pystr :=
  lit "chunk_" ++ timestamp ++ lit "_" ++ str_of_nat chunk_index ++ lit ".wav".

Definition combined_filename (timestamp : pystr) : pystr :=
  lit "combined_" ++ timestamp ++ lit ".wav".

(** The [for chunk_index, (gs, ps, audio_tensor) in enumerate(generator)]
    loop over what the generator yields from [chunk_index] on; the
    accumulator is [(synthesis_result_list, all_audio_tensors)]. *)
Fixpoint synthesize_loop (w : world) (self : KokoroTTSWrapper) (timestamp : pystr)
    (items : list raw_item) (chunk_index : nat)
    (acc : list chunk * list tensor) : M state (list chunk * list tensor) :=
  match items with
  | [] => mret acc
  | item :: items' =>
      acc' ← match audio_tensor item with
             | Some audio =>
                 let audio_data_numpy := audio in
                 let chunk_filepath :=
                   path_join (temp_dir self) (chunk_filename timestamp chunk_index) in
                 _ ← save_audio w audio_data_numpy chunk_filepath (lit "WAV");
                 mret (acc.1 ++ [(gs item, ps item, audio_data_numpy, chunk_filepath)],
                       acc.2 ++ [audio])
             | None => mret acc
             end;
      synthesize_loop w self timestamp items' (S chunk_index) acc'
  end.

(** [synthesize(self, text, speed=1.0, selected_voice=...)] with a voice
    name given: the chunk list and the path of the combined file, or [None]
    for the latter (and no chunk) when no audio came. *)
Definition synthesize (w : world) (self : KokoroTTSWrapper)
    (text : pystr) (speed : Q) (selected_voice : pystr)
  : M state (list chunk * option pystr) :=
  let timestamp := strftime w in
  _ ← modify (set_timestamp (Some timestamp));
  try_except
    (_ ← in_models (Models.load_voice (hub w) selected_voice (device self));
     let generator :=
       pipeline_call w text (lit "voices/" ++ selected_voice ++ lit ".pt") speed
         (split_pattern self) in
     acc ← synthesize_loop w self timestamp (yields generator) 0 ([], []);
     _ ← match fault generator with
         | Some e => raise e
         | None => mret ()
         end;
     let '(synthesis_result_list, all_audio_tensors) := acc in
     if bool_decide (all_audio_tensors ≠ []) then
       let combined_audio_tensor := concat all_audio_tensors in
       let combined_filepath :=
         path_join (temp_dir self) (combined_filename timestamp) in
       _ ← save_audio w combined_audio_tensor combined_filepath (lit "WAV");
       mret (synthesis_result_list, Some combined_filepath)
     else mret ([], None))
    (λ e, raise e).

(** The segments of a raw sequence that carry audio. *)
Definition non_empty (items : list raw_item) : list raw_item :=
  filter (λ item, is_Some (audio_tensor item)) items.

End TtsWrapper.

(** ** ui_main.py *)

Module UiMain.

(** A float, named by the text [repr] gives for it. *)
Record pyfloat : Type := { float_repr : pystr }.

(** One entry of a record's ["chunks"] list. *)
Record ChunkMeta : Type := {
  graphemes : pystr;
  phonemes : pystr;
  filepath : pystr
}.

(** One entry of the ledger [self.synthesis_results]: the [dict] with the
    keys ["timestamp"], ["chunks"] and ["combined"]. *)
Record GenerationRecord : Type := {
  timestamp : pyfloat;
  chunks : list ChunkMeta;
  combined : pystr
}.

Definition chunk_to_json (c : ChunkMeta) : Json.value :=
  Json.Object [(lit "graphemes", Json.String (graphemes c));
               (lit "phonemes", Json.String (phonemes c));
               (lit "filepath", Json.String (filepath c))].

Definition record_to_json (g : GenerationRecord) : Json.value :=
  Json.Object [(lit "timestamp", Json.Number (float_repr (timestamp g)));
               (lit "chunks", Json.Array (chunk_to_json <$> chunks g));
               (lit "combined", Json.String (combined g))].

(** The ledger as the Python object [json.dump] is given. *)
Definition ledger_to_json (ledger : list GenerationRecord) : Json.value :=
  Json.Array (record_to_json <$> ledger).

(** A well-formed record: a finite time stamp, and strings of Unicode scalar
    values. *)
Definition wf_chunk (c : ChunkMeta) : bool :=
  Json.wf_string (graphemes c) && Json.wf_string (phonemes c)
  && Json.wf_string (filepath c).

Definition wf_record (g : GenerationRecord) : bool :=
  Json.wf_number (float_repr (timestamp g))
  && forallb wf_chunk (chunks g)
  && Json.wf_string (combined g).

Definition wf_ledger (ledger : list GenerationRecord) : bool := forallb wf_record ledger.

(** [log_file]: the file the root logger appends to, beside the console.
    Every [logging] call of this module and, since loggers hand their records
    up, every [logger] call of tts_wrapper.py adds a record to it. *)
Definition log_file : pystr := lit "gui.log".

(** [PERSIST_FILE] *)
Definition PERSIST_FILE : pystr := path_join (lit "outputs") (lit "generations.json").

(** A row of the results table. *)
Inductive row : Type :=
  | ChunkRow (gen_idx i : nat) (graphemes phonemes filepath : pystr)
  | CombinedRow (gen_idx : nat) (combined : pystr).

(** The text of the generation label. *)
Inductive generation_time : Type :=
  | NotAvailable                               (* "Last Generation Time: N/A" *)
  | Elapsed (start_time end_time : pyfloat).   (* f"... {end - start:.2f} sec" *)

(** A call queued for the UI thread ([Qt.QueuedConnection]), or the slot a
    signal emitted off that thread ends in. *)
Inductive call : Type :=
  | UpdateStatusMessage (msg : pystr) (timeout : Z)
  | UpdateGenerationTime (elapsed : generation_time)
  | WaveformSetFile (filepath : pystr)
  | SynthButtonSetEnabled (enabled : bool)
  | PopulateResultsTable.

(** What a worker thread was started with: the variables [run_synthesis]
    closes over. *)
Record job : Type := {
  job_text : pystr;
  job_speed : Q;
  job_voice : pystr
}.

(** The window and what hangs on it. *)
Record window : Type := {
  text_edit : pystr;                      (* self.text_edit.toPlainText() *)
  voice_combo : pystr;                    (* self.voice_combo.currentText() *)
  speed_spin : Q;                         (* self.speed_spin.value() *)
  synth_button_enabled : bool;            (* self.synth_button.isEnabled() *)
  status_message : option (pystr * Z);    (* the status bar *)
  generation_label : generation_time;
  results_table : list row;
  waveform_file : option pystr;           (* self.waveform_widget.audio_filepath *)
  current_filepath : option pystr;
  synthesis_results : list GenerationRecord;
  tts_wrapper : TtsWrapper.KokoroTTSWrapper
}.

(** The process: the window, the engine with the files, the calls waiting
    for the UI thread, the worker threads started, the error boxes shown. *)
Record system : Type := {
  ui : window;
  engine : TtsWrapper.state;
  queue : list call;
  threads : list job;
  error_boxes : list exn
}.

(** What the outside answers while a worker runs. *)
Record world : Type := {
  tts : TtsWrapper.world;
  io : Persistence.io_world;
  start_time : pyfloat;           (* time.time() on entry *)
  stamp_time : pyfloat;           (* time.time() for the record *)
  end_time : pyfloat;             (* time.time() after the ledger update *)
  show_error_fails : bool;        (* error_handler.show_error raises *)
  remove_fails : pystr → bool     (* os.remove(path) raises *)
}.

Definition set_ui (f : window → window) (s : system) : system :=
  {| ui := f (ui s); engine := engine s; queue := queue s;
     threads := threads s; error_boxes := error_boxes s |}.
Definition set_engine (f : TtsWrapper.state → TtsWrapper.state) (s : system) : system :=
  {| ui := ui s; engine := f (engine s); queue := queue s;
     threads := threads s; error_boxes := error_boxes s |}.

(** [QMetaObject.invokeMethod(..., Qt.QueuedConnection, ...)] *)
Definition post (c : call) (s : system) : system :=
  {| ui := ui s; engine := engine s; queue := queue s ++ [c];
     threads := threads s; error_boxes := error_boxes s |}.

(** [threading.Thread(target=run_synthesis, daemon=True).start()] *)
Definition start_thread (j : job) (s : system) : system :=
  {| ui := ui s; engine := engine s; queue := queue s;
     threads := threads s ++ [j]; error_boxes := error_boxes s |}.

Definition set_synth_button (b : bool) (u : window) : window :=
  {| text_edit := text_edit u; voice_combo := voice_combo u; speed_spin := speed_spin u;
     synth_button_enabled := b; status_message := status_message u;
     generation_label := generation_label u; results_table := results_table u;
     waveform_file := waveform_file u; current_filepath := current_filepath u;
     synthesis_results := synthesis_results u; tts_wrapper := tts_wrapper u |}.
Definition set_status (m : option (pystr * Z)) (u : window) : window :=
  {| text_edit := text_edit u; voice_combo := voice_combo u; speed_spin := speed_spin u;
     synth_button_enabled := synth_button_enabled u; status_message := m;
     generation_label := generation_label u; results_table := results_table u;
     waveform_file := waveform_file u; current_filepath := current_filepath u;
     synthesis_results := synthesis_results u; tts_wrapper := tts_wrapper u |}.
Definition set_generation_label (g : generation_time) (u : window) : window :=
  {| text_edit := text_edit u; voice_combo := voice_combo u; speed_spin := speed_spin u;
     synth_button_enabled := synth_button_enabled u; status_message := status_message u;
     generation_label := g; results_table := results_table u;
     waveform_file := waveform_file u; current_filepath := current_filepath u;
     synthesis_results := synthesis_results u; tts_wrapper := tts_wrapper u |}.
Definition set_results_table (t : list row) (u : window) : window :=
  {| text_edit := text_edit u; voice_combo := voice_combo u; speed_spin := speed_spin u;
     synth_button_enabled := synth_button_enabled u; status_message := status_message u;
     generation_label := generation_label u; results_table := t;
     waveform_file := waveform_file u; current_filepath := current_filepath u;
     synthesis_results := synthesis_results u; tts_wrapper := tts_wrapper u |}.
Definition set_waveform_file (f : option pystr) (u : window) : window :=
  {| text_edit := text_edit u; voice_combo := voice_combo u; speed_spin := speed_spin u;
     synth_button_enabled := synth_button_enabled u; status_message := status_message u;
     generation_label := generation_label u; results_table := results_table u;
     waveform_file := f; current_filepath := current_filepath u;
     synthesis_results := synthesis_results u; tts_wrapper := tts_wrapper u |}.
Definition set_current_filepath (f : option pystr) (u : window) : window :=
  {| text_edit := text_edit u; voice_combo := voice_combo u; speed_spin := speed_spin u;
     synth_button_enabled := synth_button_enabled u; status_message := status_message u;
     generation_label := generation_label u; results_table := results_table u;
     waveform_file := waveform_file u; current_filepath := f;
     synthesis_results := synthesis_results u; tts_wrapper := tts_wrapper u |}.
Definition set_synthesis_results (l : list GenerationRecord) (u : window) : window :=
  {| text_edit := text_edit u; voice_combo := voice_combo u; speed_spin := speed_spin u;
     synth_button_enabled := synth_button_enabled u; status_message := status_message u;
     generation_label := generation_label u; results_table := results_table u;
     waveform_file := waveform_file u; current_filepath := current_filepath u;
     synthesis_results := l; tts_wrapper := tts_wrapper u |}.

Definition files (s : system) : filesystem := TtsWrapper.files (engine s).

Definition set_files (f : filesystem → filesystem) (s : system) : system :=
  set_engine (TtsWrapper.set_models (Models.set_fs f)) s.

(** A call into the engine. *)
Definition in_engine {A} (c : M TtsWrapper.state A) : M system A := λ s,
  match c (engine s) with
  | (r, e') => (r, set_engine (λ _, e') s)
  end.

(** The rows [populate_results_table] builds for the ledger: per record, a
    row per chunk, then the combined row if the record has a combined path. *)
Definition rows_of (ledger : list GenerationRecord) : list row :=
  concat (imap (λ k gen,
    imap (λ i c, ChunkRow (S k) i (graphemes c) (phonemes c) (filepath c)) (chunks gen)
    ++ (if bool_decide (combined gen ≠ []) then [CombinedRow (S k) (combined gen)]
        else [])) ledger).

(** [populate_results_table(self)] *)
Definition populate_results_table (s : system) : system :=
  set_ui (λ u, set_results_table (rows_of (synthesis_results u)) u) s.

(** [save_generations(self)] *)
Definition save_generations (w : world) (s : system) : system :=
  set_files (λ fs, Persistence.save_generations (io w) fs PERSIST_FILE
                     (ledger_to_json (synthesis_results (ui s)))) s.

(** The slot a queued call runs, on the UI thread. *)
Definition dispatch (c : call) (s : system) : system :=
  match c with
  | UpdateStatusMessage msg timeout => set_ui (set_status (Some (msg, timeout))) s
  | UpdateGenerationTime elapsed => set_ui (set_generation_label elapsed) s
  | WaveformSetFile filepath => set_ui (set_waveform_file (Some filepath)) s
  | SynthButtonSetEnabled enabled => set_ui (set_synth_button enabled) s
  | PopulateResultsTable => populate_results_table s
  end.

(** The UI thread's event loop takes the waiting calls in the order they
    were posted. *)
Definition process_events (s : system) : system :=
  fold_left (λ s c, dispatch c s) (queue s)
    {| ui := ui s; engine := engine s; queue := [];
       threads := threads s; error_boxes := error_boxes s |}.

(** [on_synthesize_clicked(self)], up to and including the start of the
    worker thread. *)
Definition on_synthesize_clicked (s : system) : system :=
  let text := strip (text_edit (ui s)) in
  if bool_decide (text = []) then s
  else
    let s := set_ui (set_synth_button false) s in
    let s := post (UpdateStatusMessage (lit "Synthesizing...") 0) s in
    let voice := voice_combo (ui s) in
    let voice := if bool_decide (strip voice = []) then lit "af_bella" else voice in
    let speed := speed_spin (ui s) in
    start_thread {| job_text := text; job_speed := speed; job_voice := voice |} s.

(** The entry of ["chunks"] made of one chunk of the engine's list. *)
Definition chunk_meta (c : TtsWrapper.chunk) : ChunkMeta :=
  {| graphemes := c.1.1.1; phonemes := c.1.1.2; filepath := c.2 |}.

(** [gen["chunks"].append({...})] *)
Definition append_chunk (gen : GenerationRecord) (c : TtsWrapper.chunk)
  : GenerationRecord :=
  {| timestamp := timestamp gen;
     chunks := chunks gen ++ [chunk_meta c];
     combined := combined gen |}.

(** The record [run_synthesis] builds from what [synthesize] returned. *)
Definition make_record (w : world) (fs : filesystem)
    (results : list TtsWrapper.chunk * option pystr) : GenerationRecord :=
  let '(chunk_list, combined_path) := results in
  let gen := {| timestamp := stamp_time w;
                chunks := [];
                combined := match combined_path with
                            | Some p =>
                                if bool_decide (p ≠ []) && path_exists fs p then p else []
                            | None => []
                            end |} in
  fold_left append_chunk chunk_list gen.

(** [error_handler.show_error(self, message)], called off the UI thread. *)
Definition show_error (w : world) (e : exn) : M system () := λ s,
  if show_error_fails w then (Raise (RuntimeError (lit "QMessageBox")), s)
  else (Ok (), {| ui := ui s; engine := engine s; queue := queue s;
                  threads := threads s; error_boxes := error_boxes s ++ [e] |}).

(** The body of the [try] of [run_synthesis]. *)
Definition run_synthesis_try (w : world) (j : job) : M system () :=
  s0 ← get;
  results ← in_engine (TtsWrapper.synthesize (tts w) (tts_wrapper (ui s0))
                         (job_text j) (job_speed j) (job_voice j));
  (* [if results:] holds for every pair *)
  s1 ← get;
  let gen := make_record w (files s1) results in
  _ ← modify (set_ui (λ u, set_synthesis_results (synthesis_results u ++ [gen]) u));
  _ ← modify (save_generations w);
  _ ← modify (post (UpdateGenerationTime (Elapsed (start_time w) (end_time w))));
  _ ← match results.2 with
      | Some p =>
          if bool_decide (p ≠ []) then
            _ ← modify (post (WaveformSetFile p));
            modify (set_ui (set_current_filepath (Some p)))
          else mret ()
      | None => mret ()
      end;
  _ ← modify (post PopulateResultsTable);   (* self.synthesis_finished_signal.emit() *)
  modify (post (UpdateStatusMessage (lit "Synthesis complete.") 2000)).

(** [run_synthesis()], the worker thread's function. *)
Definition run_synthesis (w : world) (j : job) : M system () :=
  try_finally
    (try_except
       (run_synthesis_try w j)
       (λ e,
        _ ← modify (post (UpdateStatusMessage (lit "Synthesis error.") 2000));
        show_error w e))
    (modify (post (SynthButtonSetEnabled true))).

(** One round of the first loop of [clear_temp_files]. *)
Definition remove_chunk_file (w : world) (temp_dir filename : pystr) : M system () :=
  if startswith filename (lit "chunk_") then
    let filepath := path_join temp_dir filename in
    λ s, match os_remove (remove_fails w filepath) (files s) filepath with
         | Ok fs' => (Ok (), set_files (λ _, fs') s)
         | Raise _ => (Ok (), s)      (* logging.exception: a record in [log_file] *)
         end
  else mret ().

(** [gen["chunks"] = []] *)
Definition clear_chunks (gen : GenerationRecord) : GenerationRecord :=
  {| timestamp := timestamp gen; chunks := []; combined := combined gen |}.

(** [clear_temp_files(self)] *)
Definition clear_temp_files (w : world) : M system () :=
  s0 ← get;
  let temp_dir := TtsWrapper.temp_dir (tts_wrapper (ui s0)) in
  names ← (λ s, (listdir (files s) temp_dir, s));
  _ ← for_each names (remove_chunk_file w temp_dir);
  _ ← modify (set_ui (λ u, set_synthesis_results (clear_chunks <$> synthesis_results u) u));
  _ ← modify (save_generations w);
  _ ← modify populate_results_table;
  modify (post (UpdateStatusMessage (lit "Temporary files cleared.") 2000)).

(** [clear_old_results(self)] *)
Definition clear_old_results (w : world) : M system () :=
  _ ← modify (set_ui (set_results_table []));
  _ ← modify (set_ui (set_synthesis_results []));
  _ ← modify (save_generations w);
  _ ← modify (set_ui (set_generation_label NotAvailable));
  modify (post (UpdateStatusMessage (lit "Persistent generations cleared.") 2000)).

End UiMain.

(** ** ui_main.py: the waveform widget *)

Module Waveform.

(** The state of a [WaveformWidget]; the samples it draws are [float64]
    numbers (or the [int16] samples of the file, where nothing was
    divided). *)
Record WaveformWidget : Type := {
  audio_filepath : option pystr;
  audio_data : list Q;
  sample_rate : Z;
  last_loaded_filepath : option pystr
}.

(** [WaveformWidget.__init__] *)
Definition init : WaveformWidget :=
  {| audio_filepath := None; audio_data := []; sample_rate := 22050;
     last_loaded_filepath := None |}.

Definition set_audio_filepath (f : option pystr) (self : WaveformWidget) : WaveformWidget :=
  {| audio_filepath := f; audio_data := audio_data self;
     sample_rate := sample_rate self; last_loaded_filepath := last_loaded_filepath self |}.
Definition set_audio_data (d : list Q) (self : WaveformWidget) : WaveformWidget :=
  {| audio_filepath := audio_filepath self; audio_data := d;
     sample_rate := sample_rate self; last_loaded_filepath := last_loaded_filepath self |}.
Definition set_sample_rate (r : Z) (self : WaveformWidget) : WaveformWidget :=
  {| audio_filepath := audio_filepath self; audio_data := audio_data self;
     sample_rate := r; last_loaded_filepath := last_loaded_filepath self |}.
Definition set_last_loaded_filepath (f : option pystr) (self : WaveformWidget)
  : WaveformWidget :=
  {| audio_filepath := audio_filepath self; audio_data := audio_data self;
     sample_rate := sample_rate self; last_loaded_filepath := f |}.

(** What [wave.open(filepath, "rb")] gives to read: the frame rate, the
    number of channels and the frames as 16-bit samples; nothing when it
    raises. *)
Definition wave_open (fs : filesystem) (filepath : pystr) : option (Z * Z * list Z) :=
  match fs_node fs filepath with
  | Some (File (WavFile framerate frames)) => Some (framerate, 1, frames)
  | Some (File (WavFileN nchannels framerate frames)) =>
      Some (framerate, nchannels, frames)
  | _ => None
  end.

(** [np.abs] on an [int16]: the least value has no opposite and stays as it
    is. *)
Definition abs_int16 (z : Z) : Z := if z =? -32768 then -32768 else Z.abs z.

(** [audio_data.reshape(-1, 2).mean(axis=1)]: the mean of each pair of
    samples, a [float64] (the sum of two [int16] numbers and its half are
    exact there); nothing (it raises) when the samples do not pair up. *)
Fixpoint pair_means (frames : list Z) : option (list Q) :=
  match frames with
  | [] => Some []
  | [_] => None
  | l :: r :: frames' =>
      match pair_means frames' with
      | Some means => Some (((inject_Z l + inject_Z r) / 2)%Q :: means)
      | None => None
      end
  end.

(** [np.max] of an array of numbers; nothing (it raises) on an empty one. *)
Definition np_max (values : list Q) : option Q :=
  match values with
  | [] => None
  | x :: values' => Some (fold_left (λ m y, if Qle_bool m y then y else m) values' x)
  end.

(** [load_audio(self, filepath)]. Every exception between [wave.open] and
    the assignment of [last_loaded_filepath] is logged and ends the call,
    with what was assigned before it kept. The division by the peak is a
    division of [float64] numbers ([int16] samples are turned into such). *)
Definition load_audio (fs : filesystem) (filepath : pystr) (self : WaveformWidget)
  : WaveformWidget :=
  if bool_decide (filepath = []) || negb (path_exists fs filepath) then self
  else if bool_decide (Some filepath = last_loaded_filepath self) then self
  else
    match wave_open fs filepath with
    | None => self
    | Some (framerate, num_channels, frames) =>
        let self := set_sample_rate framerate self in
        (* the samples, and [np.abs] of them *)
        let samples :=
          if num_channels =? 2 then
            match pair_means frames with
            | Some means => Some (means, Qabs <$> means)
            | None => None
            end
          else Some (inject_Z <$> frames, (λ z, inject_Z (abs_int16 z)) <$> frames) in
        match samples with
        | None => self
        | Some (audio, magnitudes) =>
            match np_max magnitudes with
            | None => self
            | Some peak =>
                let audio :=
                  if negb (Qeq_bool peak 0) then (λ x, float64 (x / peak)) <$> audio
                  else audio in
                set_last_loaded_filepath (Some filepath) (set_audio_data audio self)
            end
        end
    end.

(** [set_file(self, filepath)] *)
Definition set_file (fs : filesystem) (filepath : pystr) (self : WaveformWidget)
  : WaveformWidget :=
  load_audio fs filepath (set_audio_filepath (Some filepath) self).

End Waveform.

(** ** Concrete runs *)

Module Examples.

Definition cpu_voice : Models.voice_model :=
  {| Models.weights := []; Models.on_device := lit "cpu" |}.

(** A hub that serves nothing (it leaves its cache directory all the same),
    a pipeline that builds, voices that load. *)
Definition offline : Models.hub_world :=
  {| Models.hub_serves := λ _, false;
     Models.hub_path := λ _, [];
     Models.hub_leaves := λ _, [([], Dir); (lit "/huggingface", Dir)];
     Models.kpipeline_init_fails := false;
     Models.torch_load := λ _, Ok (Some cpu_voice) |}.

(** The pipeline is built, and the voice [af_bella] is on disk. *)
Definition ready : Models.state :=
  {| Models.fs := <[lit "voices/af_bella.pt" := File Blob]>
                    (<[lit "outputs/temp_audio" := Dir]> ∅);
     Models._pipeline := Some {| Models.device := lit "cpu"; Models.voices := ∅ |};
     Models.trace := [] |}.

Definition wrapper : TtsWrapper.KokoroTTSWrapper :=
  {| TtsWrapper.output_dir := lit "outputs";
     TtsWrapper.temp_dir := lit "outputs/temp_audio";
     TtsWrapper.split_pattern := lit "\n+";
     TtsWrapper.model_path := lit "kokoro-v1_0.pth";
     TtsWrapper.device := lit "cpu" |}.

Definition idle : TtsWrapper.state :=
  {| TtsWrapper.models := ready; TtsWrapper.last_synthesis_timestamp := None |}.

(** One segment with sound, one without. *)
Definition spoken : TtsWrapper.raw_item :=
  {| TtsWrapper.gs := lit "Hello world.";
     TtsWrapper.ps := lit "h@loU w3:ld";
     TtsWrapper.audio_tensor := Some [1 # 2; -1 # 4]%Q |}.
Definition silent : TtsWrapper.raw_item :=
  {| TtsWrapper.gs := lit "";
     TtsWrapper.ps := lit "";
     TtsWrapper.audio_tensor := None |}.

(** A call at 2024-01-01 12:00:00 whose pipeline yields [items] and then
    stops, on a disk whose audio writes fail or not. *)
Definition call (items : list TtsWrapper.raw_item) (disk_fails : bool)
  : TtsWrapper.world :=
  {| TtsWrapper.hub := offline;
     TtsWrapper.strftime := lit "20240101_120000";
     TtsWrapper.pipeline_call := λ _ _ _ _,
       {| TtsWrapper.yields := items; TtsWrapper.fault := None |};
     TtsWrapper.sf_write_fails := λ _ _, disk_fails;
     TtsWrapper.sf_write_leaves := λ _ _, None |}.

(** A record of an earlier synthesis. *)
Definition earlier : UiMain.GenerationRecord :=
  {| UiMain.timestamp := {| UiMain.float_repr := lit "1704100000.25" |};
     UiMain.chunks :=
       [ {| UiMain.graphemes := lit "Good morning.";
            UiMain.phonemes := lit "gUd mO:nIN";
            UiMain.filepath := lit "outputs/temp_audio/chunk_20240101_090640_0.wav" |} ];
     UiMain.combined := lit "outputs/temp_audio/combined_20240101_090640.wav" |}.

(** The window with [text] typed in and one record in the ledger. *)
Definition typed (text : pystr) : UiMain.system :=
  {| UiMain.ui :=
       {| UiMain.text_edit := text;
          UiMain.voice_combo := lit "af_bella";
          UiMain.speed_spin := 1;
          UiMain.synth_button_enabled := true;
          UiMain.status_message := None;
          UiMain.generation_label := UiMain.NotAvailable;
          UiMain.results_table := [];
          UiMain.waveform_file := None;
          UiMain.current_filepath := None;
          UiMain.synthesis_results := [earlier];
          UiMain.tts_wrapper := wrapper |};
     UiMain.engine := idle;
     UiMain.queue := [];
     UiMain.threads := [];
     UiMain.error_boxes := [] |}.

(** A worker's run around [call items disk_fails]. *)
Definition session (items : list TtsWrapper.raw_item) (disk_fails : bool)
  : UiMain.world :=
  {| UiMain.tts := call items disk_fails;
     UiMain.io := {| Persistence.open_r_fails := λ _, false;
                     Persistence.open_w_fails := λ _, disk_fails;
                     Persistence.write_stops := λ _, None |};
     UiMain.start_time := {| UiMain.float_repr := lit "1704110400.0" |};
     UiMain.stamp_time := {| UiMain.float_repr := lit "1704110401.5" |};
     UiMain.end_time := {| UiMain.float_repr := lit "1704110401.75" |};
     UiMain.show_error_fails := false;
     UiMain.remove_fails := λ _, false |}.

(** The record of the synthesis of one segment with sound in that run. *)
Definition recorded : UiMain.GenerationRecord :=
  {| UiMain.timestamp := {| UiMain.float_repr := lit "1704110401.5" |};
     UiMain.chunks :=
       [ {| UiMain.graphemes := lit "Hello world.";
            UiMain.phonemes := lit "h@loU w3:ld";
            UiMain.filepath := lit "outputs/temp_audio/chunk_20240101_120000_0.wav" |} ];
     UiMain.combined := lit "outputs/temp_audio/combined_20240101_120000.wav" |}.

Definition hello_job : UiMain.job :=
  {| UiMain.job_text := lit "Hello world.";
     UiMain.job_speed := 1;
     UiMain.job_voice := lit "af_bella" |}.

End Examples.

(** ** More concrete runs *)

Module Cases.

(** A clock at one million seconds, every file last written at second zero;
    only the file [locked] cannot be removed. *)
Definition late (locked : pystr) : TempCleanup.os_world :=
  {| TempCleanup.time_time := 1000000;
     TempCleanup.getmtime := λ _, 0%Q;
     TempCleanup.remove_fails := λ p, bool_decide (p = locked) |}.

(** A clock at the float 604800.000000001, every file last written at the
    float 1e-9; every file can be removed. *)
Definition week_old : TempCleanup.os_world :=
  {| TempCleanup.time_time := 5195192441241609 # 8589934592;
     TempCleanup.getmtime := λ _, (4835703278458517 # 4835703278458516698824704)%Q;
     TempCleanup.remove_fails := λ _, false |}.

(** A temp directory with two old chunk files and a combined file. *)
Definition littered : filesystem :=
  <[lit "temp_audio" := Dir]>
    (<[lit "temp_audio/chunk_old.wav" := File Blob]>
       (<[lit "temp_audio/chunk_locked.wav" := File Blob]>
          (<[lit "temp_audio/combined_x.wav" := File Blob]> ∅))).

(** The same once the reaper has run under [late "temp_audio/chunk_locked.wav"]. *)
Definition swept : filesystem :=
  <[lit "temp_audio" := Dir]>
    (<[lit "temp_audio/chunk_locked.wav" := File Blob]>
       (<[lit "temp_audio/combined_x.wav" := File Blob]> ∅)).

(** A hub that serves whatever it is asked for, returns absolute paths, and
    keeps a lock file per download beside its [.gitignore]. *)
Definition online : Models.hub_world :=
  {| Models.hub_serves := λ _, true;
     Models.hub_path := λ p, lit "/home/user/kokoro/" ++ canon p;
     Models.hub_leaves := λ filename,
       [ ([], Dir);
         (lit "/huggingface", Dir);
         (lit "/huggingface/.gitignore", File Blob);
         (lit "/huggingface/download", Dir);
         (lit "/huggingface/download/" ++ filename ++ lit ".lock", File Blob) ];
     Models.kpipeline_init_fails := false;
     Models.torch_load := λ _, Ok (Some Examples.cpu_voice) |}.

(** A fresh install: no file, no pipeline. *)
Definition bare : Models.state :=
  {| Models.fs := ∅; Models._pipeline := None; Models.trace := [] |}.

(** The model, its config and one voice on disk; no pipeline yet. *)
Definition installed : Models.state :=
  {| Models.fs :=
       <[lit "kokoro-v1_0.pth" := File Blob]>
         (<[lit "config.json" := File Blob]>
            (<[lit "voices" := Dir]>
               (<[lit "voices/af_bella.pt" := File Blob]> ∅)));
     Models._pipeline := None;
     Models.trace := [] |}.

(** A sound library that writes WAV files only, and leaves the file it
    could not write. *)
Definition wav_only : TtsWrapper.world :=
  {| TtsWrapper.hub := Examples.offline;
     TtsWrapper.strftime := lit "20240101_120000";
     TtsWrapper.pipeline_call := λ _ _ _ _,
       {| TtsWrapper.yields := []; TtsWrapper.fault := None |};
     TtsWrapper.sf_write_fails := λ _ format, bool_decide (format ≠ lit "WAV");
     TtsWrapper.sf_write_leaves := λ _ _, Some Blob |}.

(** A pipeline that yields [items] and then breaks off. *)
Definition breaking (items : list TtsWrapper.raw_item) : TtsWrapper.world :=
  {| TtsWrapper.hub := Examples.offline;
     TtsWrapper.strftime := lit "20240101_120000";
     TtsWrapper.pipeline_call := λ _ _ _ _,
       {| TtsWrapper.yields := items;
          TtsWrapper.fault := Some (RuntimeError (lit "espeak")) |};
     TtsWrapper.sf_write_fails := λ _ _, false;
     TtsWrapper.sf_write_leaves := λ _ _, None |}.

(** A disk on which every file opens and every write gets to its end. *)
Definition disk_ok : Persistence.io_world :=
  {| Persistence.open_r_fails := λ _, false;
     Persistence.open_w_fails := λ _, false;
     Persistence.write_stops := λ _, None |}.

(** A disk on which no file opens for writing. *)
Definition read_only : Persistence.io_world :=
  {| Persistence.open_r_fails := λ _, false;
     Persistence.open_w_fails := λ _, true;
     Persistence.write_stops := λ _, None |}.

(** A disk that is full once forty characters of a file are written. *)
Definition disk_full : Persistence.io_world :=
  {| Persistence.open_r_fails := λ _, false;
     Persistence.open_w_fails := λ _, false;
     Persistence.write_stops := λ _, Some 40%nat |}.

(** A record whose texts hold an accented letter, a quote, a line feed and
    a character beyond the basic plane. *)
Definition accented : UiMain.GenerationRecord :=
  {| UiMain.timestamp := {| UiMain.float_repr := lit "1704100000.25" |};
     UiMain.chunks :=
       [ {| UiMain.graphemes := [233; 34; 10; 128512]%N;
            UiMain.phonemes := [601; 720]%N;
            UiMain.filepath := lit "outputs/temp_audio/chunk_20240101_090640_0.wav" |} ];
     UiMain.combined := lit "outputs/temp_audio/combined_20240101_090640.wav" |}.

(** The window once a worker has synthesized one segment with sound. *)
Definition after_hello : UiMain.system :=
  (UiMain.run_synthesis (Examples.session [Examples.spoken] false)
     Examples.hello_job (Examples.typed (lit "Hello world."))).2.


(** A disk with an audio file of two channels, of another origin: two
    frames at 44100 Hz. *)
Definition with_stereo : filesystem :=
  <[lit "imported.wav" := File (WavFileN 2 44100 [100; 300; -200; 0])]> ∅.

End Cases.

(** * The vocabulary of the properties *)

(** ** Paths *)

(** An entry name the directory listing can hold: not empty, no separator. *)
Definition entry_name (n : pystr) : Prop := n ≠ [] ∧ SLASH ∉ n.

(** A directory prefix: empty, or ending with the separator. *)
Definition dirlike (x : pystr) : Prop := x = [] ∨ ∃ y, x = y ++ [SLASH].

(** ** The reaper *)

(** The path [q] is the one of a listed entry [n] that is expired on [fs] and
    that the operating system lets go. *)
Definition reaped (w : TempCleanup.os_world) (temp_dir : pystr) (retention_days : Q)
    (fs : filesystem) (q : pystr) (n : pystr) : bool :=
  bool_decide (q = canon (path_join temp_dir n))
  && TempCleanup.expired w fs temp_dir retention_days n
  && negb (TempCleanup.remove_fails w (path_join temp_dir n)).

(** ** The store *)

(** A stretch of the trace in which every fetch of an artifact comes right
    after an existence test of that artifact that found nothing. *)
Inductive guarded : list Models.event → Prop :=
  | guarded_nil : guarded []
  | guarded_test a found tr : guarded tr → guarded (Models.EvExists a found :: tr)
  | guarded_fetch a tr :
      guarded tr → guarded (Models.EvExists a false :: Models.EvFetch a :: tr).

(** [st'] comes after [st] in a run that fetches only what it has just found
    missing, fetches nothing that [st] has on disk, and loses no file. *)
Definition extends (st st' : Models.state) : Prop :=
  ∃ new,
    Models.trace st' = Models.trace st ++ new
    ∧ guarded new
    ∧ (∀ a, Models.EvFetch a ∈ new → Models.fs st !! a = None)
    ∧ Models.fs st ⊆ Models.fs st'.

(** A computation all of whose runs are of that kind. *)
Definition checked {A} (m : M Models.state A) : Prop := ∀ st, extends st (m st).2.

(** The operations of the store that may go to the network. *)
Inductive ensure_op : Type :=
  | DownloadFile (repo_id filename local_dir : pystr)
  | DownloadVoiceFiles (force_download : bool)
  | BuildModel (model_path device : pystr)
  | LoadVoice (voice_name device : pystr).

(** The state an operation leaves, whether it returns or raises. *)
Definition after (w : Models.hub_world) (op : ensure_op) (st : Models.state)
  : Models.state :=
  match op with
  | DownloadFile repo_id filename local_dir =>
      (Models.download_file w repo_id filename local_dir st).2
  | DownloadVoiceFiles force_download =>
      (Models.download_voice_files w force_download st).2
  | BuildModel model_path device => (Models.build_model w model_path device st).2
  | LoadVoice voice_name device => (Models.load_voice w voice_name device st).2
  end.

(** ** The synthesis engine *)

(** The state after [save_audio] wrote [audio] at [p]. *)
Definition saved (audio : TtsWrapper.tensor) (p : pystr) (st : TtsWrapper.state)
  : TtsWrapper.state :=
  TtsWrapper.set_models
    (Models.set_fs (λ fs, fs_write fs p (WavFile 24000 (TtsWrapper.to_int16 audio)))) st.

(** The raw synthesis sequence of a call of [synthesize]. *)
Definition raw_sequence (w : TtsWrapper.world) (self : TtsWrapper.KokoroTTSWrapper)
    (text : pystr) (speed : Q) (selected_voice : pystr) : TtsWrapper.generator :=
  TtsWrapper.pipeline_call w text (lit "voices/" ++ selected_voice ++ lit ".pt") speed
    (TtsWrapper.split_pattern self).

(** The state in which the loop of [synthesize] starts, the voice loaded. *)
Definition voice_loaded (w : TtsWrapper.world) (m' : Models.state) : TtsWrapper.state :=
  {| TtsWrapper.models := m';
     TtsWrapper.last_synthesis_timestamp := Some (TtsWrapper.strftime w) |}.

(** ** The orchestrator *)

(** A computation that only adds to the queue of calls. *)
Definition appends {A} (m : M UiMain.system A) : Prop :=
  ∀ s, ∃ posted, UiMain.queue (m s).2 = UiMain.queue s ++ posted.

(** The call of the engine a worker makes, from system state [s]. *)
Definition engine_call (w : UiMain.world) (j : UiMain.job) (s : UiMain.system)
  : result (list TtsWrapper.chunk * option pystr) * TtsWrapper.state :=
  TtsWrapper.synthesize (UiMain.tts w) (UiMain.tts_wrapper (UiMain.ui s))
    (UiMain.job_text j) (UiMain.job_speed j) (UiMain.job_voice j) (UiMain.engine s).

(** ** The text of the ledger file *)

(** The surrogate pair of a code point beyond the basic plane. *)
Definition high_surrogate (c : N) : N :=
  N.lor 55296 (N.land (N.shiftr (c - 65536) 10) 1023).
Definition low_surrogate (c : N) : N := N.lor 56320 (N.land (c - 65536) 1023).

(** What the scanner makes of the rest once it has read one character. *)
Definition then_scan (c : N) (r : pystr) : option (pystr * pystr) :=
  match Json.scan_string r with
  | Some (str, r') => Some (c :: str, r')
  | None => None
  end.

(** The text after a number literal does not go on like a number. *)
Definition delimited (rest : pystr) : Prop :=
  match rest with
  | [] => True
  | c :: _ => Json.number_char c = false
  end.

(** The characters a written value can begin with. *)
Definition opener (c : N) : Prop :=
  Json.is_ws c = false ∧ c ≠ 93%N ∧ c ≠ 125%N.

(** The pieces of the text of a list and of a dict. *)
Definition separator (level : nat) : pystr := 44%N :: Json.newline_indent level.
Definition items_text (level : nat) (items : list Json.value) : pystr :=
  Json.join (separator level) (Json.dumps_at level <$> items).
Definition member_text (level : nat) (kv : pystr * Json.value) : pystr :=
  Json.encode_string kv.1 ++ 58%N :: 32%N :: Json.dumps_at level kv.2.
Definition members_text (level : nat) (members : list (pystr * Json.value)) : pystr :=
  Json.join (separator level) (member_text level <$> members).

(** [v], written at any depth and followed by any text that does not go on
    like a number, is read back as [v], and the reading stops at that text. *)
Definition reads_back (v : Json.value) : Prop :=
  ∀ (level : nat) (rest : pystr) (fuel : nat),
    Json.wf_value v = true → delimited rest →
    (length (Json.dumps_at level v) ≤ fuel)%nat →
    Json.parse_value fuel (Json.dumps_at level v ++ rest) = Some (v, rest).

(** ** Proof steps *)

Create HintDb store.

(** Going through monadic code with the lemmas for its bind and its
    try/except, closing the leaves with the hints of the store. *)
Ltac run_steps bind_lemma try_lemma :=
  repeat first
    [ solve [auto with store]
    | apply bind_lemma; [|intros ?]
    | apply try_lemma; [|intros ?]
    | match goal with
      | |- _ (if ?b then _ else _) => destruct b
      | |- _ (match ?x with _ => _ end) => destruct x
      end ].

(** Case analysis on the comparisons of code points in the goal. *)
Ltac n_cases :=
  repeat match goal with
    | |- context [N.eqb ?a ?b] => destruct (N.eqb_spec a b)
    | |- context [N.leb ?a ?b] => destruct (N.leb_spec a b)
    | |- context [N.ltb ?a ?b] => destruct (N.ltb_spec a b)
    end;
  cbn [andb orb negb]; try lia; try done.


(** ** More vocabulary *)

(** A character of a plain ASCII text file: printable, or the line feed. *)
Definition plain_ascii (c : N) : bool :=
  ((c =? 10) || ((32 <=? c) && (c <=? 126)))%N.

(** Every number in [obj] is written with the characters of a number
    literal (as the [repr] of a finite float is). *)
Fixpoint plain_numbers (obj : Json.value) : bool :=
  match obj with
  | Json.Number literal => forallb Json.number_char literal
  | Json.Array items => forallb plain_numbers items
  | Json.Object members => forallb (λ kv, plain_numbers kv.2) members
  | _ => true
  end.

(** ** More on the store *)

(** A computation of the store that leaves the cached pipeline alone. *)
Definition keeps_pipeline {A} (m : M Models.state A) : Prop :=
  ∀ st, Models._pipeline (m st).2 = Models._pipeline st.

(** A computation of the store that creates or changes no node outside
    [area]. *)
Definition writes_within (area : pystr → Prop) {A} (m : M Models.state A) : Prop :=
  ∀ st q, ¬ area q → Models.fs (m st).2 !! q = Models.fs st !! q.

(** The nodes the store may write: the model, its config, the voices
    directory, the voice files of [VOICE_FILES], and what the hub library
    keeps below [.cache]. *)
Definition store_area (q : pystr) : Prop :=
  q = lit "kokoro-v1_0.pth" ∨ q = lit "config.json" ∨ q = lit "voices"
  ∨ (∃ voice_file, voice_file ∈ Models.VOICE_FILES ∧ q = lit "voices/" ++ voice_file)
  ∨ startswith q (lit ".cache") = true.

(** Two states of the store with the same files and the same pipeline (the
    traces may differ). *)
Definition same_disk (st1 st2 : Models.state) : Prop :=
  Models.fs st1 = Models.fs st2 ∧ Models._pipeline st1 = Models._pipeline st2.

(** A stretch of the trace without a fetch. *)
Definition fetches_nothing (new : list Models.event) : Prop :=
  ∀ a, Models.EvFetch a ∉ new.

(** The path [load_voice] looks for the voice [voice_name] at. *)
Definition voice_path_of (voice_name : pystr) : pystr :=
  lit "voices/" ++ Models.remove_pt voice_name ++ lit ".pt".

Create HintDb frame.
Create HintDb pipe.

(** ** More on the synthesis engine *)

(** The state after a write at [p] that raised: a file may have been left
    there. *)
Definition spoilt (w : TtsWrapper.world) (p format : pystr) (st : TtsWrapper.state)
  : TtsWrapper.state :=
  match TtsWrapper.sf_write_leaves w p format with
  | Some broken =>
      TtsWrapper.set_models (Models.set_fs (λ fs, fs_write fs p broken)) st
  | None => st
  end.

(** Audio whose samples are below 65536 in size: their products with 32767
    stay below [2 ^ 31], where the cast to [int16] is the same on every
    machine. (Audio as the pipeline gives it lies in [-1, 1].) *)
Definition castable (audio : TtsWrapper.tensor) : Prop :=
  Forall (λ x, (Qabs x < 65536)%Q) audio.

(** A run of the raw sequence all of whose audio is of that kind. *)
Definition castable_sequence (g : TtsWrapper.generator) : Prop :=
  Forall (λ item, from_option castable True (TtsWrapper.audio_tensor item))
    (TtsWrapper.yields g).

(** The two log files of the program. *)
Definition log_path (q : pystr) : Prop :=
  q = canon TtsWrapper.log_file ∨ q = canon UiMain.log_file.

(** The chunk the loop of [synthesize] makes of the segment at position
    [chunk_index] of the raw sequence, if the segment carries audio. *)
Definition chunk_of (self : TtsWrapper.KokoroTTSWrapper) (timestamp : pystr)
    (chunk_index : nat) (item : TtsWrapper.raw_item) : option TtsWrapper.chunk :=
  match TtsWrapper.audio_tensor item with
  | Some audio =>
      Some (TtsWrapper.gs item, TtsWrapper.ps item, audio,
            path_join (TtsWrapper.temp_dir self)
              (TtsWrapper.chunk_filename timestamp chunk_index))
  | None => None
  end.

(** The chunks of the segments of [items], the first of which has position
    [start] in the raw sequence. *)
Definition chunks_from (self : TtsWrapper.KokoroTTSWrapper) (timestamp : pystr)
    (start : nat) (items : list TtsWrapper.raw_item) : list TtsWrapper.chunk :=
  omap id (imap (λ k, chunk_of self timestamp (start + k)) items).

Definition chunk_audio (c : TtsWrapper.chunk) : TtsWrapper.tensor := c.1.2.
Definition chunk_path (c : TtsWrapper.chunk) : pystr := c.2.

(** The file system once the file of a chunk is written. *)
Definition write_chunk (fs : filesystem) (c : TtsWrapper.chunk) : filesystem :=
  fs_write fs (chunk_path c) (WavFile 24000 (TtsWrapper.to_int16 (chunk_audio c))).

(** ** More on the orchestrator *)

(** The operations of the window that change the ledger. *)
Inductive ledger_op : Type :=
  | Synthesis (j : UiMain.job)      (* a worker started by Synthesize *)
  | ClearTempFiles                  (* the button Clear Temp Files *)
  | ClearOldResults.                (* the button Clear Old Results *)

Definition run_ledger_op (w : UiMain.world) (op : ledger_op) : M UiMain.system () :=
  match op with
  | Synthesis j => UiMain.run_synthesis w j
  | ClearTempFiles => UiMain.clear_temp_files w
  | ClearOldResults => UiMain.clear_old_results w
  end.

(** The ledger of a state, and what its ledger file reads as. *)
Definition ledger (s : UiMain.system) : list UiMain.GenerationRecord :=
  UiMain.synthesis_results (UiMain.ui s).

Definition ledger_on_disk (w : UiMain.world) (s : UiMain.system) : Json.value :=
  Persistence.load_generations (UiMain.io w) (UiMain.files s) UiMain.PERSIST_FILE.

(** What the widgets of the window show (the rest of a [window] is plain
    data of the Python object). *)
Definition widgets (u : UiMain.window) :=
  (UiMain.text_edit u, UiMain.voice_combo u, UiMain.speed_spin u,
   UiMain.synth_button_enabled u, UiMain.status_message u,
   UiMain.generation_label u, UiMain.results_table u, UiMain.waveform_file u).

(** * Properties *)

(** ** Paths and listings *)

Lemma startswith_app (p s : pystr) : startswith (p ++ s) p = true.
Proof.
  induction p as [|c p IH]; simpl; [done|].
  rewrite bool_decide_eq_true_2 by done. exact IH.
Qed.

Lemma strip_prefix_app (p s : pystr) : strip_prefix p (p ++ s) = Some s.
Proof.
  induction p as [|c p IH]; simpl; [done|].
  rewrite bool_decide_eq_true_2 by done. exact IH.
Qed.

Lemma strip_prefix_Some (p s n : pystr) : strip_prefix p s = Some n → s = p ++ n.
Proof.
  revert s. induction p as [|c p IH]; intros [|d s]; simpl; try congruence.
  case_bool_decide; [|done]. intros Hs. subst d. f_equal. by apply IH.
Qed.

Lemma entry_not_absolute (n : pystr) : entry_name n → startswith n [SLASH] = false.
Proof.
  intros [Hne Hs]. destruct n as [|c n]; [done|]. simpl.
  rewrite andb_true_r. apply bool_decide_eq_false. intros <-.
  apply Hs. by left.
Qed.

Lemma path_join_entry (d n : pystr) : entry_name n → path_join d n = dir_prefix d ++ n.
Proof.
  intros Hn. unfold path_join, dir_prefix. rewrite entry_not_absolute by done.
  destruct (bool_decide (d = []) || endswith d [SLASH]); [done|].
  by rewrite <- app_assoc.
Qed.

Lemma endswith_slash (d : pystr) : endswith d [SLASH] = true → ∃ y, d = y ++ [SLASH].
Proof.
  unfold endswith. destruct (reverse d) as [|c r] eqn:E; [done|].
  cbn. rewrite andb_true_r. intros Hc. apply bool_decide_eq_true in Hc. subst c.
  exists (reverse r). apply (inj reverse). by rewrite reverse_app, reverse_involutive.
Qed.

Lemma dir_prefix_dirlike (d : pystr) : dirlike (dir_prefix d).
Proof.
  unfold dir_prefix. destruct (bool_decide (d = [])) eqn:E1; cbn [orb].
  - left. by apply bool_decide_eq_true in E1.
  - destruct (endswith d [SLASH]) eqn:E2; right; [by apply endswith_slash|eauto].
Qed.

Lemma dirlike_tail2 (c1 c2 : N) (x : pystr) : dirlike (c1 :: c2 :: x) → dirlike x.
Proof.
  intros [?|[y Hy]]; [done|]. destruct x as [|c x]; [by left|]. right.
  destruct y as [|a [|b y]]; try done. injection Hy as -> -> ->. eauto.
Qed.

Lemma canon_entry (n : pystr) : SLASH ∉ n → canon n = n.
Proof.
  intros Hs. destruct n as [|c1 [|c2 n]]; cbn; try done.
  case_bool_decide; [|done]. case_bool_decide; [|done]. subst.
  exfalso. apply Hs. right. by left.
Qed.

(** Canonicalisation only looks at the directory part of an entry's path. *)
Lemma canon_app_entry (x n : pystr) :
  dirlike x → SLASH ∉ n → canon (x ++ n) = canon x ++ n.
Proof.
  remember (length x) as k eqn:Hk. revert x Hk.
  induction k as [k IH] using lt_wf_ind. intros x Hk Hx Hn.
  destruct x as [|c1 [|c2 x]].
  - by apply canon_entry.
  - destruct Hx as [?|[y Hy]]; [done|].
    destruct y as [|a y]; [|by destruct y]. injection Hy as ->.
    cbn. destruct n as [|c n]; [done|]. by rewrite bool_decide_eq_false_2.
  - cbn. destruct (bool_decide (c1 = DOT) && bool_decide (c2 = SLASH)); [|done].
    apply (IH (length x)); [subst k; cbn; lia|done| |done].
    by eapply dirlike_tail2.
Qed.

(** The canonical path of an entry: the canonical directory prefix, then the
    name. *)
Lemma canon_path_join (d n : pystr) :
  entry_name n → canon (path_join d n) = canon (dir_prefix d) ++ n.
Proof.
  intros Hn. rewrite path_join_entry by done.
  apply canon_app_entry; [apply dir_prefix_dirlike|apply Hn].
Qed.

Lemma child_name_Some (d p n : pystr) :
  child_name d p = Some n ↔ entry_name n ∧ p = canon (path_join d n).
Proof.
  unfold child_name. split.
  - destruct (strip_prefix (canon (dir_prefix d)) p) as [m|] eqn:E; [|done].
    destruct (bool_decide (m ≠ []) && negb (bool_decide (SLASH ∈ m))) eqn:B; [|done].
    intros [= ->]. apply andb_true_iff in B as [B1 B2].
    apply bool_decide_eq_true in B1. apply negb_true_iff, bool_decide_eq_false in B2.
    assert (entry_name n) by done. split; [done|].
    rewrite canon_path_join by done. by apply strip_prefix_Some.
  - intros [Hn ->]. rewrite canon_path_join by done.
    rewrite strip_prefix_app. destruct Hn as [H1 H2].
    rewrite bool_decide_eq_true_2 by done.
    by rewrite bool_decide_eq_false_2 by done.
Qed.

(** What [os.listdir] lists: the entry names under which the directory
    holds a node. *)
Lemma listdir_spec (fs : filesystem) (d : pystr) (names : list pystr) (n : pystr) :
  listdir fs d = Ok names →
  n ∈ names ↔ entry_name n ∧ is_Some (fs_node fs (path_join d n)).
Proof.
  unfold listdir. destruct (fs_node fs d) as [[|?]|]; try done. intros [= <-].
  rewrite list_elem_of_omap. split.
  - intros (p & Hp & Hc). apply child_name_Some in Hc as [Hn Hpe].
    split; [done|]. apply list_elem_of_fmap in Hp as ([q x] & Hq1 & Hq).
    cbn in Hq1. subst q. apply elem_of_map_to_list in Hq.
    unfold fs_node. rewrite <- Hpe. by exists x.
  - intros [Hn [x Hx]]. exists (canon (path_join d n)). split.
    + apply list_elem_of_fmap. exists (canon (path_join d n), x). split; [done|].
      by apply elem_of_map_to_list.
    + by apply child_name_Some.
Qed.

Lemma listdir_returns (fs : filesystem) (d : pystr) :
  isdir fs d = true → ∃ names, listdir fs d = Ok names.
Proof.
  unfold isdir, listdir. destruct (fs_node fs d) as [[|?]|]; try done. eauto.
Qed.

(** ** The reaper (temp_cleanup.py) *)

Lemma path_join_entry_inj (d n m : pystr) :
  entry_name n → entry_name m →
  canon (path_join d n) = canon (path_join d m) → n = m.
Proof.
  intros Hn Hm. rewrite !canon_path_join by done. apply app_inv_head.
Qed.

Section Reaper.
Import TempCleanup.

Variable w : os_world.
Variable temp_dir : pystr.
Variable retention_days : Q.

Local Abbreviation step :=
  (cleanup_step w temp_dir (time_time w) (retention_days * 86400)%Q).
Local Abbreviation reaped := (reaped w temp_dir retention_days).

Lemma cleanup_step_cases (fs : filesystem) (log : list pystr) (n : pystr) :
  let p := path_join temp_dir n in
  step (fs, log) n =
    if expired w fs temp_dir retention_days n
    then if remove_fails w p then (fs, log ++ [p]) else (delete (canon p) fs, log)
    else (fs, log).
Proof.
  cbv zeta. unfold step, cleanup_step, expired, file_age, os_remove, isfile.
  cbn [fst snd].
  destruct (fs_node fs (path_join temp_dir n)) as [[|data]|] eqn:E; cbn [andb]; try done.
  destruct (startswith n CHUNK_PREFIX); cbn [andb]; [|done].
  destruct (Qgt_bool _ _); [|done].
  by destruct (remove_fails w _).
Qed.

Lemma expired_delete_ne (fs : filesystem) (p : pystr) (n : pystr) :
  p ≠ canon (path_join temp_dir n) →
  expired w (delete p fs) temp_dir retention_days n
  = expired w fs temp_dir retention_days n.
Proof.
  intros Hne. unfold expired, isfile, fs_node. by rewrite lookup_delete_ne.
Qed.

(** The file system the loop leaves: the reaped paths are gone, every other
    path holds what it held. *)
Lemma cleanup_fold_lookup (names : list pystr) (fs : filesystem)
    (log : list pystr) (q : pystr) :
  (fold_left step names (fs, log)).1 !! q
  = if existsb (reaped fs q) names then None else fs !! q.
Proof.
  revert fs log. induction names as [|n names IH]; intros fs log; [done|].
  simpl. rewrite cleanup_step_cases. unfold reaped at 1.
  destruct (expired w fs temp_dir retention_days n) eqn:Ex; simpl;
    [|rewrite andb_false_r; simpl; apply IH].
  destruct (remove_fails w (path_join temp_dir n)) eqn:Rf; simpl;
    [rewrite andb_false_r; simpl; apply IH|].
  rewrite IH, andb_true_r. case_bool_decide as Hq; simpl.
  - subst q. rewrite lookup_delete_eq. by destruct (existsb _ _).
  - rewrite lookup_delete_ne by done.
    replace (existsb (reaped (delete (canon (path_join temp_dir n)) fs) q) names)
      with (existsb (reaped fs q) names); [done|].
    clear IH. induction names as [|m names IHn]; [done|]. simpl.
    rewrite IHn. f_equal. unfold reaped. case_bool_decide as Hm; [|done]. simpl.
    rewrite expired_delete_ne; [done|]. by subst q.
Qed.

(** The removal errors the loop prints: every expired entry whose removal
    the operating system refuses is among them. *)
Lemma cleanup_fold_log (names : list pystr) (fs : filesystem)
    (log : list pystr) (n : pystr) :
  Forall entry_name names →
  n ∈ names →
  expired w fs temp_dir retention_days n = true →
  remove_fails w (path_join temp_dir n) = true →
  path_join temp_dir n ∈ (fold_left step names (fs, log)).2.
Proof.
  assert (Hmono : ∀ names fs log p,
            p ∈ log → p ∈ (fold_left step names (fs, log)).2).
  { clear. intros names. induction names as [|m names IH]; intros fs log p Hp; [done|].
    simpl. rewrite cleanup_step_cases.
    destruct (expired _ _ _ _ _); [|by apply IH].
    destruct (remove_fails _ _); apply IH; [|done].
    apply elem_of_app. by left. }
  revert fs log. induction names as [|m names IH]; intros fs log Hent Hin Hex Hrf.
  { by apply elem_of_nil in Hin. }
  apply Forall_cons in Hent as [Hm Hent].
  simpl. rewrite cleanup_step_cases.
  apply elem_of_cons in Hin as [->|Hin].
  - rewrite Hex, Hrf. apply Hmono, elem_of_app. right. by left.
  - destruct (expired w fs temp_dir retention_days m) eqn:Em; [|by apply IH].
    destruct (remove_fails w (path_join temp_dir m)) eqn:Rm; [by apply IH|].
    apply IH; [done..| |done].
    rewrite expired_delete_ne; [done|]. intros Heq.
    apply path_join_entry_inj in Heq; [congruence|done|].
    eapply Forall_forall in Hent; [exact Hent|done].
Qed.

End Reaper.

Lemma Qgt_bool_true (a b : Q) : TempCleanup.Qgt_bool a b = true ↔ (b < a)%Q.
Proof.
  unfold TempCleanup.Qgt_bool. rewrite negb_true_iff. split.
  - intros H. apply Qnot_le_lt. intros Hle. apply Qle_bool_iff in Hle. congruence.
  - intros H. destruct (Qle_bool a b) eqn:E; [|done].
    apply Qle_bool_iff in E. by apply Qlt_not_le in H.
Qed.

Lemma Qgt_bool_false (a b : Q) : TempCleanup.Qgt_bool a b = false ↔ ¬ (b < a)%Q.
Proof.
  rewrite <- Qgt_bool_true. by destruct (TempCleanup.Qgt_bool a b).
Qed.


Section ReaperClaim.
Import TempCleanup.

Variable w : os_world.
Variable fs : filesystem.
Variable temp_dir : pystr.
Variable retention_days : Q.
Variable names : list pystr.
Hypothesis Hlist : listdir fs temp_dir = Ok names.

Lemma cleanup_temp_files_listed :
  cleanup_temp_files w fs temp_dir retention_days =
    Ok (fold_left (cleanup_step w temp_dir (time_time w) (retention_days * 86400)%Q)
          names (fs, [])).
Proof.
  unfold cleanup_temp_files. rewrite Hlist.
  unfold path_exists, listdir in *.
  destruct (fs_node fs temp_dir) as [x|] eqn:E; [|done].
  rewrite bool_decide_eq_true_2 by eauto. done.
Qed.

(** Among the listed entries only [filename] has the path of [filename]. *)
Lemma reaped_listed (filename : pystr) :
  filename ∈ names →
  existsb (reaped w temp_dir retention_days fs (canon (path_join temp_dir filename))) names
  = expired w fs temp_dir retention_days filename
    && negb (remove_fails w (path_join temp_dir filename)).
Proof.
  intros Hin. apply (listdir_spec _ _ _ _ Hlist) in Hin as Hent. destruct Hent as [Hent _].
  destruct (expired w fs temp_dir retention_days filename
            && negb (remove_fails w (path_join temp_dir filename))) eqn:E.
  - apply existsb_exists. exists filename. split; [by apply list_elem_of_In|].
    unfold reaped. rewrite bool_decide_eq_true_2 by done.
    by rewrite <- andb_assoc.
  - apply not_true_iff_false. intros Hex.
    apply existsb_exists in Hex as (m & Hm & Hr).
    apply list_elem_of_In, (listdir_spec _ _ _ _ Hlist) in Hm as [Hm _].
    unfold reaped in Hr. rewrite <- andb_assoc in Hr.
    apply andb_true_iff in Hr as [Hq Hr]. apply bool_decide_eq_true in Hq.
    apply path_join_entry_inj in Hq; [|done..]. subst m. congruence.
Qed.

End ReaperClaim.

(** The same for any listed entry that is a file. *)
Lemma reaper_on_listed_file
    (w : TempCleanup.os_world) (fs : filesystem) (temp_dir : pystr)
    (retention_days : Q) (names : list pystr) (filename : pystr) :
  listdir fs temp_dir = Ok names →
  filename ∈ names →
  isfile fs (path_join temp_dir filename) = true →
  ∃ fs' errors,
    TempCleanup.cleanup_temp_files w fs temp_dir retention_days = Ok (fs', errors) ∧
    let p := path_join temp_dir filename in
    let threshold := (retention_days * 86400)%Q in
    let age := TempCleanup.file_age w temp_dir filename in
    let chunk := startswith filename TempCleanup.CHUNK_PREFIX = true in
    (chunk → (threshold < age)%Q →
       if TempCleanup.remove_fails w p
       then fs_node fs' p = fs_node fs p ∧ p ∈ errors
       else fs_node fs' p = None) ∧
    (chunk → ¬ (threshold < age)%Q → fs_node fs' p = fs_node fs p) ∧
    (¬ chunk → fs_node fs' p = fs_node fs p).
Proof.
  intros Hlist Hin Hfile.
  rewrite (cleanup_temp_files_listed w fs temp_dir retention_days names Hlist).
  destruct (fold_left _ names (fs, [])) as [fs' errors] eqn:Efold.
  exists fs', errors. split; [done|]. cbv zeta.
  assert (Hlook : fs_node fs' (path_join temp_dir filename)
            = if TempCleanup.expired w fs temp_dir retention_days filename
                 && negb (TempCleanup.remove_fails w (path_join temp_dir filename))
              then None else fs_node fs (path_join temp_dir filename)).
  { unfold fs_node. replace fs' with (fs', errors).1 by done. rewrite <- Efold.
    rewrite cleanup_fold_lookup. by erewrite reaped_listed. }
  unfold TempCleanup.expired in *. rewrite Hfile in *. cbn [andb] in *.
  split; [|split].
  - intros Hc Hage. apply Qgt_bool_true in Hage as Hage'.
    rewrite Hc, Hage' in Hlook. cbn [andb] in Hlook.
    destruct (TempCleanup.remove_fails w _) eqn:Rf; [|done]. split; [done|].
    replace errors with (fs', errors).2 by done. rewrite <- Efold.
    apply cleanup_fold_log; [|done| |done].
    { apply Forall_forall. intros m Hm.
      by apply (listdir_spec _ _ _ _ Hlist) in Hm as [? _]. }
    unfold TempCleanup.expired. by rewrite Hfile, Hc, Hage'.
  - intros Hc Hage. apply Qgt_bool_false in Hage.
    by rewrite Hc, Hage in Hlook.
  - intros Hc. apply not_true_is_false in Hc. by rewrite Hc in Hlook.
Qed.

(** C4, as the code has it. For every file [filename] in the temp directory:
    a [chunk_] file whose age exceeds the threshold is removed, unless
    [os.remove] raises for it, in which case the error is printed and the file
    stays; a [chunk_] file whose age does not exceed the threshold is retained;
    a file without the [chunk_] prefix is left as it is, whatever its age. The
    age is the one the reaper computes, the float [now - mtime]. *)
Theorem reaper_removes_expired_chunks
    (w : TempCleanup.os_world) (fs : filesystem) (temp_dir : pystr)
    (retention_days : Q) (filename : pystr) :
  isdir fs temp_dir = true →
  entry_name filename →
  isfile fs (path_join temp_dir filename) = true →
  ∃ fs' errors,
    TempCleanup.cleanup_temp_files w fs temp_dir retention_days = Ok (fs', errors) ∧
    let p := path_join temp_dir filename in
    let threshold := (retention_days * 86400)%Q in
    let age := TempCleanup.file_age w temp_dir filename in
    let chunk := startswith filename TempCleanup.CHUNK_PREFIX = true in
    (chunk → (threshold < age)%Q →
       if TempCleanup.remove_fails w p
       then fs_node fs' p = fs_node fs p ∧ p ∈ errors
       else fs_node fs' p = None) ∧
    (chunk → ¬ (threshold < age)%Q → fs_node fs' p = fs_node fs p) ∧
    (¬ chunk → fs_node fs' p = fs_node fs p).
Proof.
  intros Hdir Hname Hfile.
  destruct (listdir_returns fs temp_dir Hdir) as [names Hlist].
  apply (reaper_on_listed_file w fs temp_dir retention_days names filename Hlist);
    [|done].
  apply (listdir_spec _ _ _ _ Hlist). split; [done|].
  unfold isfile in Hfile. destruct (fs_node fs (path_join temp_dir filename)); [eauto|done].
Qed.

(** C4, as stated, fails where [os.remove] raises: a [chunk_] file a million
    seconds old outlives a reaper with a seven-day threshold, and its path is
    what the reaper prints. *)
Lemma reaper_keeps_chunk_it_cannot_remove :
  let w := {| TempCleanup.time_time := 1000000;
              TempCleanup.getmtime := λ _, 0%Q;
              TempCleanup.remove_fails := λ _, true |} in
  let fs : filesystem :=
    <[lit "temp_audio" := Dir]>
      (<[lit "temp_audio/chunk_x.wav" := File Blob]> ∅) in
  listdir fs (lit "temp_audio") = Ok [lit "chunk_x.wav"]
  ∧ startswith (lit "chunk_x.wav") TempCleanup.CHUNK_PREFIX = true
  ∧ (7 * 86400 < TempCleanup.file_age w (lit "temp_audio") (lit "chunk_x.wav"))%Q
  ∧ TempCleanup.cleanup_temp_files w fs (lit "temp_audio") 7
    = Ok (fs, [lit "temp_audio/chunk_x.wav"])
  ∧ fs_node fs (lit "temp_audio/chunk_x.wav") = Some (File Blob).
Proof. vm_compute. repeat split. Qed.

(** The age the reaper compares is a float: on a clock at 604800.000000001
    a file written at 1e-9 is more than seven days old by some 5e-11
    seconds, but the difference of the two floats is the float 604800, and
    the file is kept. *)
Example reaper_compares_the_rounded_age :
  let fs : filesystem :=
    <[lit "temp_audio" := Dir]>
      (<[lit "temp_audio/chunk_x.wav" := File Blob]> ∅) in
  (7 * 86400
   < TempCleanup.time_time Cases.week_old
     - TempCleanup.getmtime Cases.week_old (lit "temp_audio/chunk_x.wav"))%Q
  ∧ TempCleanup.file_age Cases.week_old (lit "temp_audio") (lit "chunk_x.wav") = 604800%Q
  ∧ TempCleanup.cleanup_temp_files Cases.week_old fs (lit "temp_audio") 7 = Ok (fs, []).
Proof. vm_compute. repeat split. Qed.

Lemma reaper_removes_expired_chunks_witness :
  let w := {| TempCleanup.time_time := 1000000;
              TempCleanup.getmtime := λ _, 0%Q;
              TempCleanup.remove_fails := λ _, false |} in
  let fs : filesystem :=
    <[lit "temp_audio" := Dir]>
      (<[lit "temp_audio/chunk_x.wav" := File Blob]> ∅) in
  ∃ fs' errors,
    TempCleanup.cleanup_temp_files w fs (lit "temp_audio") 7 = Ok (fs', errors)
    ∧ fs_node fs' (lit "temp_audio/chunk_x.wav") = None.
Proof.
  cbv zeta.
  destruct (reaper_removes_expired_chunks
              {| TempCleanup.time_time := 1000000;
                 TempCleanup.getmtime := λ _, 0%Q;
                 TempCleanup.remove_fails := λ _, false |}
              (<[lit "temp_audio" := Dir]>
                 (<[lit "temp_audio/chunk_x.wav" := File Blob]> ∅))
              (lit "temp_audio") 7 (lit "chunk_x.wav"))
    as (fs' & errors & Hrun & Hold & _).
  - vm_compute. reflexivity.
  - split; [discriminate|].
    apply (proj1 (bool_decide_eq_false _)). vm_compute. reflexivity.
  - vm_compute. reflexivity.
  - exists fs', errors. split; [exact Hrun|].
    apply Hold; vm_compute; reflexivity.
Defined.

(** ** Floating point *)

Section Rounding.
Local Open Scope Q_scope.

Lemma round_half_even_floor (q : Q) :
  (Qfloor q ≤ round_half_even q ≤ Qfloor q + 1)%Z.
Proof.
  unfold round_half_even.
  destruct (Qcompare _ _); [destruct (Z.even _)|..]; lia.
Qed.

Lemma round_half_even_ge (q : Q) (m : Z) :
  inject_Z m <= q → (m ≤ round_half_even q)%Z.
Proof.
  intros H. pose proof (round_half_even_floor q) as [Hf _].
  apply Qfloor_resp_le in H. rewrite Qfloor_Z in H. lia.
Qed.

Lemma round_half_even_le (q : Q) (m : Z) :
  q <= inject_Z m → (round_half_even q ≤ m)%Z.
Proof.
  intros H.
  assert (Hfl : (Qfloor q ≤ m)%Z).
  { apply Qfloor_resp_le in H. by rewrite Qfloor_Z in H. }
  unfold round_half_even.
  assert (Hup : 0 < q - inject_Z (Qfloor q) → (Qfloor q + 1 ≤ m)%Z).
  { intros Hpos.
    assert (inject_Z (Qfloor q) < inject_Z m) as Hlt by lra.
    rewrite <- Zlt_Qlt in Hlt. lia. }
  destruct (Qcompare_spec (q - inject_Z (Qfloor q)) (1 # 2)) as [He|Hl|Hg].
  - destruct (Z.even _); [done|]. apply Hup. lra.
  - done.
  - apply Hup. lra.
Qed.

Lemma round_half_even_near (q : Q) :
  Qabs (inject_Z (round_half_even q) - q) <= 1 # 2.
Proof.
  pose proof (Qfloor_le q) as Hlo. pose proof (Qlt_floor q) as Hhi.
  rewrite inject_Z_plus in Hhi.
  unfold round_half_even. apply Qabs_Qle_condition.
  destruct (Qcompare_spec (q - inject_Z (Qfloor q)) (1 # 2)) as [He|Hl|Hg].
  - destruct (Z.even _); [|rewrite inject_Z_plus]; change (inject_Z 1) with 1 in *; split; lra.
  - split; lra.
  - rewrite inject_Z_plus. change (inject_Z 1) with 1 in *. split; lra.
Qed.

Lemma pow2_pos (e : Z) : 0 < 2 ^ e.
Proof. by apply Qpower_0_lt. Qed.

(** Below a power of two with a negative exponent lie whole multiples. *)
Lemma pow2_neg_Z (e : Z) : (e ≤ 0)%Z → 2 ^ e * inject_Z (2 ^ (- e)) == 1.
Proof.
  intros He. rewrite Zpower_Qpower by lia. rewrite <- Qpower_plus by done.
  by replace (e + - e)%Z with 0%Z by lia.
Qed.

Lemma binade_le (q : Q) : ¬ q == 0 → 2 ^ binade q <= Qabs q.
Proof.
  intros Hq. unfold binade.
  set (n := Z.abs (Qnum q)). set (a := Z.log2 n). set (b := Z.log2 (Z.pos (Qden q))).
  destruct (Qle_bool (2 ^ (a - b)) (Qabs q)) eqn:E; [by apply Qle_bool_iff|].
  assert (Hn : (0 < n)%Z).
  { unfold n. destruct q as [[|?|?] ?]; [|done..]. by destruct Hq. }
  assert (Hab : Qabs q == inject_Z n / inject_Z (Z.pos (Qden q))).
  { destruct q as [m d]. unfold Qabs, n. cbn. by rewrite Qmake_Qdiv. }
  pose proof (Z.log2_spec n Hn) as [Ha _]. fold a in Ha.
  pose proof (Z.log2_spec (Z.pos (Qden q)) eq_refl) as [_ Hb]. fold b in Hb.
  pose proof (Z.log2_nonneg n) as Ha0. fold a in Ha0.
  pose proof (Z.log2_nonneg (Z.pos (Qden q))) as Hb0. fold b in Hb0.
  rewrite Hab. replace (a - b - 1)%Z with (a - Z.succ b)%Z by lia.
  rewrite Qpower_minus by done.
  change (2 ^ a / 2 ^ Z.succ b) with (inject_Z 2 ^ a / inject_Z 2 ^ Z.succ b).
  rewrite <- !Zpower_Qpower by lia.
  set (A := (2 ^ a)%Z) in *. set (B := (2 ^ Z.succ b)%Z) in *.
  set (D := Z.pos (Qden q)) in *.
  assert (HB : 0 < inject_Z B).
  { replace 0 with (inject_Z 0) by done. rewrite <- Zlt_Qlt. lia. }
  assert (HD : 0 < inject_Z D).
  { replace 0 with (inject_Z 0) by done. by rewrite <- Zlt_Qlt. }
  apply Qle_shift_div_r; [done|].
  apply Qle_trans with (inject_Z n); [by rewrite <- Zle_Qle|].
  setoid_replace (inject_Z n / inject_Z D * inject_Z B)
    with (inject_Z n * inject_Z B / inject_Z D) using relation Qeq by (field; lra).
  apply Qle_shift_div_l; [done|].
  rewrite <- !inject_Z_mult. rewrite <- Zle_Qle. nia.
Qed.

Lemma binade_lt (q : Q) (m : Z) : ¬ q == 0 → Qabs q < 2 ^ m → (binade q < m)%Z.
Proof.
  intros Hq Hm. apply (Qpower_lt_compat_l_inv 2); [|done].
  eapply Qle_lt_trans; [by apply binade_le|done].
Qed.

(** A float stays on the side of a whole number the exact value is on, as
    long as the whole numbers are floats there. *)
Lemma fround_le (prec emin : Z) (q : Q) (b : Z) :
  (¬ q == 0 → last_digit prec emin q ≤ 0)%Z →
  q <= inject_Z b → fround prec emin q <= inject_Z b.
Proof.
  intros He Hb. unfold fround.
  destruct (Qeq_bool q 0) eqn:E.
  { apply Qeq_bool_eq in E. lra. }
  apply Qeq_bool_neq in E. specialize (He E).
  set (e := last_digit prec emin q) in *. rewrite Qred_correct.
  pose proof (pow2_pos e) as Hp. pose proof (pow2_neg_Z e He) as Hinv.
  set (P := 2 ^ e) in *. set (P' := (2 ^ (- e))%Z) in *.
  assert (Hs : q / P <= inject_Z (b * P')).
  { rewrite inject_Z_mult. apply Qle_shift_div_r; [done|].
    setoid_replace (inject_Z b * inject_Z P' * P) with (inject_Z b * (P * inject_Z P'))
      using relation Qeq by ring.
    rewrite Hinv. lra. }
  apply round_half_even_le in Hs. rewrite Zle_Qle, inject_Z_mult in Hs.
  apply (Qmult_le_compat_r _ _ P) in Hs; [|lra].
  setoid_replace (inject_Z b * inject_Z P' * P) with (inject_Z b * (P * inject_Z P'))
    using relation Qeq in Hs by ring.
  rewrite Hinv in Hs. lra.
Qed.

Lemma fround_ge (prec emin : Z) (q : Q) (b : Z) :
  (¬ q == 0 → last_digit prec emin q ≤ 0)%Z →
  inject_Z b <= q → inject_Z b <= fround prec emin q.
Proof.
  intros He Hb. unfold fround.
  destruct (Qeq_bool q 0) eqn:E.
  { apply Qeq_bool_eq in E. lra. }
  apply Qeq_bool_neq in E. specialize (He E).
  set (e := last_digit prec emin q) in *. rewrite Qred_correct.
  pose proof (pow2_pos e) as Hp. pose proof (pow2_neg_Z e He) as Hinv.
  set (P := 2 ^ e) in *. set (P' := (2 ^ (- e))%Z) in *.
  assert (Hs : inject_Z (b * P') <= q / P).
  { rewrite inject_Z_mult. apply Qle_shift_div_l; [done|].
    setoid_replace (inject_Z b * inject_Z P' * P) with (inject_Z b * (P * inject_Z P'))
      using relation Qeq by ring.
    rewrite Hinv. lra. }
  apply round_half_even_ge in Hs. rewrite Zle_Qle, inject_Z_mult in Hs.
  apply (Qmult_le_compat_r _ _ P) in Hs; [|lra].
  setoid_replace (inject_Z b * inject_Z P' * P) with (inject_Z b * (P * inject_Z P'))
    using relation Qeq in Hs by ring.
  rewrite Hinv in Hs. lra.
Qed.

(** A float is within half a unit of its last digit of the exact value. *)
Lemma fround_near (prec emin : Z) (q : Q) :
  Qabs (fround prec emin q - q) <= 2 ^ last_digit prec emin q * (1 # 2).
Proof.
  unfold fround. pose proof (pow2_pos (last_digit prec emin q)) as Hp.
  destruct (Qeq_bool q 0) eqn:E.
  { apply Qeq_bool_eq in E. apply Qabs_Qle_condition. split; lra. }
  set (e := last_digit prec emin q) in *. rewrite Qred_correct.
  set (P := 2 ^ e) in *.
  pose proof (round_half_even_near (q / P)) as Hn.
  apply Qabs_Qle_condition in Hn as [Hlo Hhi].
  assert (Hq : q == q / P * P) by (field; lra).
  apply (Qmult_le_compat_r _ _ P) in Hlo; [|lra].
  apply (Qmult_le_compat_r _ _ P) in Hhi; [|lra].
  apply Qabs_Qle_condition. split.
  - setoid_replace (inject_Z (round_half_even (q / P)) * P - q)
      with ((inject_Z (round_half_even (q / P)) - q / P) * P) using relation Qeq by (field; lra).
    lra.
  - setoid_replace (inject_Z (round_half_even (q / P)) * P - q)
      with ((inject_Z (round_half_even (q / P)) - q / P) * P) using relation Qeq by (field; lra).
    lra.
Qed.

(** The last digit of a float below [2 ^ m]. *)
Lemma last_digit_le (prec emin : Z) (q : Q) (m : Z) :
  ¬ q == 0 → Qabs q < 2 ^ m → (emin ≤ m - prec)%Z →
  (last_digit prec emin q ≤ m - prec)%Z.
Proof.
  intros Hq Hm He. apply binade_lt in Hm; [|done]. unfold last_digit. lia.
Qed.

(** A [float64] quotient of small numbers stays on the side of a whole
    number the exact quotient is on. *)
Lemma float64_le (q : Q) (b : Z) :
  Qabs q < 2 → q <= inject_Z b → float64 q <= inject_Z b.
Proof.
  intros Hq Hb. apply fround_le; [|done].
  intros Hnz. pose proof (last_digit_le 53 (-1074) q 1 Hnz Hq). lia.
Qed.

Lemma float64_ge (q : Q) (b : Z) :
  Qabs q < 2 → inject_Z b <= q → inject_Z b <= float64 q.
Proof.
  intros Hq Hb. apply fround_ge; [|done].
  intros Hnz. pose proof (last_digit_le 53 (-1074) q 1 Hnz Hq). lia.
Qed.

End Rounding.

(** *** The reaper as a whole *)

Section ReaperRun.
Import TempCleanup.

Variable w : os_world.
Variable temp_dir : pystr.
Variable retention_days : Q.

(** Every run that returns is the loop over some list of entry names; the
    list is the listing of the temp directory, or empty when there is no
    such directory. *)
Lemma cleanup_temp_files_inv (fs fs' : filesystem) (errors : list pystr) :
  cleanup_temp_files w fs temp_dir retention_days = Ok (fs', errors) →
  ∃ names,
    (listdir fs temp_dir = Ok names ∨ (fs_node fs temp_dir = None ∧ names = []))
    ∧ (fs', errors)
      = fold_left (cleanup_step w temp_dir (time_time w) (retention_days * 86400)%Q)
          names (fs, []).
Proof.
  unfold cleanup_temp_files, path_exists.
  destruct (fs_node fs temp_dir) as [x|] eqn:E.
  - rewrite bool_decide_eq_true_2 by eauto. cbn [negb].
    destruct (listdir fs temp_dir) as [names|e]; [|done].
    intros [= Heq]. exists names. split; [by left|done].
  - rewrite bool_decide_eq_false_2 by (by intros [? ?]). cbn [negb].
    intros [= <- <-]. exists []. split; [by right|done].
Qed.

(** A path some listed entry is reaped at was the path of an expired
    regular file that the operating system let go. *)
Lemma reaped_inv (fs : filesystem) (names : list pystr) (q : pystr) :
  existsb (reaped w temp_dir retention_days fs q) names = true →
  ∃ n, n ∈ names
       ∧ q = canon (path_join temp_dir n)
       ∧ expired w fs temp_dir retention_days n = true
       ∧ remove_fails w (path_join temp_dir n) = false.
Proof.
  intros H. apply existsb_exists in H as (n & Hn & Hr).
  unfold reaped in Hr. apply andb_true_iff in Hr as [Hr Hf].
  apply andb_true_iff in Hr as [Hq He].
  apply bool_decide_eq_true in Hq. apply negb_true_iff in Hf.
  exists n. by rewrite <- list_elem_of_In in Hn.
Qed.

Lemma expired_inv (fs : filesystem) (n : pystr) :
  expired w fs temp_dir retention_days n = true →
  (∃ data, fs_node fs (path_join temp_dir n) = Some (File data))
  ∧ startswith n CHUNK_PREFIX = true
  ∧ (retention_days * 86400 < file_age w temp_dir n)%Q.
Proof.
  unfold expired, isfile. intros H.
  apply andb_true_iff in H as [H Ha]. apply andb_true_iff in H as [Hf Hc].
  apply Qgt_bool_true in Ha.
  destruct (fs_node fs (path_join temp_dir n)) as [[|data]|]; try done. eauto.
Qed.

(** The second of two runs at the same instant finds nothing to reap. *)
Lemma reaped_twice (fs fs' : filesystem) (names names' : list pystr) (q : pystr) :
  listdir fs temp_dir = Ok names →
  listdir fs' temp_dir = Ok names' →
  (∀ p, fs' !! p = if existsb (reaped w temp_dir retention_days fs p) names
                   then None else fs !! p) →
  existsb (reaped w temp_dir retention_days fs' q) names' = false.
Proof.
  intros Hl Hl' Hfs. apply not_true_iff_false. intros H.
  apply reaped_inv in H as (n & Hn & -> & Hex & Hrf).
  apply (listdir_spec _ _ _ _ Hl') in Hn as [Hent _].
  apply expired_inv in Hex as Hex'. destruct Hex' as ([data Hd] & Hc & Ha).
  unfold fs_node in Hd. rewrite Hfs in Hd.
  destruct (existsb _ names) eqn:Eex; [done|].
  apply not_true_iff_false in Eex. apply Eex.
  apply existsb_exists. exists n. split.
  - apply list_elem_of_In, (listdir_spec _ _ _ _ Hl). split; [done|].
    unfold fs_node. eauto.
  - unfold reaped. rewrite bool_decide_eq_true_2 by done. rewrite Hrf.
    rewrite andb_true_r. cbn [andb].
    unfold expired, isfile, fs_node. rewrite Hd, Hc. cbn [andb].
    by apply Qgt_bool_true.
Qed.

End ReaperRun.

(** X1. The reaper only deletes, and only expired chunk files of the temp
    directory: when it returns, every node of the file system is what it
    was, or it was a regular file directly in the temp directory, with a
    name that starts with [chunk_] and an age above the threshold, which
    [os.remove] let go, and it is gone. Directories, files of other
    directories, and files below the temp directory's own directories are
    never touched, and nothing is created. *)
Theorem reaper_only_deletes_expired_chunk_files
    (w : TempCleanup.os_world) (fs fs' : filesystem) (temp_dir : pystr)
    (retention_days : Q) (errors : list pystr) :
  TempCleanup.cleanup_temp_files w fs temp_dir retention_days = Ok (fs', errors) →
  ∀ q : pystr,
    fs' !! q = fs !! q
    ∨ (fs' !! q = None
       ∧ ∃ filename data,
           entry_name filename
           ∧ q = canon (path_join temp_dir filename)
           ∧ fs !! q = Some (File data)
           ∧ startswith filename TempCleanup.CHUNK_PREFIX = true
           ∧ (retention_days * 86400 < TempCleanup.file_age w temp_dir filename)%Q
           ∧ TempCleanup.remove_fails w (path_join temp_dir filename) = false).
Proof.
  intros Hrun q.
  apply cleanup_temp_files_inv in Hrun as (names & Hnames & Hfold).
  pose proof (cleanup_fold_lookup w temp_dir retention_days names fs [] q) as Hq.
  rewrite <- Hfold in Hq. cbn [fst] in Hq.
  destruct (existsb _ names) eqn:Eex; [right|by left].
  split; [done|].
  apply reaped_inv in Eex as (n & Hn & -> & Hex & Hrf).
  apply expired_inv in Hex as ([data Hd] & Hc & Ha).
  exists n, data. repeat split; try done.
  - destruct Hnames as [Hl|[_ ->]]; [|by apply elem_of_nil in Hn].
    by apply (listdir_spec _ _ _ _ Hl) in Hn as [[? ?] _].
  - destruct Hnames as [Hl|[_ ->]]; [|by apply elem_of_nil in Hn].
    by apply (listdir_spec _ _ _ _ Hl) in Hn as [[? ?] _].
Qed.

Lemma reaper_only_deletes_expired_chunk_files_witness :
  Cases.swept !! lit "temp_audio/chunk_old.wav" = None
  ∧ Cases.swept !! lit "temp_audio/combined_x.wav"
    = Cases.littered !! lit "temp_audio/combined_x.wav".
Proof.
  assert (Hrun : TempCleanup.cleanup_temp_files
                   (Cases.late (lit "temp_audio/chunk_locked.wav"))
                   Cases.littered (lit "temp_audio") 7
                 = Ok (Cases.swept, [lit "temp_audio/chunk_locked.wav"]))
    by (vm_compute; reflexivity).
  split.
  - destruct (reaper_only_deletes_expired_chunk_files _ _ _ _ _ _ Hrun
                (lit "temp_audio/chunk_old.wav")) as [H|[H _]]; [|exact H].
    vm_compute in H. discriminate H.
  - destruct (reaper_only_deletes_expired_chunk_files _ _ _ _ _ _ Hrun
                (lit "temp_audio/combined_x.wav")) as [H|[_ (n & d & _ & _ & _ & Hc & _)]];
      [exact H|].
    vm_compute. reflexivity.
Defined.

(** X2. Running the reaper again at the same instant changes nothing: the
    second run returns, and leaves the files exactly as the first run left
    them. (Start-up and shutdown both run it.) *)
Theorem reaper_second_run_changes_nothing
    (w : TempCleanup.os_world) (fs fs' : filesystem) (temp_dir : pystr)
    (retention_days : Q) (errors : list pystr) :
  TempCleanup.cleanup_temp_files w fs temp_dir retention_days = Ok (fs', errors) →
  ∃ errors',
    TempCleanup.cleanup_temp_files w fs' temp_dir retention_days = Ok (fs', errors').
Proof.
  intros Hrun.
  apply cleanup_temp_files_inv in Hrun as (names & Hnames & Hfold).
  assert (Hfs : ∀ p, fs' !! p
                     = if existsb (reaped w temp_dir retention_days fs p) names
                       then None else fs !! p).
  { intros p.
    pose proof (cleanup_fold_lookup w temp_dir retention_days names fs [] p) as Hp.
    by rewrite <- Hfold in Hp. }
  destruct Hnames as [Hl|[Hnone ->]].
  - (* the directory is still there: no entry of it is a directory's path *)
    assert (Hdir : fs_node fs' temp_dir = Some Dir).
    { unfold fs_node. rewrite Hfs.
      assert (Hd : fs !! canon temp_dir = Some Dir).
      { unfold listdir, fs_node in Hl.
        by destruct (fs !! canon temp_dir) as [[|?]|]. }
      destruct (existsb _ names) eqn:Eex; [|done].
      apply reaped_inv in Eex as (n & _ & Hq & Hex & _).
      apply expired_inv in Hex as ([data Hdata] & _).
      unfold fs_node in Hdata. rewrite <- Hq in Hdata. congruence. }
    assert (∃ names', listdir fs' temp_dir = Ok names') as [names' Hl'].
    { unfold listdir. rewrite Hdir. eauto. }
    rewrite (cleanup_temp_files_listed w fs' temp_dir retention_days names' Hl').
    destruct (fold_left _ names' (fs', [])) as [fs'' errors'] eqn:Efold.
    exists errors'. do 2 f_equal. apply map_eq. intros q.
    pose proof (cleanup_fold_lookup w temp_dir retention_days names' fs' [] q) as Hq.
    rewrite Efold in Hq. cbn [fst] in Hq.
    by rewrite (reaped_twice w temp_dir retention_days fs fs' names names' q) in Hq.
  - cbn in Hfold. injection Hfold as -> ->.
    exists []. unfold TempCleanup.cleanup_temp_files, path_exists.
    rewrite Hnone. by rewrite bool_decide_eq_false_2 by (by intros [? ?]).
Qed.

Lemma reaper_second_run_changes_nothing_witness :
  ∃ errors',
    TempCleanup.cleanup_temp_files (Cases.late (lit "temp_audio/chunk_locked.wav"))
      Cases.swept (lit "temp_audio") 7
    = Ok (Cases.swept, errors').
Proof.
  apply (reaper_second_run_changes_nothing
           (Cases.late (lit "temp_audio/chunk_locked.wav"))
           Cases.littered Cases.swept (lit "temp_audio") 7
           [lit "temp_audio/chunk_locked.wav"]).
  vm_compute. reflexivity.
Defined.

(** ** Running monadic code *)

Lemma bind_ok {S A B} (m : M S A) (f : A → M S B) (s s' : S) (a : A) :
  m s = (Ok a, s') → (m ≫= f) s = f a s'.
Proof. intros H. unfold mbind, M_bind. by rewrite H. Qed.

Lemma bind_raise {S A B} (m : M S A) (f : A → M S B) (s s' : S) (e : exn) :
  m s = (Raise e, s') → (m ≫= f) s = (Raise e, s').
Proof. intros H. unfold mbind, M_bind. by rewrite H. Qed.

Lemma try_except_ok {S A} (m : M S A) (h : exn → M S A) (s s' : S) (a : A) :
  m s = (Ok a, s') → try_except m h s = (Ok a, s').
Proof. intros H. unfold try_except. by rewrite H. Qed.

Lemma try_except_raise {S A} (m : M S A) (h : exn → M S A) (s s' : S) (e : exn) :
  m s = (Raise e, s') → try_except m h s = h e s'.
Proof. intros H. unfold try_except. by rewrite H. Qed.

Lemma isfile_fs_write (fs : filesystem) (p : pystr) (data : file_data) :
  isfile (fs_write fs p data) p = true.
Proof. unfold isfile, fs_node, fs_write. by rewrite lookup_insert_eq. Qed.


Lemma bind_inv_ok {S A B} (m : M S A) (f : A → M S B) (s s' : S) (b : B) :
  (m ≫= f) s = (Ok b, s') → ∃ a s1, m s = (Ok a, s1) ∧ f a s1 = (Ok b, s').
Proof.
  unfold mbind, M_bind. destruct (m s) as [[a|e] s1]; [eauto|done].
Qed.


Lemma bind_inv_raise {S A B} (m : M S A) (f : A → M S B) (s s' : S) (e : exn) :
  (m ≫= f) s = (Raise e, s') →
  m s = (Raise e, s') ∨ ∃ a s1, m s = (Ok a, s1) ∧ f a s1 = (Raise e, s').
Proof.
  unfold mbind, M_bind. destruct (m s) as [[a|e1] s1]; [eauto|].
  intros [= <- <-]. by left.
Qed.

Lemma try_reraise_inv_raise {S A} (m : M S A) (s s' : S) (e : exn) :
  try_except m (λ e, raise e) s = (Raise e, s') → m s = (Raise e, s').
Proof.
  unfold try_except, raise. by destruct (m s) as [[?|?] ?].
Qed.

(** ** The voice and model store (models.py) *)

Section Store.
Import Models.

Lemma guarded_app (tr1 tr2 : list event) :
  guarded tr1 → guarded tr2 → guarded (tr1 ++ tr2).
Proof. induction 1; intros; cbn; auto using guarded. Qed.

Lemma extends_refl (st : state) : extends st st.
Proof.
  exists []. rewrite app_nil_r. repeat split; auto using guarded.
  intros a Ha. by apply elem_of_nil in Ha.
Qed.

Lemma extends_trans (st1 st2 st3 : state) :
  extends st1 st2 → extends st2 st3 → extends st1 st3.
Proof.
  intros (n1 & T1 & G1 & F1 & K1) (n2 & T2 & G2 & F2 & K2).
  exists (n1 ++ n2). split; [|split; [|split]].
  - by rewrite T2, T1, app_assoc.
  - by apply guarded_app.
  - intros a Ha. apply elem_of_app in Ha as [Ha|Ha]; [by apply F1|].
    apply F2 in Ha. destruct (fs st1 !! a) eqn:E; [|done].
    eapply lookup_weaken in E; [|exact K1]. congruence.
  - by etrans.
Qed.

Lemma checked_ret {A} (a : A) : checked (mret a).
Proof. intros st. apply extends_refl. Qed.

Lemma checked_raise {A} (e : exn) : checked (raise e : M state A).
Proof. intros st. apply extends_refl. Qed.

Lemma checked_bind {A B} (m : M state A) (f : A → M state B) :
  checked m → (∀ a, checked (f a)) → checked (m ≫= f).
Proof.
  intros Hm Hf st. unfold mbind, M_bind. specialize (Hm st).
  destruct (m st) as [[a|e] s']; [|done].
  eapply extends_trans; [exact Hm|apply Hf].
Qed.

Lemma checked_try_except {A} (m : M state A) (h : exn → M state A) :
  checked m → (∀ e, checked (h e)) → checked (try_except m h).
Proof.
  intros Hm Hh st. unfold try_except. specialize (Hm st).
  destruct (m st) as [[a|e] s']; [done|].
  eapply extends_trans; [exact Hm|apply Hh].
Qed.

Lemma checked_get : checked (get : M state state).
Proof. intros st. apply extends_refl. Qed.

Lemma checked_set_pipeline (p : option KPipeline) : checked (modify (set_pipeline p)).
Proof.
  intros st. exists []. cbn. rewrite app_nil_r. repeat split; auto using guarded.
  intros a Ha. by apply elem_of_nil in Ha.
Qed.

Lemma checked_os_path_exists (p : pystr) : checked (os_path_exists p).
Proof.
  intros st. exists [EvExists (canon p) (path_exists (fs st) p)]. cbn.
  repeat split; auto using guarded.
  intros a Ha. apply list_elem_of_singleton in Ha. done.
Qed.

Lemma checked_mkdir_exist_ok (d : pystr) : checked (mkdir_exist_ok d).
Proof.
  intros st. unfold mkdir_exist_ok.
  destruct (fs_node (fs st) d) as [[|?]|] eqn:E; try apply extends_refl.
  exists []. cbn. rewrite app_nil_r. split; [done|split; [auto using guarded|split]].
  - intros a Ha. by apply elem_of_nil in Ha.
  - by apply insert_subseteq.
Qed.

(** [download_file] tests before it fetches, and fetches only what is
    missing. *)
Lemma checked_download_file (w : hub_world) (repo_id filename local_dir : pystr) :
  checked (download_file w repo_id filename local_dir).
Proof.
  intros st. unfold download_file, os_path_exists, hf_hub_download.
  unfold mbind, M_bind, try_except, mret, M_ret. cbn.
  set (a := canon (path_join local_dir filename)).
  destruct (path_exists (fs st) (path_join local_dir filename)) eqn:E; cbn.
  - exists [EvExists a true]. cbn. repeat split; auto using guarded.
    intros b Hb. by apply list_elem_of_singleton in Hb.
  - assert (Hnone : fs st !! a = None).
    { unfold path_exists, fs_node in E. apply bool_decide_eq_false in E.
      destruct (fs st !! a) eqn:E'; [exfalso; eauto|done]. }
    exists [EvExists a false; EvFetch a].
    destruct (hub_serves w filename); cbn; rewrite <- app_assoc; cbn;
      (split; [done|split; [auto using guarded|split]]).
    + intros b Hb. apply elem_of_cons in Hb as [?|Hb]; [done|].
      apply list_elem_of_singleton in Hb. by injection Hb as ->.
    + unfold fs_write. fold a.
      apply insert_subseteq_r; [done|apply map_union_subseteq_l].
    + intros b Hb. apply elem_of_cons in Hb as [?|Hb]; [done|].
      apply list_elem_of_singleton in Hb. by injection Hb as ->.
    + apply map_union_subseteq_l.
Qed.

End Store.

Section StoreOperations.
Import Models.

Variable w : hub_world.

Local Hint Resolve checked_ret checked_raise checked_get checked_set_pipeline
  checked_os_path_exists checked_mkdir_exist_ok checked_download_file : store.

Local Tactic Notation "store_step" := run_steps (@checked_bind) (@checked_try_except).

Lemma checked_download_voice_step (force : bool) (dir : pystr)
    (acc : list pystr) (voice_file : pystr) :
  checked (download_voice_step w force dir acc voice_file).
Proof. unfold download_voice_step. store_step. Qed.

Lemma checked_download_voice_loop (force : bool) (dir : pystr)
    (todo acc : list pystr) :
  checked (download_voice_loop w force dir todo acc).
Proof.
  revert acc. induction todo as [|v todo IH]; intros acc; cbn; [store_step|].
  apply checked_bind; [apply checked_download_voice_step|intros ?; apply IH].
Qed.

Lemma checked_download_voice_files (force : bool) :
  checked (download_voice_files w force).
Proof.
  unfold download_voice_files. apply checked_bind; [store_step|].
  intros _. apply checked_download_voice_loop.
Qed.

Lemma checked_ensure_artifact (path filename failure : pystr) :
  checked (ensure_artifact w path filename failure).
Proof. unfold ensure_artifact. store_step. Qed.

Lemma checked_build_model (model_path dev : pystr) :
  checked (build_model w model_path dev).
Proof.
  unfold build_model. apply checked_bind; [store_step|]. intros st.
  destruct (_pipeline st); [store_step|].
  apply checked_try_except; [|store_step].
  apply checked_bind; [apply checked_ensure_artifact|intros _].
  apply checked_bind; [apply checked_ensure_artifact|intros _].
  unfold new_pipeline. store_step.
Qed.

Lemma checked_patched_load_voice (self : KPipeline) (voice_path : pystr) :
  checked (patched_load_voice w self voice_path).
Proof. unfold patched_load_voice. store_step. Qed.

Lemma checked_load_voice (voice_name dev : pystr) :
  checked (load_voice w voice_name dev).
Proof.
  unfold load_voice.
  apply checked_bind; [apply checked_build_model|intros pipeline].
  apply checked_bind; [store_step|intros found].
  apply checked_bind; [|intros _; apply checked_patched_load_voice].
  destruct found; cbn; [store_step|].
  apply checked_bind; [apply checked_download_voice_files|intros _].
  store_step.
Qed.

End StoreOperations.

(** C8. Whatever the store is asked to ensure, in whatever state: every
    fetch of an artifact comes right after an existence test of that artifact
    that found nothing; an artifact that was on disk before the call is not
    fetched; and every file that was on disk is still there with the content
    it had. *)
Theorem store_fetches_only_missing_artifacts
    (w : Models.hub_world) (op : ensure_op) (st : Models.state) :
  ∃ new,
    Models.trace (after w op st) = Models.trace st ++ new
    ∧ guarded new
    ∧ (∀ p, path_exists (Models.fs st) p = true → Models.EvFetch (canon p) ∉ new)
    ∧ Models.fs st ⊆ Models.fs (after w op st).
Proof.
  assert (H : extends st (after w op st)).
  { destruct op; cbn.
    - apply checked_download_file.
    - apply checked_download_voice_files.
    - apply checked_build_model.
    - apply checked_load_voice. }
  destruct H as (new & Ht & Hg & Hf & Hk).
  exists new. repeat split; try done.
  intros p Hp Hin. apply Hf in Hin.
  unfold path_exists, fs_node in Hp. apply bool_decide_eq_true in Hp.
  rewrite Hin in Hp. by destruct Hp.
Qed.

(** Ensuring a file that is already there: the local path comes back, and
    nothing happened but the existence test. *)
Lemma download_file_present (w : Models.hub_world) (repo_id filename local_dir : pystr)
    (st : Models.state) :
  path_exists (Models.fs st) (path_join local_dir filename) = true →
  Models.download_file w repo_id filename local_dir st
  = (Ok (path_join local_dir filename),
     Models.log (Models.EvExists (canon (path_join local_dir filename)) true) st).
Proof.
  intros H. unfold Models.download_file.
  erewrite bind_ok; [|unfold Models.os_path_exists; by rewrite H].
  reflexivity.
Qed.

(** Loading a voice that is on disk, the pipeline built: two existence
    tests, no fetch. *)
Example load_voice_present_trace :
  Models.trace (after Examples.offline (LoadVoice (lit "af_bella") (lit "cpu"))
                  Examples.ready)
  = [Models.EvExists (lit "voices/af_bella.pt") true;
     Models.EvExists (lit "voices/af_bella.pt") true].
Proof. vm_compute. reflexivity. Qed.

(** The voice missing and the hub serving it: the test, then the fetches of
    what is missing; the voice present beside it is not fetched. *)
Example download_file_missing_trace :
  Models.trace
    (after Cases.online
       (DownloadFile Models.REPO_ID (lit "voices/af_sky.pt") (lit "."))
       Examples.ready)
  = [Models.EvExists (lit "voices/af_sky.pt") false;
     Models.EvFetch (lit "voices/af_sky.pt")].
Proof. vm_compute. reflexivity. Qed.

(** *** What the store writes, and where *)

Section StoreFrame.
Import Models.

Lemma keeps_pipeline_ret {A} (a : A) : keeps_pipeline (mret a : M state A).
Proof. by intros st. Qed.

Lemma keeps_pipeline_raise {A} (e : exn) : keeps_pipeline (raise e : M state A).
Proof. by intros st. Qed.

Lemma keeps_pipeline_bind {A B} (m : M state A) (f : A → M state B) :
  keeps_pipeline m → (∀ a, keeps_pipeline (f a)) → keeps_pipeline (m ≫= f).
Proof.
  intros Hm Hf st. unfold mbind, M_bind. specialize (Hm st).
  destruct (m st) as [[a|e] s']; [|done]. by rewrite Hf.
Qed.

Lemma keeps_pipeline_try_except {A} (m : M state A) (h : exn → M state A) :
  keeps_pipeline m → (∀ e, keeps_pipeline (h e)) → keeps_pipeline (try_except m h).
Proof.
  intros Hm Hh st. unfold try_except. specialize (Hm st).
  destruct (m st) as [[a|e] s']; [done|]. by rewrite Hh.
Qed.

Lemma keeps_pipeline_os_path_exists (p : pystr) : keeps_pipeline (os_path_exists p).
Proof. by intros st. Qed.

Lemma keeps_pipeline_hf_hub_download (w : hub_world) (r f d : pystr) :
  keeps_pipeline (hf_hub_download w r f d).
Proof. intros st. unfold hf_hub_download. by destruct (hub_serves w f). Qed.

Lemma keeps_pipeline_mkdir_exist_ok (d : pystr) : keeps_pipeline (mkdir_exist_ok d).
Proof. intros st. unfold mkdir_exist_ok. by destruct (fs_node _ _) as [[|?]|]. Qed.

Lemma writes_within_mono {A} (area area' : pystr → Prop) (m : M state A) :
  (∀ q, area q → area' q) → writes_within area m → writes_within area' m.
Proof. intros Hsub Hm st q Hq. apply Hm. auto. Qed.

Lemma writes_within_ret {A} (area : pystr → Prop) (a : A) :
  writes_within area (mret a : M state A).
Proof. by intros st q _. Qed.

Lemma writes_within_raise {A} (area : pystr → Prop) (e : exn) :
  writes_within area (raise e : M state A).
Proof. by intros st q _. Qed.

Lemma writes_within_bind {A B} (area : pystr → Prop) (m : M state A) (f : A → M state B) :
  writes_within area m → (∀ a, writes_within area (f a)) → writes_within area (m ≫= f).
Proof.
  intros Hm Hf st q Hq. unfold mbind, M_bind. specialize (Hm st q Hq).
  destruct (m st) as [[a|e] s']; [|done]. by rewrite Hf.
Qed.

Lemma writes_within_try_except {A} (area : pystr → Prop)
    (m : M state A) (h : exn → M state A) :
  writes_within area m → (∀ e, writes_within area (h e)) →
  writes_within area (try_except m h).
Proof.
  intros Hm Hh st q Hq. unfold try_except. specialize (Hm st q Hq).
  destruct (m st) as [[a|e] s']; [done|]. by rewrite Hh.
Qed.

Lemma writes_within_get (area : pystr → Prop) : writes_within area (get : M state state).
Proof. by intros st q _. Qed.

Lemma writes_within_set_pipeline (area : pystr → Prop) (p : option KPipeline) :
  writes_within area (modify (set_pipeline p)).
Proof. by intros st q _. Qed.

Lemma writes_within_os_path_exists (area : pystr → Prop) (p : pystr) :
  writes_within area (os_path_exists p).
Proof. by intros st q _. Qed.

Lemma writes_within_mkdir_exist_ok (area : pystr → Prop) (d : pystr) :
  area (canon d) → writes_within area (mkdir_exist_ok d).
Proof.
  intros Hd st q Hq. unfold mkdir_exist_ok.
  destruct (fs_node (fs st) d) as [[|?]|]; try done.
  cbn. apply lookup_insert_ne. by intros <-.
Qed.

(** The bookkeeping of the hub is kept below [local_dir/.cache]. *)
Lemma hub_cache_lookup (w : hub_world) (filename local_dir q : pystr) :
  (∀ rest, q ≠ canon (path_join local_dir (lit ".cache" ++ rest))) →
  hub_cache w filename local_dir !! q = None.
Proof.
  intros Hq. unfold hub_cache. apply not_elem_of_list_to_map_1.
  rewrite <- list_fmap_compose. intros Hin.
  apply list_elem_of_fmap in Hin as ([rest x] & Heq & _). cbn in Heq.
  by apply (Hq rest).
Qed.

Lemma writes_within_download_file (area : pystr → Prop) (w : hub_world)
    (repo_id filename local_dir : pystr) :
  area (canon (path_join local_dir filename)) →
  (∀ rest, area (canon (path_join local_dir (lit ".cache" ++ rest)))) →
  writes_within area (download_file w repo_id filename local_dir).
Proof.
  intros Ha Hc st q Hq. unfold download_file, os_path_exists, hf_hub_download.
  unfold mbind, M_bind, try_except, mret, M_ret. cbn.
  destruct (path_exists (fs st) (path_join local_dir filename)); cbn; [done|].
  assert (Hu : (fs st ∪ hub_cache w filename local_dir) !! q = fs st !! q).
  { rewrite lookup_union_l; [done|].
    apply hub_cache_lookup. intros rest ->. apply Hq, Hc. }
  destruct (hub_serves w filename); cbn; [|done].
  unfold fs_write. rewrite lookup_insert_ne; [done|]. by intros <-.
Qed.

End StoreFrame.

#[local] Hint Resolve keeps_pipeline_ret keeps_pipeline_raise keeps_pipeline_os_path_exists
  keeps_pipeline_hf_hub_download keeps_pipeline_mkdir_exist_ok : pipe.

Section StoreRuns.
Import Models.

Variable w : hub_world.

Local Tactic Notation "pipe_step" :=
  repeat first
    [ solve [auto with pipe]
    | apply keeps_pipeline_bind; [|intros ?]
    | apply keeps_pipeline_try_except; [|intros ?]
    | match goal with
      | |- keeps_pipeline (if ?b then _ else _) => destruct b
      end ].

Lemma keeps_pipeline_download_file (repo_id filename local_dir : pystr) :
  keeps_pipeline (download_file w repo_id filename local_dir).
Proof. unfold download_file. pipe_step. Qed.

Lemma keeps_pipeline_download_voice_step (force : bool) (dir : pystr)
    (acc : list pystr) (voice_file : pystr) :
  keeps_pipeline (download_voice_step w force dir acc voice_file).
Proof.
  unfold download_voice_step.
  apply keeps_pipeline_bind; [pipe_step|intros missing].
  destruct missing; [|pipe_step].
  apply keeps_pipeline_bind; [apply keeps_pipeline_download_file|intros r]. pipe_step.
Qed.

Lemma keeps_pipeline_download_voice_loop (force : bool) (dir : pystr)
    (todo acc : list pystr) :
  keeps_pipeline (download_voice_loop w force dir todo acc).
Proof.
  revert acc. induction todo as [|v todo IH]; intros acc; cbn; [pipe_step|].
  apply keeps_pipeline_bind; [apply keeps_pipeline_download_voice_step|intros ?; apply IH].
Qed.

Lemma keeps_pipeline_download_voice_files (force : bool) :
  keeps_pipeline (download_voice_files w force).
Proof.
  unfold download_voice_files. apply keeps_pipeline_bind; [pipe_step|].
  intros _. apply keeps_pipeline_download_voice_loop.
Qed.

Lemma keeps_pipeline_ensure_artifact (path filename failure : pystr) :
  keeps_pipeline (ensure_artifact w path filename failure).
Proof.
  unfold ensure_artifact. apply keeps_pipeline_bind; [pipe_step|intros found].
  destruct (negb found); [|pipe_step].
  apply keeps_pipeline_bind; [apply keeps_pipeline_download_file|intros r]. pipe_step.
Qed.

End StoreRuns.

#[local] Hint Resolve writes_within_ret writes_within_raise writes_within_get
  writes_within_set_pipeline writes_within_os_path_exists : frame.

Section StoreArea.
Import Models.

Variable w : hub_world.

Local Tactic Notation "frame_step" :=
  repeat first
    [ solve [auto with frame]
    | apply writes_within_bind; [|intros ?]
    | apply writes_within_try_except; [|intros ?]
    | match goal with
      | |- writes_within _ (if ?b then _ else _) => destruct b
      | |- writes_within _ (match ?x with _ => _ end) => destruct x
      end ].

Lemma store_area_voice (voice_file : pystr) :
  voice_file ∈ VOICE_FILES →
  store_area (canon (path_join (lit ".") (lit "voices/" ++ voice_file))).
Proof. intros H. do 3 right. left. by exists voice_file. Qed.

Lemma store_area_cache (rest : pystr) :
  store_area (canon (path_join (lit ".") (lit ".cache" ++ rest))).
Proof. by do 4 right. Qed.

Lemma writes_within_download_voice_step (force : bool) (acc : list pystr)
    (voice_file : pystr) :
  voice_file ∈ VOICE_FILES →
  writes_within store_area (download_voice_step w force (lit "voices") acc voice_file).
Proof.
  intros Hin. unfold download_voice_step.
  apply writes_within_bind; [frame_step|intros missing].
  destruct missing; [|frame_step].
  apply writes_within_bind; [|intros r; frame_step].
  apply writes_within_download_file; [by apply store_area_voice|].
  apply store_area_cache.
Qed.

Lemma writes_within_download_voice_loop (force : bool) (todo acc : list pystr) :
  todo ⊆ VOICE_FILES →
  writes_within store_area (download_voice_loop w force (lit "voices") todo acc).
Proof.
  revert acc. induction todo as [|v todo IH]; intros acc Hsub; cbn; [frame_step|].
  apply writes_within_bind.
  - apply writes_within_download_voice_step, Hsub. by left.
  - intros ?. apply IH. intros x Hx. apply Hsub. by right.
Qed.

Lemma writes_within_download_voice_files (force : bool) :
  writes_within store_area (download_voice_files w force).
Proof.
  unfold download_voice_files. apply writes_within_bind.
  - apply writes_within_mkdir_exist_ok. do 2 right. by left.
  - intros _. by apply writes_within_download_voice_loop.
Qed.

Lemma writes_within_ensure_artifact (path filename failure : pystr) :
  store_area (canon (path_join (lit ".") filename)) →
  writes_within store_area (ensure_artifact w path filename failure).
Proof.
  intros Ha. unfold ensure_artifact.
  apply writes_within_bind; [frame_step|intros found].
  destruct (negb found); [|frame_step].
  apply writes_within_bind; [|intros r; frame_step].
  apply writes_within_download_file; [done|apply store_area_cache].
Qed.

Lemma writes_within_build_model (model_path dev : pystr) :
  writes_within store_area (build_model w model_path dev).
Proof.
  unfold build_model. apply writes_within_bind; [frame_step|]. intros st.
  destruct (_pipeline st); [frame_step|].
  apply writes_within_try_except; [|frame_step].
  apply writes_within_bind; [apply writes_within_ensure_artifact; by left|intros _].
  apply writes_within_bind;
    [apply writes_within_ensure_artifact; right; by left|intros _].
  unfold new_pipeline. frame_step.
Qed.

Lemma writes_within_patched_load_voice (self : KPipeline) (voice_path : pystr) :
  writes_within store_area (patched_load_voice w self voice_path).
Proof. unfold patched_load_voice. frame_step. Qed.

Lemma writes_within_load_voice (voice_name dev : pystr) :
  writes_within store_area (load_voice w voice_name dev).
Proof.
  unfold load_voice.
  apply writes_within_bind; [apply writes_within_build_model|intros pipeline].
  apply writes_within_bind; [frame_step|intros found].
  apply writes_within_bind; [|intros _; apply writes_within_patched_load_voice].
  destruct found; cbn; [frame_step|].
  apply writes_within_bind; [apply writes_within_download_voice_files|intros _].
  frame_step.
Qed.

End StoreArea.

(** *** The [force_download] flag *)

Section ForceFlag.
Import Models.

Variable w : hub_world.

Lemma same_disk_refl (st : state) : same_disk st st.
Proof. done. Qed.

Lemma same_disk_log_l (e : event) (st1 st2 : state) :
  same_disk st1 st2 → same_disk (log e st1) st2.
Proof. by intros [? ?]. Qed.

Lemma same_disk_log_r (e : event) (st1 st2 : state) :
  same_disk st1 st2 → same_disk st1 (log e st2).
Proof. by intros [? ?]. Qed.

(** What [download_file] returns and leaves on disk depends on the files
    only. *)
Lemma download_file_same_disk (repo_id filename local_dir : pystr) (st1 st2 : state) :
  same_disk st1 st2 →
  (download_file w repo_id filename local_dir st1).1
  = (download_file w repo_id filename local_dir st2).1
  ∧ same_disk (download_file w repo_id filename local_dir st1).2
              (download_file w repo_id filename local_dir st2).2.
Proof.
  intros [Hfs Hp]. unfold download_file, os_path_exists, hf_hub_download.
  unfold mbind, M_bind, try_except, mret, M_ret. cbn. rewrite Hfs.
  destruct (path_exists (fs st2) (path_join local_dir filename)); cbn; [done|].
  destruct (hub_serves w filename); cbn; unfold same_disk; cbn; by rewrite ?Hfs.
Qed.

(** The path the loop tests and the path [download_file] tests name the
    same file. *)
Lemma voice_file_paths (voice_file : pystr) :
  startswith voice_file [SLASH] = false →
  canon (path_join (lit "voices") voice_file)
  = canon (path_join (lit ".") (lit "voices/" ++ voice_file)).
Proof. intros H. unfold path_join at 1. rewrite H. reflexivity. Qed.

Lemma download_voice_step_force (acc : list pystr) (voice_file : pystr)
    (st1 st0 : state) :
  startswith voice_file [SLASH] = false →
  same_disk st1 st0 →
  (download_voice_step w true (lit "voices") acc voice_file st1).1
  = (download_voice_step w false (lit "voices") acc voice_file st0).1
  ∧ same_disk (download_voice_step w true (lit "voices") acc voice_file st1).2
              (download_voice_step w false (lit "voices") acc voice_file st0).2.
Proof.
  intros Hrel Hsame. unfold download_voice_step.
  erewrite (bind_ok _ _ st1); [|reflexivity].
  erewrite (bind_ok _ _ st0); cycle 1.
  { erewrite bind_ok; [reflexivity|reflexivity]. }
  set (found := path_exists (fs st0) (path_join (lit "voices") voice_file)).
  set (st0' := log _ st0).
  assert (Hsame' : same_disk st1 st0') by by apply same_disk_log_r.
  destruct found eqn:Ef; cbn [negb].
  - (* on disk: the forced run finds it too, and hands its path back *)
    unfold download_file. erewrite bind_ok; cycle 1.
    { erewrite bind_ok; [|reflexivity]. cbn [negb].
      replace (path_exists (fs st1) (path_join (lit ".") (lit "voices/" ++ voice_file)))
        with true; [reflexivity|].
      symmetry. destruct Hsame as [-> _]. subst found.
      unfold path_exists, fs_node in *. by rewrite <- voice_file_paths. }
    cbn. split; [done|]. by apply same_disk_log_l.
  - destruct (download_file_same_disk REPO_ID (lit "voices/" ++ voice_file) (lit ".")
                st1 st0' Hsame') as [Hr Hs].
    unfold mbind, M_bind.
    destruct (download_file w REPO_ID _ _ st1) as [[r1|e1] s1],
             (download_file w REPO_ID _ _ st0') as [[r0|e0] s0]; cbn in *; try done.
    + injection Hr as ->. by destruct (bool_decide (r0 ≠ [])).
    + by injection Hr as ->.
Qed.

Lemma download_voice_loop_force (todo acc : list pystr) (st1 st0 : state) :
  Forall (λ f, startswith f [SLASH] = false) todo →
  same_disk st1 st0 →
  (download_voice_loop w true (lit "voices") todo acc st1).1
  = (download_voice_loop w false (lit "voices") todo acc st0).1
  ∧ same_disk (download_voice_loop w true (lit "voices") todo acc st1).2
              (download_voice_loop w false (lit "voices") todo acc st0).2.
Proof.
  intros Hrel. revert acc st1 st0.
  induction Hrel as [|f todo Hf _ IH]; intros acc st1 st0 Hsame; [done|].
  cbn [download_voice_loop]. unfold mbind, M_bind.
  destruct (download_voice_step_force acc f st1 st0 Hf Hsame) as [Hr Hs].
  destruct (download_voice_step w true _ acc f st1) as [[r1|e1] s1],
           (download_voice_step w false _ acc f st0) as [[r0|e0] s0]; cbn in *; try done.
  injection Hr as ->. by apply IH.
Qed.

Lemma voice_files_relative :
  Forall (λ f, startswith f [SLASH] = false) VOICE_FILES.
Proof. apply (bool_decide_unpack _). vm_compute. exact I. Qed.

End ForceFlag.

(** X5. The [force_download] flag of [download_voice_files] forces
    nothing: with it or without it the call returns the same list of voices
    (or raises the same exception) and leaves the same files, since
    [download_file] itself skips every file that is on disk. *)
Theorem force_download_forces_nothing (w : Models.hub_world) (st : Models.state) :
  (Models.download_voice_files w true st).1 = (Models.download_voice_files w false st).1
  ∧ Models.fs (Models.download_voice_files w true st).2
    = Models.fs (Models.download_voice_files w false st).2.
Proof.
  unfold Models.download_voice_files, mbind, M_bind.
  destruct (Models.mkdir_exist_ok (lit "voices") st) as [[[]|e] st1]; [|done].
  destruct (download_voice_loop_force w Models.VOICE_FILES [] st1 st1
              (voice_files_relative) (same_disk_refl st1)) as [Hr [Hfs _]].
  done.
Qed.

(** *** What the calls of the store leave behind *)

Section StoreResults.
Import Models.

Variable w : hub_world.

Lemma extends_path_exists (st st' : state) (p : pystr) :
  extends st st' → path_exists (fs st) p = true → path_exists (fs st') p = true.
Proof.
  intros (_ & _ & _ & _ & Hsub) H. unfold path_exists, fs_node in *.
  apply bool_decide_eq_true in H as [x Hx]. apply bool_decide_eq_true.
  exists x. by eapply lookup_weaken.
Qed.

(** When [download_file] hands back a path, the file is there, at
    [local_dir/filename]. *)
Lemma download_file_returns (repo_id filename local_dir : pystr) (st st' : state)
    (r : pystr) :
  download_file w repo_id filename local_dir st = (Ok r, st') →
  r = [] ∨ path_exists (fs st') (path_join local_dir filename) = true.
Proof.
  unfold download_file, os_path_exists, hf_hub_download.
  unfold mbind, M_bind, try_except, mret, M_ret. cbn.
  destruct (path_exists (fs st) (path_join local_dir filename)) eqn:E; cbn.
  - intros [= <- <-]. by right.
  - destruct (hub_serves w filename); cbn; intros [= <- <-]; [right|by left].
    cbn. unfold path_exists, fs_node, fs_write.
    rewrite lookup_insert_eq. apply bool_decide_eq_true. eauto.
Qed.

Lemma download_voice_step_returns (force : bool) (acc acc' : list pystr)
    (voice_file : pystr) (st st' : state) :
  startswith voice_file [SLASH] = false →
  download_voice_step w force (lit "voices") acc voice_file st = (Ok acc', st') →
  acc' = acc
  ∨ (acc' = acc ++ [voice_file]
     ∧ path_exists (fs st') (lit "voices/" ++ voice_file) = true).
Proof.
  intros Hrel. unfold download_voice_step. intros H.
  apply bind_inv_ok in H as (missing & st1 & Hmiss & H).
  assert (Hm : if missing then True
               else st1 = log (EvExists (canon (path_join (lit "voices") voice_file)) true) st
                    ∧ path_exists (fs st) (path_join (lit "voices") voice_file) = true).
  { destruct force.
    - by injection Hmiss as <- <-.
    - apply bind_inv_ok in Hmiss as (found & st2 & Hfound & Hmiss).
      injection Hfound as <- <-. injection Hmiss as <- <-.
      by destruct (path_exists _ _). }
  destruct missing.
  - apply bind_inv_ok in H as (r & st2 & Hdl & H).
    apply download_file_returns in Hdl as [->|Hex].
    + left. by injection H as <- <-.
    + destruct (bool_decide (r ≠ [])); injection H as <- <-; [right|by left].
      split; [done|]. unfold path_exists, fs_node in *. exact Hex.
  - right. injection H as <- <-. destruct Hm as [-> Hex]. split; [done|].
    unfold path_exists, fs_node in *. cbn [fs log].
    by rewrite voice_file_paths in Hex.
Qed.

Lemma download_voice_loop_returns (force : bool) (todo acc voices : list pystr)
    (st st' : state) :
  Forall (λ f, startswith f [SLASH] = false) todo →
  download_voice_loop w force (lit "voices") todo acc st = (Ok voices, st') →
  ∃ new,
    voices = acc ++ new
    ∧ sublist new todo
    ∧ Forall (λ f, path_exists (fs st') (lit "voices/" ++ f) = true) new.
Proof.
  intros Hrel. revert acc st.
  induction Hrel as [|f todo Hf _ IH]; intros acc st H.
  { injection H as <- <-. exists []. by rewrite app_nil_r. }
  cbn [download_voice_loop] in H.
  apply bind_inv_ok in H as (acc1 & st1 & Hstep & H).
  pose proof (checked_download_voice_loop w force (lit "voices") todo acc1 st1) as Hext.
  rewrite H in Hext. cbn in Hext.
  apply IH in H as (new & -> & Hsub & Hall).
  apply download_voice_step_returns in Hstep as [->|[-> Hex]]; [| |done].
  - exists new. split; [done|]. split; [by apply sublist_cons|done].
  - exists (f :: new). rewrite <- app_assoc. split; [done|].
    split; [by apply sublist_skip|].
    constructor; [|done]. by eapply extends_path_exists.
Qed.

End StoreResults.

(** X6. The voices [download_voice_files] reports are on disk: when it
    returns, the list it returns is made of names of [VOICE_FILES], in the
    order of that list and each at most once, and every voice file it names
    exists in the directory [voices]. *)
Theorem downloaded_voices_are_on_disk
    (w : Models.hub_world) (force_download : bool) (st st' : Models.state)
    (downloaded_voices : list pystr) :
  Models.download_voice_files w force_download st = (Ok downloaded_voices, st') →
  sublist downloaded_voices Models.VOICE_FILES
  ∧ ∀ voice_file,
      voice_file ∈ downloaded_voices →
      path_exists (Models.fs st') (lit "voices/" ++ voice_file) = true.
Proof.
  unfold Models.download_voice_files. intros H.
  apply bind_inv_ok in H as (_ & st1 & _ & H).
  apply download_voice_loop_returns in H as (new & -> & Hsub & Hall);
    [|apply voice_files_relative].
  split; [done|]. intros f Hf. cbn in Hf.
  eapply Forall_forall in Hall; [exact Hall|done].
Qed.

Lemma downloaded_voices_are_on_disk_witness :
  path_exists
    (Models.fs (Models.download_voice_files Examples.offline false Examples.ready).2)
    (lit "voices/af_bella.pt") = true.
Proof.
  assert (E : Models.download_voice_files Examples.offline false Examples.ready
              = (Ok [lit "af_bella.pt"],
                 (Models.download_voice_files Examples.offline false Examples.ready).2))
    by (vm_compute; reflexivity).
  apply (proj2 (downloaded_voices_are_on_disk _ _ _ _ _ E)). by left.
Defined.

(** *** The cached pipeline *)

Section Pipeline.
Import Models.

Variable w : hub_world.

(** How [build_model] ends: with the pipeline it returns cached, or, when it
    raises, with none cached. *)
Lemma build_model_pipeline (model_path dev : pystr) (st : state) :
  match build_model w model_path dev st with
  | (Ok p, st') =>
      _pipeline st' = Some p
      ∧ (∀ cached, _pipeline st = Some cached → p = cached ∧ st' = st)
  | (Raise _, st') => _pipeline st = None ∧ _pipeline st' = None
  end.
Proof.
  unfold build_model. erewrite bind_ok; [|reflexivity].
  destruct (_pipeline st) as [cached|] eqn:Ep.
  { cbn. split; [done|]. by intros ? [= <-]. }
  unfold try_except, mbind, M_bind.
  pose proof (keeps_pipeline_ensure_artifact w model_path (lit "kokoro-v1_0.pth")
                (lit "Failed to download model file.") st) as H1.
  destruct (ensure_artifact w model_path _ _ st) as [[r1|e1] st1]; cbn in H1;
    [|cbn; by rewrite H1].
  pose proof (keeps_pipeline_ensure_artifact w (lit "config.json") (lit "config.json")
                (lit "Failed to download config file.") st1) as H2.
  destruct (ensure_artifact w (lit "config.json") _ _ st1) as [[r2|e2] st2]; cbn in H2;
    [|cbn; by rewrite H2, H1].
  unfold new_pipeline. destruct (kpipeline_init_fails w); cbn.
  - by rewrite H2, H1.
  - split; [done|]. intros cached Hc. congruence.
Qed.

Lemma downloaded_path_nonempty (target : pystr) :
  target ≠ [] → downloaded_path w target ≠ [].
Proof. intros H. unfold downloaded_path. by destruct (hub_path w target). Qed.

(** An artifact cannot be ensured only when it is not on disk and the hub
    does not serve it; the hub library has then left its bookkeeping. *)
Lemma ensure_artifact_raises (path filename failure : pystr) (st st' : state) (e : exn) :
  ensure_artifact w path filename failure st = (Raise e, st') →
  e = ValueError failure
  ∧ path_exists (fs st) path = false
  ∧ hub_serves w filename = false
  ∧ fs st' = fs st ∪ hub_cache w filename (lit ".").
Proof.
  unfold ensure_artifact, download_file, os_path_exists, hf_hub_download.
  unfold mbind, M_bind, try_except, mret, M_ret, raise. cbv beta iota zeta.
  assert (Hne : path_join (lit ".") filename ≠ []).
  { unfold path_join.
    destruct filename as [|c f]; [done|]. cbn. by destruct (bool_decide (SLASH = c)). }
  destruct (path_exists (fs st) path); cbn [negb]; cbv beta iota zeta; [done|].
  cbn [fs log].
  destruct (path_exists (fs st) (path_join (lit ".") filename)); cbn [negb];
    cbv beta iota zeta; [by rewrite bool_decide_eq_false_2|].
  destruct (hub_serves w filename); cbv beta iota zeta.
  - rewrite bool_decide_eq_false_2; [done|by apply downloaded_path_nonempty].
  - by intros [= <- <-].
Qed.

(** The paths of the hub's bookkeeping for downloads into the working
    directory. *)
Lemma cache_path (rest : pystr) :
  canon (path_join (lit ".") (lit ".cache" ++ rest)) = lit ".cache" ++ rest.
Proof. reflexivity. Qed.

(** The bookkeeping is not among the files with a name that does not start
    with [.cache]. *)
Lemma hub_cache_outside (filename q : pystr) :
  startswith q (lit ".cache") = false →
  hub_cache w filename (lit ".") !! q = None.
Proof.
  intros Hq. apply hub_cache_lookup. intros rest ->.
  rewrite cache_path in Hq. by rewrite startswith_app in Hq.
Qed.

End Pipeline.

(** X7. The pipeline is built once: when [build_model] has returned a
    pipeline, every later call returns that same pipeline and does nothing
    else, whatever model path and device it is given and whatever the hub
    serves then (so the [device] of a later call is ignored). *)
Theorem build_model_is_cached
    (w : Models.hub_world) (model_path dev : pystr) (st st' : Models.state)
    (p : Models.KPipeline) :
  Models.build_model w model_path dev st = (Ok p, st') →
  ∀ (w' : Models.hub_world) (model_path' dev' : pystr),
    Models.build_model w' model_path' dev' st' = (Ok p, st').
Proof.
  intros H w' model_path' dev'.
  pose proof (build_model_pipeline w model_path dev st) as H1. rewrite H in H1.
  destruct H1 as [Hp _].
  pose proof (build_model_pipeline w' model_path' dev' st') as H2.
  destruct (Models.build_model w' model_path' dev' st') as [[p'|e] st''].
  - destruct H2 as [_ H2]. by destruct (H2 p Hp) as [-> ->].
  - destruct H2 as [H2 _]. congruence.
Qed.

Lemma build_model_is_cached_witness :
  Models.build_model Examples.offline (lit "other.pth") (lit "cuda")
    (Models.build_model Cases.online (lit "kokoro-v1_0.pth") (lit "cpu") Examples.ready).2
  = Models.build_model Cases.online (lit "kokoro-v1_0.pth") (lit "cpu") Examples.ready.
Proof.
  assert (E : Models.build_model Cases.online (lit "kokoro-v1_0.pth") (lit "cpu")
                Examples.ready
              = (Ok {| Models.device := lit "cpu"; Models.voices := ∅ |},
                 (Models.build_model Cases.online (lit "kokoro-v1_0.pth") (lit "cpu")
                    Examples.ready).2))
    by (vm_compute; reflexivity).
  rewrite E at 2.
  apply (build_model_is_cached _ _ _ _ _ _ E).
Defined.

(** X8. A build that fails leaves nothing cached, and says which artifact
    was missing: when [build_model] raises, no pipeline is cached
    afterwards, so that the next call tries again; and unless it is the
    construction of the pipeline itself that raised, the exception is the
    [ValueError] for the model file, which was not on disk and which the hub
    did not serve, or the one for [config.json], likewise. *)
Theorem failed_build_is_not_cached
    (w : Models.hub_world) (model_path dev : pystr) (st st' : Models.state) (e : exn) :
  Models.build_model w model_path dev st = (Raise e, st') →
  Models._pipeline st' = None
  ∧ (Models.kpipeline_init_fails w = false →
     (e = ValueError (lit "Failed to download model file.")
      ∧ path_exists (Models.fs st) model_path = false
      ∧ Models.hub_serves w (lit "kokoro-v1_0.pth") = false)
     ∨ (e = ValueError (lit "Failed to download config file.")
        ∧ path_exists (Models.fs st') (lit "config.json") = false
        ∧ Models.hub_serves w (lit "config.json") = false)).
Proof.
  intros H. split.
  { pose proof (build_model_pipeline w model_path dev st) as H1. rewrite H in H1.
    by destruct H1. }
  intros Hinit. revert H. unfold Models.build_model.
  erewrite bind_ok; [|reflexivity].
  destruct (Models._pipeline st); [done|]. intros H.
  apply try_reraise_inv_raise in H.
  apply bind_inv_raise in H as [H|(r1 & st1 & _ & H)].
  { left. by apply ensure_artifact_raises in H as (-> & ? & ? & _). }
  apply bind_inv_raise in H as [H|(r2 & st2 & _ & H)].
  { right. apply ensure_artifact_raises in H as (-> & Hex & ? & Hfs).
    split; [done|]. split; [|done].
    unfold path_exists, fs_node in *. rewrite Hfs.
    apply bool_decide_eq_false in Hex. apply bool_decide_eq_false.
    by rewrite lookup_union_l by (by apply hub_cache_outside). }
  unfold Models.new_pipeline in H. by rewrite Hinit in H.
Qed.

Lemma failed_build_is_not_cached_witness :
  Models._pipeline
    (Models.build_model Examples.offline (lit "kokoro-v1_0.pth") (lit "cpu") Cases.bare).2
  = None.
Proof.
  assert (E : Models.build_model Examples.offline (lit "kokoro-v1_0.pth") (lit "cpu")
                Cases.bare
              = (Raise (ValueError (lit "Failed to download model file.")),
                 (Models.build_model Examples.offline (lit "kokoro-v1_0.pth") (lit "cpu")
                    Cases.bare).2))
    by (vm_compute; reflexivity).
  apply (proj1 (failed_build_is_not_cached _ _ _ _ _ _ E)).
Defined.

(** *** Loading a voice *)

Section VoicePaths.
Import Models.

Lemma rsplit_dot_head_ext (p ext : pystr) :
  DOT ∉ ext → rsplit_dot_head (p ++ DOT :: ext) = p.
Proof.
  intros Hext. induction p as [|c p IH].
  - cbn. rewrite bool_decide_eq_true_2 by done.
    by rewrite bool_decide_eq_false_2 by done.
  - cbn [app rsplit_dot_head]. rewrite IH.
    replace (bool_decide (DOT ∈ p ++ DOT :: ext)) with true.
    { by rewrite andb_false_r. }
    symmetry. apply bool_decide_eq_true, elem_of_app. right. by left.
Qed.

Lemma basename_entry (d n : pystr) : SLASH ∉ n → basename (d ++ SLASH :: n) = n.
Proof.
  intros Hn. induction d as [|c d IH].
  - cbn. rewrite bool_decide_eq_false_2 by done.
    by rewrite bool_decide_eq_true_2 by done.
  - cbn [app basename]. rewrite bool_decide_eq_true_2; [exact IH|].
    apply elem_of_app. right. by left.
Qed.

(** The key a voice file is registered under is the voice's name. *)
Lemma stem_voice_path (n : pystr) :
  entry_name n → stem (lit "voices/" ++ n ++ lit ".pt") = n.
Proof.
  intros [Hne Hs]. unfold stem.
  change (lit "voices/" ++ n ++ lit ".pt")
    with (lit "voices" ++ SLASH :: (n ++ lit ".pt")).
  rewrite basename_entry; cycle 1.
  { intros H. apply elem_of_app in H as [H|H]; [done|].
    revert H. by apply (bool_decide_unpack _). }
  change (n ++ lit ".pt") with (n ++ DOT :: lit "pt").
  rewrite rsplit_dot_head_ext by (by apply (bool_decide_unpack _)).
  rewrite bool_decide_eq_false_2 by done.
  rewrite bool_decide_eq_false_2; [done|].
  rewrite length_app. cbn. lia.
Qed.

Lemma voice_path_canon (voice_name : pystr) :
  canon (voice_path_of voice_name) = voice_path_of voice_name.
Proof. reflexivity. Qed.

Lemma voice_path_outside (voice_name : pystr) :
  remove_pt voice_name ++ lit ".pt" ∉ VOICE_FILES →
  ¬ store_area (voice_path_of voice_name).
Proof.
  intros Hout [H|[H|[H|[(f & Hf & H)|H]]]]; try discriminate H.
  apply app_inv_head in H. by subst f.
Qed.

End VoicePaths.

Section LoadVoice.
Import Models.

Variable w : hub_world.

Lemma patched_load_voice_returns (self : KPipeline) (voice_path : pystr)
    (st st' : state) (v : voice_model) :
  patched_load_voice w self voice_path st = (Ok v, st') →
  path_exists (fs st) voice_path = true
  ∧ fs st' = fs st
  ∧ on_device v = device self
  ∧ _pipeline st'
    = (λ p, {| device := device p; voices := <[stem voice_path := v]> (voices p) |})
        <$> _pipeline st.
Proof.
  unfold patched_load_voice. intros H.
  apply bind_inv_ok in H as (found & st1 & Hf & H). injection Hf as <- <-.
  destruct (path_exists (fs st) voice_path) eqn:E; [|done]. cbn [negb] in H.
  destruct (torch_load w voice_path) as [[voice|]|e]; try done.
  by injection H as <- <-.
Qed.

(** The steps of [load_voice] between the build of the pipeline and the
    loading of the weights leave the pipeline alone. *)
Lemma keeps_pipeline_fetch_missing (voice_path : pystr) (found : bool) :
  keeps_pipeline
    (if negb found then
       _ ← download_voice_files w false;
       again ← os_path_exists voice_path;
       if negb again then raise (ValueError voice_path) else mret ()
     else mret () : M state ()).
Proof.
  destruct found; cbn [negb]; [apply keeps_pipeline_ret|].
  apply keeps_pipeline_bind; [apply keeps_pipeline_download_voice_files|intros _].
  apply keeps_pipeline_bind; [apply keeps_pipeline_os_path_exists|intros again].
  destruct (negb again); [apply keeps_pipeline_raise|apply keeps_pipeline_ret].
Qed.

End LoadVoice.

(** X9. A voice that loads is registered: when [load_voice] returns for a
    voice name that is, any [.pt] removed, a plain file name (not empty, no
    separator), the voice file is on disk, and the cached pipeline holds the
    weights it returns under that name, moved to the pipeline's device. That
    device is the one the pipeline was built with: with a pipeline cached,
    the [device] argument is ignored. (For a name with a directory part the
    key is the last part of it alone, the stem of the path.) *)
Theorem loaded_voice_is_registered
    (w : Models.hub_world) (voice_name dev : pystr) (st st' : Models.state)
    (v : Models.voice_model) :
  entry_name (Models.remove_pt voice_name) →
  Models.load_voice w voice_name dev st = (Ok v, st') →
  ∃ p,
    Models._pipeline st' = Some p
    ∧ Models.voices p !! Models.remove_pt voice_name = Some v
    ∧ Models.on_device v = Models.device p
    ∧ (∀ cached, Models._pipeline st = Some cached →
         Models.device p = Models.device cached)
    ∧ path_exists (Models.fs st') (voice_path_of voice_name) = true.
Proof.
  intros Hname H. unfold Models.load_voice in H.
  apply bind_inv_ok in H as (pipeline & st1 & Hbuild & H).
  apply bind_inv_ok in H as (found & st2 & Hfound & H).
  apply bind_inv_ok in H as ([] & st3 & Hfetch & H).
  pose proof (build_model_pipeline w (lit "kokoro-v1_0.pth") dev st) as Hb.
  rewrite Hbuild in Hb. destruct Hb as [Hp1 Hcached].
  assert (Hk : Models._pipeline st3 = Models._pipeline st2).
  { change st3 with (Ok (), st3).2. rewrite <- Hfetch.
    apply (keeps_pipeline_fetch_missing w _ found). }
  injection Hfound as _ <-. cbn [Models._pipeline Models.log] in Hk.
  apply patched_load_voice_returns in H as (Hex & Hfs & Hdev & Hp).
  rewrite Hk, Hp1, stem_voice_path in Hp by done. cbn in Hp.
  eexists. split; [exact Hp|]. cbn. split; [by rewrite lookup_insert_eq|].
  split; [done|]. split.
  - intros cached Hc. by destruct (Hcached cached Hc) as [-> _].
  - unfold voice_path_of. by rewrite Hfs.
Qed.

Lemma loaded_voice_is_registered_witness :
  ∃ p,
    Models._pipeline
      (Models.load_voice Examples.offline (lit "af_bella.pt") (lit "cuda") Examples.ready).2
    = Some p
    ∧ Models.voices p !! lit "af_bella" = Some Examples.cpu_voice
    ∧ Models.device p = lit "cpu".
Proof.
  assert (E : Models.load_voice Examples.offline (lit "af_bella.pt") (lit "cuda")
                Examples.ready
              = (Ok Examples.cpu_voice,
                 (Models.load_voice Examples.offline (lit "af_bella.pt") (lit "cuda")
                    Examples.ready).2))
    by (vm_compute; reflexivity).
  assert (Hname : entry_name (Models.remove_pt (lit "af_bella.pt"))).
  { split; [done|]. by apply (bool_decide_unpack _). }
  destruct (loaded_voice_is_registered _ _ _ _ _ _ Hname E) as (p & Hp & Hv & _ & Hc & _).
  exists p. split; [exact Hp|]. split; [exact Hv|]. exact (Hc _ eq_refl).
Defined.

(** *** Working without the network *)

Section Quiet.
Import Models.

Variable w : hub_world.

(** [st'] comes after [st] without a fetch and with the same files. *)
Local Abbreviation quiet := (λ st st' : state,
  fs st' = fs st ∧ ∃ new, trace st' = trace st ++ new ∧ fetches_nothing new).

Lemma quiet_refl (st : state) : quiet st st.
Proof.
  split; [done|]. exists []. rewrite app_nil_r. split; [done|].
  intros a Ha. by apply elem_of_nil in Ha.
Qed.

Lemma quiet_trans (st1 st2 st3 : state) : quiet st1 st2 → quiet st2 st3 → quiet st1 st3.
Proof.
  intros [F1 (n1 & T1 & Q1)] [F2 (n2 & T2 & Q2)]. split; [congruence|].
  exists (n1 ++ n2). split; [by rewrite T2, T1, app_assoc|].
  intros a Ha. apply elem_of_app in Ha as [Ha|Ha]; [by apply (Q1 a)|by apply (Q2 a)].
Qed.

Lemma quiet_log (st : state) (a : pystr) (found : bool) :
  quiet st (log (EvExists a found) st).
Proof.
  split; [done|]. exists [EvExists a found]. split; [done|].
  intros b Hb. by apply list_elem_of_singleton in Hb.
Qed.

Lemma quiet_bind {A B} (m : M state A) (f : A → M state B) (st : state) :
  quiet st (m st).2 →
  (∀ a st1, m st = (Ok a, st1) → quiet st1 (f a st1).2) →
  quiet st ((m ≫= f) st).2.
Proof.
  intros Hm Hf. unfold mbind, M_bind.
  destruct (m st) as [[a|e] st1] eqn:E; [|done].
  eapply quiet_trans; [exact Hm|by apply Hf].
Qed.

Lemma quiet_os_path_exists (p : pystr) (st : state) : quiet st (os_path_exists p st).2.
Proof. apply quiet_log. Qed.

Lemma quiet_ensure_artifact (path filename failure : pystr) (st : state) :
  path_exists (fs st) path = true →
  quiet st (ensure_artifact w path filename failure st).2.
Proof.
  intros H. unfold ensure_artifact.
  erewrite bind_ok; [|unfold os_path_exists; by rewrite H]. apply quiet_log.
Qed.

Lemma quiet_build_model (model_path dev : pystr) (st : state) :
  _pipeline st ≠ None
  ∨ (path_exists (fs st) model_path = true
     ∧ path_exists (fs st) (lit "config.json") = true) →
  quiet st (build_model w model_path dev st).2.
Proof.
  intros H. unfold build_model. erewrite bind_ok; [|reflexivity].
  destruct (_pipeline st) as [cached|]; [apply quiet_refl|].
  destruct H as [?|[Hm Hc]]; [done|].
  unfold try_except.
  match goal with
  | |- context [(?m ≫= ?f) st] =>
      pose proof (quiet_bind m f st) as Hq; destruct ((m ≫= f) st) as [[p|e] st1]
  end; apply Hq; clear Hq.
  all: try (by apply quiet_ensure_artifact).
  all: intros r1 st1' Hr1;
    pose proof (quiet_ensure_artifact model_path (lit "kokoro-v1_0.pth")
                  (lit "Failed to download model file.") st Hm) as [Hfs1 _];
    rewrite Hr1 in Hfs1; cbn in Hfs1;
    apply quiet_bind; [apply quiet_ensure_artifact; by rewrite Hfs1|];
    intros r2 st2 _; unfold new_pipeline;
    destruct (kpipeline_init_fails w); [apply quiet_refl|];
    split; [done|]; exists []; rewrite app_nil_r; split; [done|];
    intros a Ha; by apply elem_of_nil in Ha.
Qed.

Lemma quiet_patched_load_voice (self : KPipeline) (voice_path : pystr) (st : state) :
  quiet st (patched_load_voice w self voice_path st).2.
Proof.
  unfold patched_load_voice. apply quiet_bind; [apply quiet_os_path_exists|].
  intros found st1 _. destruct (negb found); [apply quiet_refl|].
  destruct (torch_load w voice_path) as [[voice|]|e]; try apply quiet_refl.
  split; [done|]. exists []. rewrite app_nil_r. split; [done|].
  intros a Ha. by apply elem_of_nil in Ha.
Qed.

(** With the pipeline cached or buildable from the disk, and the voice
    file on disk, [load_voice] fetches nothing and writes nothing. *)
Lemma load_voice_quiet (voice_name dev : pystr) (st : state) :
  _pipeline st ≠ None
  ∨ (path_exists (fs st) (lit "kokoro-v1_0.pth") = true
     ∧ path_exists (fs st) (lit "config.json") = true) →
  path_exists (fs st) (voice_path_of voice_name) = true →
  quiet st (load_voice w voice_name dev st).2.
Proof.
  intros Hbuild Hvoice. unfold load_voice.
  apply quiet_bind; [by apply quiet_build_model|]. intros pipeline st1 Hb.
  pose proof (quiet_build_model (lit "kokoro-v1_0.pth") dev st Hbuild) as [Hfs1 _].
  rewrite Hb in Hfs1. cbn in Hfs1.
  erewrite bind_ok; cycle 1.
  { unfold os_path_exists. rewrite Hfs1.
    unfold voice_path_of in Hvoice. rewrite Hvoice. reflexivity. }
  cbn [negb]. erewrite bind_ok; [|reflexivity].
  eapply quiet_trans; [apply quiet_log|]. apply quiet_patched_load_voice.
Qed.

End Quiet.

(** X10. With its artifacts on disk the store works without the network:
    when the pipeline is cached, or the model and [config.json] are on disk,
    and the voice file is on disk, [load_voice] fetches nothing and leaves
    every file as it is, whether it then returns the voice or raises. *)
Theorem load_voice_on_disk_fetches_nothing
    (w : Models.hub_world) (voice_name dev : pystr) (st : Models.state) :
  Models._pipeline st ≠ None
  ∨ (path_exists (Models.fs st) (lit "kokoro-v1_0.pth") = true
     ∧ path_exists (Models.fs st) (lit "config.json") = true) →
  path_exists (Models.fs st) (voice_path_of voice_name) = true →
  let st' := (Models.load_voice w voice_name dev st).2 in
  Models.fs st' = Models.fs st
  ∧ ∃ new, Models.trace st' = Models.trace st ++ new ∧ fetches_nothing new.
Proof. intros Hbuild Hvoice. by apply load_voice_quiet. Qed.

Lemma load_voice_on_disk_fetches_nothing_witness :
  Models.fs (Models.load_voice Cases.online (lit "af_bella") (lit "cpu") Examples.ready).2
  = Models.fs Examples.ready.
Proof.
  apply (load_voice_on_disk_fetches_nothing Cases.online (lit "af_bella") (lit "cpu")
           Examples.ready).
  - by left.
  - reflexivity.
Defined.

(** X11. Only the voices of [VOICE_FILES] can be fetched: a voice with a
    plain name (any [.pt] removed: not empty, no separator, so that its path
    is no other spelling of a listed file's) that is neither on disk nor in
    that list cannot be loaded, whatever the hub serves; [load_voice] raises
    for it. This is on a file system that tells names apart exactly, as the
    embedding does; where case is ignored, a listed name in other case is
    found once the listed file is fetched. *)
Theorem unlisted_voice_cannot_be_loaded
    (w : Models.hub_world) (voice_name dev : pystr) (st : Models.state) :
  entry_name (Models.remove_pt voice_name) →
  Models.remove_pt voice_name ++ lit ".pt" ∉ Models.VOICE_FILES →
  path_exists (Models.fs st) (voice_path_of voice_name) = false →
  ∃ e, (Models.load_voice w voice_name dev st).1 = Raise e.
Proof.
  intros _ Hout Hmissing.
  assert (Hframe : ∀ {A} (m : M Models.state A) s,
            writes_within store_area m →
            path_exists (Models.fs s) (voice_path_of voice_name) = false →
            path_exists (Models.fs (m s).2) (voice_path_of voice_name) = false).
  { intros A m s Hm Hs. unfold path_exists, fs_node in *.
    rewrite Hm; [done|]. rewrite voice_path_canon. by apply voice_path_outside. }
  unfold Models.load_voice, mbind, M_bind.
  pose proof (Hframe _ _ st (writes_within_build_model w (lit "kokoro-v1_0.pth") dev)
                Hmissing) as H1.
  destruct (Models.build_model w (lit "kokoro-v1_0.pth") dev st) as [[pipeline|e] st1];
    [|by exists e].
  cbn [snd] in H1. unfold Models.os_path_exists at 1. cbv beta iota zeta.
  fold (voice_path_of voice_name). rewrite H1. cbn [negb].
  pose proof (Hframe _ _ (Models.log (Models.EvExists (canon (voice_path_of voice_name)) false) st1)
                (writes_within_download_voice_files w false) H1) as H2.
  destruct (Models.download_voice_files w false _) as [[voices|e] st2]; [|by exists e].
  cbn [snd] in H2. unfold Models.os_path_exists at 1. cbv beta iota zeta.
  rewrite H2. cbn [negb]. by eexists.
Qed.

Lemma unlisted_voice_cannot_be_loaded_witness :
  ∃ e,
    (Models.load_voice Cases.online (lit "xx_custom") (lit "cpu") Examples.ready).1
    = Raise e.
Proof.
  apply (unlisted_voice_cannot_be_loaded Cases.online (lit "xx_custom") (lit "cpu")
           Examples.ready).
  - split; [done|]. by apply (bool_decide_unpack _).
  - by apply (bool_decide_unpack _).
  - reflexivity.
Defined.

(** *** The voices on offer *)

Section Listing.
Import Models.

Lemma startswith_inv (s p : pystr) : startswith s p = true → ∃ r, s = p ++ r.
Proof.
  revert s. induction p as [|c p IH]; intros s H; [by exists s|].
  destruct s as [|d s]; [done|]. cbn in H.
  apply andb_true_iff in H as [Hc Hs]. apply bool_decide_eq_true in Hc. subst d.
  destruct (IH s Hs) as [r ->]. by exists r.
Qed.

Lemma endswith_inv (s p : pystr) : endswith s p = true → ∃ m, s = m ++ p.
Proof.
  unfold endswith. intros H. apply startswith_inv in H as [r Hr].
  exists (reverse r). apply (inj reverse). by rewrite reverse_app, reverse_involutive.
Qed.

Lemma endswith_app (m p : pystr) : endswith (m ++ p) p = true.
Proof. unfold endswith. rewrite reverse_app. apply startswith_app. Qed.

Lemma entry_name_pt (n : pystr) : entry_name n → entry_name (n ++ lit ".pt").
Proof.
  intros [Hne Hs]. split; [by destruct n|].
  intros H. apply elem_of_app in H as [H|H]; [done|].
  revert H. by apply (bool_decide_unpack _).
Qed.

Lemma voices_path_join (name : pystr) :
  entry_name name → path_join (lit "voices") name = lit "voices/" ++ name.
Proof.
  intros Hn. unfold path_join. by rewrite entry_not_absolute by done.
Qed.

(** What [list_available_voices] returns over a directory [voices]. *)
Lemma list_available_voices_inv (st : state) :
  isdir (fs st) (lit "voices") = true →
  ∃ names,
    listdir (fs st) (lit "voices") = Ok names
    ∧ list_available_voices st
      = (Ok ((λ f, stem (path_join (lit "voices") f))
               <$> filter (λ f, endswith f (lit ".pt") = true) names),
         log (EvExists (lit "voices") true) st).
Proof.
  intros Hdir. destruct (listdir_returns _ _ Hdir) as [names Hnames].
  exists names. split; [done|]. unfold list_available_voices.
  assert (Hex : path_exists (fs st) (lit "voices") = true).
  { unfold path_exists. unfold isdir in Hdir.
    by destruct (fs_node (fs st) (lit "voices")) as [[|?]|] eqn:E. }
  erewrite bind_ok; [|unfold os_path_exists; by rewrite Hex].
  cbn [negb]. erewrite bind_ok; [|reflexivity].
  cbn [fs log]. by rewrite Hnames.
Qed.

(** A voice on offer is the stem of a [.pt] entry: the whole name for the
    entry [.pt], and otherwise the name of a voice file that exists. *)
Lemma listed_voice_inv (st : state) (voices : list pystr) (n : pystr) :
  isdir (fs st) (lit "voices") = true →
  (list_available_voices st).1 = Ok voices →
  n ∈ voices →
  n = lit ".pt"
  ∨ (entry_name n ∧ path_exists (fs st) (lit "voices/" ++ n ++ lit ".pt") = true).
Proof.
  intros Hdir Hrun Hin.
  destruct (list_available_voices_inv st Hdir) as (names & Hnames & Hinv).
  rewrite Hinv in Hrun. injection Hrun as <-.
  apply list_elem_of_fmap in Hin as (name & -> & Hname).
  apply list_elem_of_filter in Hname as [Hend Hlisted].
  apply (listdir_spec _ _ _ _ Hnames) in Hlisted as [Hent Hnode].
  apply endswith_inv in Hend as [m ->].
  rewrite voices_path_join in * by done.
  destruct m as [|c m]; [by left|]. right.
  assert (Hm : entry_name (c :: m)).
  { split; [done|]. intros H. apply (proj2 Hent), elem_of_app. by left. }
  rewrite stem_voice_path by done. split; [done|].
  apply bool_decide_eq_true. exact Hnode.
Qed.

(** Every voice file of the directory is on offer. *)
Lemma voice_file_listed (st : state) (voices : list pystr) (n : pystr) :
  isdir (fs st) (lit "voices") = true →
  (list_available_voices st).1 = Ok voices →
  entry_name n →
  path_exists (fs st) (lit "voices/" ++ n ++ lit ".pt") = true →
  n ∈ voices.
Proof.
  intros Hdir Hrun Hn Hex.
  destruct (list_available_voices_inv st Hdir) as (names & Hnames & Hinv).
  rewrite Hinv in Hrun. injection Hrun as <-.
  apply list_elem_of_fmap. exists (n ++ lit ".pt"). split.
  - rewrite voices_path_join by (by apply entry_name_pt).
    by rewrite stem_voice_path.
  - apply list_elem_of_filter. split; [apply endswith_app|].
    apply (listdir_spec _ _ _ _ Hnames). split; [by apply entry_name_pt|].
    rewrite voices_path_join by (by apply entry_name_pt).
    by apply bool_decide_eq_true in Hex.
Qed.

End Listing.

(** X12. The voices [list_available_voices] offers are the voice files of
    the directory [voices]: a name (not empty, without a separator) is among
    them exactly when the file [voices/<name>.pt] exists. The one name for
    which this fails is [.pt]: it is offered when there is an entry called
    [.pt], whose stem is the whole name. *)
Theorem listed_voices_are_the_voice_files
    (st : Models.state) (voices : list pystr) (voice_name : pystr) :
  isdir (Models.fs st) (lit "voices") = true →
  (Models.list_available_voices st).1 = Ok voices →
  entry_name voice_name →
  voice_name ≠ lit ".pt" →
  voice_name ∈ voices
  ↔ path_exists (Models.fs st) (lit "voices/" ++ voice_name ++ lit ".pt") = true.
Proof.
  intros Hdir Hrun Hn Hpt. split.
  - intros Hin. by destruct (listed_voice_inv st voices voice_name Hdir Hrun Hin) as [?|[_ ?]].
  - by apply voice_file_listed.
Qed.

Lemma listed_voices_are_the_voice_files_witness :
  ∃ voices,
    (Models.list_available_voices Cases.installed).1 = Ok voices
    ∧ lit "af_bella" ∈ voices.
Proof.
  eexists. split; [vm_compute; reflexivity|].
  apply (listed_voices_are_the_voice_files Cases.installed _ (lit "af_bella")).
  - reflexivity.
  - vm_compute. reflexivity.
  - split; [done|]. by apply (bool_decide_unpack _).
  - done.
  - reflexivity.
Defined.

(** X13. Every voice on offer loads without the network: for a name
    [list_available_voices] returns, with the pipeline cached or the model
    and [config.json] on disk, [load_voice] fetches nothing and leaves every
    file as it is. This needs that the name does not hold the text [.pt]
    ([load_voice] removes it from the name before it looks for the file). *)
Theorem listed_voice_loads_without_network
    (w : Models.hub_world) (dev : pystr) (st : Models.state)
    (voices : list pystr) (voice_name : pystr) :
  isdir (Models.fs st) (lit "voices") = true →
  (Models.list_available_voices st).1 = Ok voices →
  voice_name ∈ voices →
  Models.remove_pt voice_name = voice_name →
  Models._pipeline st ≠ None
  ∨ (path_exists (Models.fs st) (lit "kokoro-v1_0.pth") = true
     ∧ path_exists (Models.fs st) (lit "config.json") = true) →
  let st1 := (Models.list_available_voices st).2 in
  let st' := (Models.load_voice w voice_name dev st1).2 in
  Models.fs st' = Models.fs st
  ∧ ∃ new, Models.trace st' = Models.trace st1 ++ new ∧ fetches_nothing new.
Proof.
  intros Hdir Hrun Hin Hpt Hbuild. cbv zeta.
  destruct (listed_voice_inv st voices voice_name Hdir Hrun Hin) as [->|[Hn Hex]];
    [discriminate Hpt|].
  destruct (list_available_voices_inv st Hdir) as (names & _ & Hinv).
  rewrite Hinv. cbn [snd].
  destruct (load_voice_quiet w voice_name dev
              (Models.log (Models.EvExists (lit "voices") true) st)) as [Hfs Htr].
  - exact Hbuild.
  - unfold voice_path_of. by rewrite Hpt.
  - split; [exact Hfs|exact Htr].
Qed.

Lemma listed_voice_loads_without_network_witness :
  Models.fs
    (Models.load_voice Cases.online (lit "af_bella") (lit "cpu")
       (Models.list_available_voices Cases.installed).2).2
  = Models.fs Cases.installed.
Proof.
  apply (listed_voice_loads_without_network Cases.online (lit "cpu") Cases.installed
           [lit "af_bella"] (lit "af_bella")).
  - reflexivity.
  - vm_compute. reflexivity.
  - by left.
  - reflexivity.
  - right. split; reflexivity.
Defined.

(** *** Asking twice *)

(** X23. [download_file] is idempotent: once it has handed back a path
    (the local path, or the path the hub library returned, in its own
    spelling), the file is on disk at [local_dir/filename], and asking again
    for the same file makes the existence test and nothing else: no call of
    the hub library, whatever the hub would serve by then. What it then
    hands back is [local_dir/filename]. *)
Theorem download_file_is_idempotent
    (w w' : Models.hub_world) (repo_id filename local_dir : pystr)
    (st st' : Models.state) (p : pystr) :
  Models.download_file w repo_id filename local_dir st = (Ok p, st') →
  p ≠ [] →
  path_exists (Models.fs st') (path_join local_dir filename) = true
  ∧ Models.download_file w' repo_id filename local_dir st'
    = (Ok (path_join local_dir filename),
       Models.log (Models.EvExists (canon (path_join local_dir filename)) true) st').
Proof.
  intros H Hp. apply download_file_returns in H as [->|Hex]; [done|].
  split; [done|]. by apply download_file_present.
Qed.

Lemma download_file_is_idempotent_witness :
  (Models.download_file Cases.online Models.REPO_ID (lit "config.json") (lit ".")
     Cases.bare).1
  = Ok (lit "/home/user/kokoro/config.json")
  ∧ (Models.download_file Examples.offline Models.REPO_ID (lit "config.json") (lit ".")
       (Models.download_file Cases.online Models.REPO_ID (lit "config.json") (lit ".")
          Cases.bare).2).1
    = Ok (lit "./config.json").
Proof.
  assert (E : Models.download_file Cases.online Models.REPO_ID (lit "config.json")
                (lit ".") Cases.bare
              = (Ok (lit "/home/user/kokoro/config.json"),
                 (Models.download_file Cases.online Models.REPO_ID (lit "config.json")
                    (lit ".") Cases.bare).2))
    by (vm_compute; reflexivity).
  split; [by rewrite E|].
  destruct (download_file_is_idempotent Cases.online Examples.offline
              Models.REPO_ID (lit "config.json") (lit ".") Cases.bare _ _ E)
    as [_ H]; [done|].
  by rewrite H.
Defined.

(** ** The synthesis engine (tts_wrapper.py) *)

Section Synthesis.
Import TtsWrapper.

Variable w : world.
Variable self : KokoroTTSWrapper.

Lemma save_audio_ok (audio : tensor) (p : pystr) (st : state) :
  sf_write_fails w p (lit "WAV") = false →
  save_audio w audio p (lit "WAV") st = (Ok p, saved audio p st).
Proof.
  intros Hw. unfold save_audio. apply try_except_ok.
  erewrite bind_ok; [reflexivity|].
  unfold sf_write. replace (upper (lit "WAV")) with (lit "WAV") by reflexivity.
  by rewrite Hw.
Qed.



(** The loop over a stretch of the sequence that carries no audio does
    nothing. *)
Lemma synthesize_loop_silent (ts : pystr) (items : list raw_item) (i : nat)
    (acc : list chunk * list tensor) (st : state) :
  non_empty items = [] →
  synthesize_loop w self ts items i acc st = (Ok acc, st).
Proof.
  revert i. induction items as [|item items IH]; intros i Hne; [done|].
  unfold non_empty in Hne. rewrite filter_cons in Hne.
  destruct (decide (is_Some (audio_tensor item))) as [Hs|Hn]; [done|].
  cbn [synthesize_loop].
  destruct (audio_tensor item) as [a|] eqn:Ea; [exfalso; apply Hn; eauto|].
  erewrite bind_ok; [|reflexivity]. by apply IH.
Qed.

(** With every write going through, the loop adds one chunk and one tensor
    per segment that carries audio. *)
Lemma synthesize_loop_ok (ts : pystr) (items : list raw_item) (i : nat)
    (acc : list chunk * list tensor) (st : state) :
  (∀ p, sf_write_fails w p (lit "WAV") = false) →
  ∃ chunks audios st',
    synthesize_loop w self ts items i acc st
      = (Ok (acc.1 ++ chunks, acc.2 ++ audios), st')
    ∧ length chunks = length (non_empty items)
    ∧ length audios = length (non_empty items)
    ∧ models st' = Models.set_fs (λ _, files st') (models st).
Proof.
  intros Hw. revert i acc st.
  induction items as [|item items IH]; intros i acc st.
  { exists [], [], st. rewrite !app_nil_r. repeat split; try done.
    - by destruct acc.
    - unfold files, Models.set_fs. by destruct (models st). }
  cbn [synthesize_loop]. unfold non_empty. rewrite filter_cons.
  destruct (audio_tensor item) as [a|] eqn:Ea.
  - rewrite decide_True by eauto.
    set (p := path_join (temp_dir self) (chunk_filename ts i)).
    set (acc' := (acc.1 ++ [(gs item, ps item, a, p)], acc.2 ++ [a])).
    destruct (IH (S i) acc' (saved a p st)) as (chunks & audios & st' & Hrun & Hc & Ha & Hm).
    exists ((gs item, ps item, a, p) :: chunks), (a :: audios), st'.
    split; [|split; [|split]].
    + erewrite bind_ok; cycle 1.
      { erewrite bind_ok; [reflexivity|]. by apply save_audio_ok. }
      rewrite Hrun. subst acc'. cbn [fst snd]. by rewrite <- !app_assoc.
    + cbn. by rewrite Hc.
    + cbn. by rewrite Ha.
    + rewrite Hm. unfold saved, set_models, Models.set_fs. by cbn.
  - rewrite decide_False by (intros [? ?]; done).
    destruct (IH (S i) acc st) as (chunks & audios & st' & Hrun & Hc & Ha & Hm).
    exists chunks, audios, st'. split; [|done].
    erewrite bind_ok; [|reflexivity]. exact Hrun.
Qed.

End Synthesis.

Section SynthesisClaims.
Import TtsWrapper.

Variable w : world.
Variable self : KokoroTTSWrapper.
Variables (text : pystr) (speed : Q) (selected_voice : pystr).

Local Abbreviation raw_sequence := (raw_sequence w self text speed selected_voice).
Local Abbreviation voice_loaded := (voice_loaded w).

Lemma synthesize_unfold (st : state) (v : Models.voice_model) (m' : Models.state) :
  Models.load_voice (hub w) selected_voice (device self) (models st) = (Ok v, m') →
  synthesize w self text speed selected_voice st
  = try_except
      (acc ← synthesize_loop w self (strftime w) (yields raw_sequence) 0 ([], []);
       _ ← match fault raw_sequence with
           | Some e => raise e
           | None => mret ()
           end;
       let '(synthesis_result_list, all_audio_tensors) := acc in
       if bool_decide (all_audio_tensors ≠ []) then
         _ ← save_audio w (concat all_audio_tensors)
               (path_join (temp_dir self) (combined_filename (strftime w))) (lit "WAV");
         mret (synthesis_result_list,
               Some (path_join (temp_dir self) (combined_filename (strftime w))))
       else mret ([], None))
      (λ e, raise e) (voice_loaded m').
Proof.
  intros Hload. unfold synthesize.
  erewrite bind_ok; [|reflexivity].
  unfold try_except at 1. unfold mbind at 1, M_bind at 1.
  unfold in_models. cbn [models set_timestamp]. rewrite Hload.
  reflexivity.
Qed.

End SynthesisClaims.

(** C1, as the code has it. A synthesis call whose voice loads and whose raw
    synthesis sequence runs to its end without a single segment carrying
    audio returns the empty chunk list and no combined path; it does not
    raise. (A sequence that raises before its end makes [synthesize] raise,
    with or without audio before.) *)
Theorem synthesize_without_audio_returns_empty
    (w : TtsWrapper.world) (self : TtsWrapper.KokoroTTSWrapper)
    (text : pystr) (speed : Q) (selected_voice : pystr)
    (st : TtsWrapper.state) (v : Models.voice_model) (m' : Models.state) :
  Models.load_voice (TtsWrapper.hub w) selected_voice (TtsWrapper.device self)
    (TtsWrapper.models st) = (Ok v, m') →
  TtsWrapper.fault (raw_sequence w self text speed selected_voice) = None →
  TtsWrapper.non_empty
    (TtsWrapper.yields (raw_sequence w self text speed selected_voice)) = [] →
  TtsWrapper.synthesize w self text speed selected_voice st
  = (Ok ([], None), voice_loaded w m').
Proof.
  intros Hload Hfault Hsilent.
  rewrite (synthesize_unfold w self text speed selected_voice st v m' Hload).
  apply try_except_ok.
  erewrite bind_ok; [|by apply synthesize_loop_silent].
  rewrite Hfault. reflexivity.
Qed.

(** C2, as the code has it. A synthesis call whose voice loads, whose raw
    synthesis sequence runs to its end with at least one segment carrying
    audio, and whose audio writes all succeed returns a chunk list as long as
    the sequence has segments with audio, together with a combined path, and
    that path is a file when the call returns. *)
Theorem synthesize_returns_chunks_and_combined
    (w : TtsWrapper.world) (self : TtsWrapper.KokoroTTSWrapper)
    (text : pystr) (speed : Q) (selected_voice : pystr)
    (st : TtsWrapper.state) (v : Models.voice_model) (m' : Models.state) :
  Models.load_voice (TtsWrapper.hub w) selected_voice (TtsWrapper.device self)
    (TtsWrapper.models st) = (Ok v, m') →
  TtsWrapper.fault (raw_sequence w self text speed selected_voice) = None →
  TtsWrapper.non_empty
    (TtsWrapper.yields (raw_sequence w self text speed selected_voice)) ≠ [] →
  (∀ p, TtsWrapper.sf_write_fails w p (lit "WAV") = false) →
  ∃ chunks combined_path st',
    TtsWrapper.synthesize w self text speed selected_voice st
      = (Ok (chunks, Some combined_path), st')
    ∧ length chunks
      = length (TtsWrapper.non_empty
                  (TtsWrapper.yields (raw_sequence w self text speed selected_voice)))
    ∧ isfile (TtsWrapper.files st') combined_path = true.
Proof.
  intros Hload Hfault Haudio Hw.
  rewrite (synthesize_unfold w self text speed selected_voice st v m' Hload).
  destruct (synthesize_loop_ok w self (TtsWrapper.strftime w)
              (TtsWrapper.yields (raw_sequence w self text speed selected_voice))
              0 ([], []) (voice_loaded w m') Hw)
    as (chunks & audios & st1 & Hrun & Hc & Ha & _).
  cbn [fst snd app] in Hrun.
  set (combined := path_join (TtsWrapper.temp_dir self)
                     (TtsWrapper.combined_filename (TtsWrapper.strftime w))).
  exists chunks, combined, (saved (concat audios) combined st1).
  split; [|split; [done|]].
  - apply try_except_ok.
    erewrite bind_ok; [|exact Hrun].
    rewrite Hfault. erewrite bind_ok; [|reflexivity].
    rewrite bool_decide_eq_true_2; cycle 1.
    { intros ->. apply Haudio. by apply nil_length_inv. }
    erewrite bind_ok; [reflexivity|]. by apply save_audio_ok.
  - unfold saved, TtsWrapper.files. cbn. apply isfile_fs_write.
Qed.

Lemma synthesize_without_audio_returns_empty_witness :
  ∃ st',
    TtsWrapper.synthesize (Examples.call [Examples.silent] false) Examples.wrapper
      (lit "...") 1 (lit "af_bella") Examples.idle
    = (Ok ([], None), st').
Proof.
  eexists.
  eapply (synthesize_without_audio_returns_empty
            (Examples.call [Examples.silent] false) Examples.wrapper
            (lit "...") 1 (lit "af_bella") Examples.idle).
  - vm_compute. reflexivity.
  - reflexivity.
  - reflexivity.
Defined.

Lemma synthesize_returns_chunks_and_combined_witness :
  ∃ chunks combined_path st',
    TtsWrapper.synthesize
      (Examples.call [Examples.spoken; Examples.silent; Examples.spoken] false)
      Examples.wrapper (lit "Hello world.") 1 (lit "af_bella") Examples.idle
    = (Ok (chunks, Some combined_path), st')
    ∧ length chunks = 2%nat
    ∧ isfile (TtsWrapper.files st') combined_path = true.
Proof.
  eapply (synthesize_returns_chunks_and_combined
            (Examples.call [Examples.spoken; Examples.silent; Examples.spoken] false)
            Examples.wrapper (lit "Hello world.") 1 (lit "af_bella") Examples.idle).
  - vm_compute. reflexivity.
  - reflexivity.
  - vm_compute. discriminate.
  - intros p. reflexivity.
Defined.

(** C1, as stated, fails where the raw sequence breaks off: the voice
    loads, the sequence yields one segment without audio and then raises, so
    that it has yielded no audio chunk at all, and [synthesize] raises what
    the sequence raised instead of returning the empty result. *)
Lemma synthesize_raises_when_sequence_breaks :
  (Models.load_voice (TtsWrapper.hub (Cases.breaking [Examples.silent]))
     (lit "af_bella") (TtsWrapper.device Examples.wrapper)
     (TtsWrapper.models Examples.idle)).1
  = Ok Examples.cpu_voice
  ∧ TtsWrapper.non_empty
      (TtsWrapper.yields
         (raw_sequence (Cases.breaking [Examples.silent]) Examples.wrapper
            (lit "...") 1 (lit "af_bella")))
    = []
  ∧ (TtsWrapper.synthesize (Cases.breaking [Examples.silent]) Examples.wrapper
       (lit "...") 1 (lit "af_bella") Examples.idle).1
    = Raise (RuntimeError (lit "espeak")).
Proof. vm_compute. repeat split. Qed.

(** C2, as stated, fails where the audio write raises: the raw sequence
    yields a segment with audio, and [synthesize] raises instead of
    returning a chunk list and a combined path. *)
Lemma synthesize_raises_when_write_fails :
  length (TtsWrapper.non_empty [Examples.spoken]) = 1%nat
  ∧ (TtsWrapper.synthesize (Examples.call [Examples.spoken] true) Examples.wrapper
       (lit "Hello world.") 1 (lit "af_bella") Examples.idle).1
    = Raise (OSError (lit "outputs/temp_audio/chunk_20240101_120000_0.wav")).
Proof. vm_compute. split; reflexivity. Qed.

Section SynthesisReturns.
Import TtsWrapper.

Variable w : world.
Variable self : KokoroTTSWrapper.





End SynthesisReturns.

(** *** The samples written *)

Section Samples.
Import TtsWrapper.

Lemma Qtrunc_spec (q : Q) :
  ((0 <= q)%Q → 0 ≤ Qtrunc q ∧ (inject_Z (Qtrunc q) <= q)%Q ∧ (q < inject_Z (Qtrunc q) + 1)%Q)
  ∧ ((q < 0)%Q → Qtrunc q ≤ 0 ∧ (inject_Z (Qtrunc q) - 1 < q)%Q ∧ (q <= inject_Z (Qtrunc q))%Q).
Proof.
  unfold Qtrunc. destruct (Qle_bool 0 q) eqn:E.
  - apply Qle_bool_iff in E. split; [intros _|intros H; lra].
    split; [|split].
    + change 0 with (Qfloor 0). by apply Qfloor_resp_le.
    + apply Qfloor_le.
    + pose proof (Qlt_floor q) as H. rewrite inject_Z_plus in H. exact H.
  - assert (Hneg : (q < 0)%Q).
    { apply Qnot_le_lt. intros H. apply Qle_bool_iff in H. congruence. }
    split; [intros H; lra|intros _]. split; [|split].
    + change 0 with (Qceiling 0). apply Qceiling_resp_le. lra.
    + pose proof (Qceiling_lt q) as H.
      replace (Qceiling q - 1) with (Qceiling q + -1) in H by lia.
      rewrite inject_Z_plus in H. exact H.
    + apply Qle_ceiling.
Qed.

Lemma Qtrunc_range (q : Q) (n : Z) :
  (- inject_Z n <= q)%Q → (q <= inject_Z n)%Q → - n ≤ Qtrunc q ≤ n.
Proof.
  intros Hlo Hhi. unfold Qtrunc. destruct (Qle_bool 0 q) eqn:E.
  - apply Qle_bool_iff in E. split.
    + assert (0 ≤ Qfloor q) by (change 0 with (Qfloor 0); by apply Qfloor_resp_le).
      assert (0 ≤ n); [|lia].
      rewrite Zle_Qle. change (inject_Z 0) with 0%Q. lra.
    + rewrite <- (Qfloor_Z n). by apply Qfloor_resp_le.
  - assert (Hneg : (q < 0)%Q).
    { apply Qnot_le_lt. intros H. apply Qle_bool_iff in H. congruence. }
    split.
    + rewrite <- (Qceiling_Z (- n)). apply Qceiling_resp_le.
      rewrite inject_Z_opp. exact Hlo.
    + assert (Qceiling q ≤ 0)
        by (change 0 with (Qceiling 0); apply Qceiling_resp_le; lra).
      assert (0 ≤ n); [|lia].
      rewrite Zle_Qle. change (inject_Z 0) with 0%Q. lra.
Qed.

(** The [float32] product of a sample in range and 32767: in range as
    well, on the side of zero the sample is on, and off the exact product by
    1/1024 at most. *)
Lemma float32_product (x : Q) :
  (-1 <= x)%Q → (x <= 1)%Q →
  let p := float32 (x * 32767) in
  (-32767 <= p)%Q ∧ (p <= 32767)%Q
  ∧ ((0 <= x)%Q → (0 <= p)%Q) ∧ ((x <= 0)%Q → (p <= 0)%Q)
  ∧ (Qabs (p - x * 32767) <= 1 # 1024)%Q.
Proof.
  intros Hlo Hhi. cbv zeta. unfold float32.
  destruct (Qeq_dec (x * 32767) 0) as [Hz|Hnz].
  { unfold fround. rewrite (proj2 (Qeq_bool_iff _ _) Hz).
    repeat split; try lra. apply Qabs_Qle_condition. split; lra. }
  assert (Hd : last_digit 24 (-149) (x * 32767) ≤ -9).
  { apply (last_digit_le 24 (-149) _ 15); [done| |done].
    apply Qabs_Qlt_condition. change (2 ^ 15)%Q with 32768%Q. split; lra. }
  repeat split.
  - apply (fround_ge 24 (-149) _ (-32767)); [intros _; lia|].
    change (inject_Z (-32767)) with (-32767)%Q. lra.
  - apply (fround_le 24 (-149) _ 32767); [intros _; lia|].
    change (inject_Z 32767) with 32767%Q. lra.
  - intros Hx. apply (fround_ge 24 (-149) _ 0); [intros _; lia|].
    change (inject_Z 0) with 0%Q. lra.
  - intros Hx. apply (fround_le 24 (-149) _ 0); [intros _; lia|].
    change (inject_Z 0) with 0%Q. lra.
  - eapply Qle_trans; [apply fround_near|].
    assert (Hp : (2 ^ last_digit 24 (-149) (x * 32767) <= 2 ^ (-9))%Q)
      by (by apply Qpower_le_compat_l).
    change (2 ^ (-9))%Q with (1 # 512)%Q in Hp. lra.
Qed.

(** A number in the range of [int16] is what the cast keeps of it. *)
Lemma wrap_int16_small (z : Z) : -32768 ≤ z ≤ 32767 → wrap_int16 z = z.
Proof. intros Hz. unfold wrap_int16. rewrite Z.mod_small; lia. Qed.

End Samples.

(** X14. The conversion to 16-bit samples does not wrap around for audio
    in range: for audio whose samples lie in [-1, 1], every sample written
    lies in [-32767, 32767] (inside the range of [int16]), is on the side of
    zero its sample is on, and is less than 1 + 1/1024 away from the sample
    times 32767: the product is rounded to a [float32], which puts it off by
    1/1024 at most, and then truncated toward zero. As many samples are
    written as the audio has. *)
Theorem to_int16_truncates_within_range (audio : TtsWrapper.tensor) :
  Forall (λ x, (-1 <= x)%Q ∧ (x <= 1)%Q) audio →
  Forall2 (λ (x : Q) (z : Z),
             -32767 ≤ z ≤ 32767
             ∧ ((0 <= x)%Q → 0 ≤ z)
             ∧ ((x <= 0)%Q → z ≤ 0)
             ∧ (Qabs (inject_Z z - x * 32767) < 1 + (1 # 1024))%Q)
    audio (TtsWrapper.to_int16 audio).
Proof.
  induction 1 as [|x audio [Hlo Hhi] _ IH]; [constructor|].
  unfold TtsWrapper.to_int16 in *. rewrite fmap_cons. constructor; [|exact IH].
  destruct (float32_product x Hlo Hhi) as (Hpl & Hph & Hpos & Hneg & Hnear).
  set (p := float32 (x * 32767)) in *.
  assert (Hr : -32767 ≤ TtsWrapper.Qtrunc p ≤ 32767).
  { apply (Qtrunc_range p 32767); change (inject_Z 32767) with 32767%Q; lra. }
  rewrite wrap_int16_small by lia.
  destruct (Qtrunc_spec p) as [Hp0 Hp1].
  apply Qabs_Qle_condition in Hnear as [Hn1 Hn2].
  split; [done|]. split; [|split].
  - intros Hx. by destruct (Hp0 (Hpos Hx)).
  - intros Hx. specialize (Hneg Hx).
    destruct (Qlt_le_dec p 0) as [Hlt|Hge]; [by destruct (Hp1 Hlt)|].
    destruct (Hp0 Hge) as (_ & Ht & _).
    assert (inject_Z (TtsWrapper.Qtrunc p) <= inject_Z 0)%Q as Hz
      by (change (inject_Z 0) with 0%Q; lra).
    by rewrite <- Zle_Qle in Hz.
  - apply (proj2 (Qabs_Qlt_condition _ _)).
    destruct (Qlt_le_dec p 0) as [Hlt|Hge].
    + destruct (Hp1 Hlt) as (_ & Ha & Hb). split; lra.
    + destruct (Hp0 Hge) as (_ & Ha & Hb). split; lra.
Qed.

Lemma to_int16_truncates_within_range_witness :
  TtsWrapper.to_int16 [1; -1; 1 # 2; 32771 # 65536]%Q = [32767; -32767; 16383; 16385]
  ∧ Forall2 (λ (x : Q) (z : Z), -32767 ≤ z ≤ 32767)
      [1; -1; 1 # 2; 32771 # 65536]%Q
      (TtsWrapper.to_int16 [1; -1; 1 # 2; 32771 # 65536]%Q).
Proof.
  split; [by vm_compute|].
  eapply Forall2_impl.
  - apply (to_int16_truncates_within_range [1; -1; 1 # 2; 32771 # 65536]%Q).
    repeat constructor; by vm_compute.
  - intros x z H. apply H.
Defined.

(** *** Where the audio lands *)

Section SaveAudio.
Import TtsWrapper.

Variable w : world.

Lemma files_saved (audio : tensor) (p : pystr) (st : state) :
  files (saved audio p st) = fs_write (files st) p (WavFile 24000 (to_int16 audio)).
Proof. reflexivity. Qed.

Lemma sf_write_cases (path : pystr) (audio : tensor) (format : pystr) (st : state) :
  sf_write w path (to_int16 audio) format st
  = if sf_write_fails w path format then (Raise (OSError path), spoilt w path format st)
    else (Ok (), saved audio path st).
Proof. reflexivity. Qed.

(** The two ways [save_audio] returns, and the one way it raises. *)
Lemma save_audio_cases (audio : tensor) (filepath format : pystr) (st : state) :
  let fallback_path := rsplit_dot_head filepath ++ lit ".wav" in
  let st1 := spoilt w filepath (upper format) st in
  save_audio w audio filepath format st
  = if sf_write_fails w filepath (upper format) then
      if sf_write_fails w fallback_path (lit "WAV")
      then (Raise (OSError fallback_path), spoilt w fallback_path (lit "WAV") st1)
      else (Ok fallback_path, saved audio fallback_path st1)
    else (Ok filepath, saved audio filepath st).
Proof.
  cbv zeta. unfold save_audio, try_except, mbind, M_bind.
  rewrite !sf_write_cases.
  destruct (sf_write_fails w filepath (upper format)); [|done].
  rewrite sf_write_cases.
  by destruct (sf_write_fails w (rsplit_dot_head filepath ++ lit ".wav") (lit "WAV")).
Qed.

Lemma files_spoilt (p format q : pystr) (st : state) :
  q ≠ canon p → files (spoilt w p format st) !! q = files st !! q.
Proof.
  intros Hq. unfold spoilt. destruct (sf_write_leaves w p format); [|done].
  unfold files. cbn. unfold fs_write. by rewrite lookup_insert_ne.
Qed.

End SaveAudio.

(** X15. Where [save_audio] says the audio is, it is: when it returns a
    path, the file at that path holds the audio's 16-bit samples at
    24000 Hz, and every other file is as it was, apart from the two log
    files (the call is logged) and, where the write at the path asked for
    raised, from the file at that path (the write may have left a broken
    file there). The path returned is the one asked for when the write in
    the format asked for went through; otherwise it is the fallback, the
    path with its extension replaced by [.wav] (or with [.wav] added when it
    has none), written as WAV. This is for audio whose samples are below
    65536 in size. *)
Theorem save_audio_lands
    (w : TtsWrapper.world) (audio : TtsWrapper.tensor) (filepath format : pystr)
    (st st' : TtsWrapper.state) (p : pystr) :
  castable audio →
  TtsWrapper.save_audio w audio filepath format st = (Ok p, st') →
  (if TtsWrapper.sf_write_fails w filepath (TtsWrapper.upper format)
   then p = rsplit_dot_head filepath ++ lit ".wav"
        ∧ TtsWrapper.sf_write_fails w p (lit "WAV") = false
   else p = filepath)
  ∧ ∀ q, ¬ log_path q →
      (q = canon p →
       TtsWrapper.files st' !! q
       = Some (File (WavFile 24000 (TtsWrapper.to_int16 audio))))
      ∧ (q ≠ canon p → q ≠ canon filepath →
         TtsWrapper.files st' !! q = TtsWrapper.files st !! q).
Proof.
  intros _. rewrite save_audio_cases. cbv zeta.
  destruct (TtsWrapper.sf_write_fails w filepath (TtsWrapper.upper format)).
  - destruct (TtsWrapper.sf_write_fails w _ (lit "WAV")) eqn:E; [done|].
    intros [= <- <-]. split; [done|]. intros q _. rewrite files_saved.
    unfold fs_write. split.
    + intros ->. by rewrite lookup_insert_eq.
    + intros Hq Hf. rewrite lookup_insert_ne by done. by apply files_spoilt.
  - intros [= <- <-]. split; [done|]. intros q _. rewrite files_saved.
    unfold fs_write. split.
    + intros ->. by rewrite lookup_insert_eq.
    + intros Hq _. by rewrite lookup_insert_ne.
Qed.

Lemma save_audio_lands_witness :
  ∃ st',
    TtsWrapper.save_audio Cases.wav_only [1 # 2]%Q (lit "outputs/out.mp3") (lit "mp3")
      Examples.idle
    = (Ok (lit "outputs/out.wav"), st')
    ∧ TtsWrapper.files st' !! lit "outputs/out.wav" = Some (File (WavFile 24000 [16383]))
    ∧ TtsWrapper.files st' !! lit "outputs/out.mp3" = Some (File Blob)
    ∧ TtsWrapper.files st' !! lit "voices/af_bella.pt" = Some (File Blob).
Proof.
  assert (E : TtsWrapper.save_audio Cases.wav_only [1 # 2]%Q (lit "outputs/out.mp3")
                (lit "mp3") Examples.idle
              = (Ok (lit "outputs/out.wav"),
                 (TtsWrapper.save_audio Cases.wav_only [1 # 2]%Q (lit "outputs/out.mp3")
                    (lit "mp3") Examples.idle).2))
    by (vm_compute; reflexivity).
  eexists. split; [exact E|].
  assert (Hc : castable [1 # 2]%Q) by (by repeat constructor).
  destruct (save_audio_lands _ _ _ _ _ _ _ Hc E) as [_ H].
  split; [|split].
  - apply (H (lit "outputs/out.wav")); [|done].
    intros [Hl|Hl]; discriminate Hl.
  - vm_compute. reflexivity.
  - rewrite (proj2 (H (lit "voices/af_bella.pt")
                      ltac:(intros [Hl|Hl]; discriminate Hl))); [reflexivity|..];
      discriminate.
Defined.

(** *** The chunks and their files *)

Section ChunkNames.
Import TtsWrapper.

Lemma lit_inj (s1 s2 : string) : lit s1 = lit s2 → s1 = s2.
Proof.
  unfold lit. intros H.
  rewrite <- (string_of_list_ascii_of_string s1), <- (string_of_list_ascii_of_string s2).
  f_equal. revert H. generalize (list_ascii_of_string s1) (list_ascii_of_string s2).
  intros l1. induction l1 as [|a l1 IH]; intros [|b l2] H; try done.
  injection H as Hab Hl. f_equal; [|by apply IH].
  by rewrite <- (ascii_N_embedding a), <- (ascii_N_embedding b), Hab.
Qed.

(** [str] of a number tells the number. *)
Lemma str_of_nat_inj (n m : nat) : str_of_nat n = str_of_nat m → n = m.
Proof.
  unfold str_of_nat. intros H. apply lit_inj in H.
  apply (f_equal NilEmpty.uint_of_string) in H. rewrite !NilEmpty.usu in H.
  injection H as H. apply (f_equal Nat.of_uint) in H.
  by rewrite !DecimalNat.Unsigned.of_to in H.
Qed.

Lemma chunk_filename_inj (ts : pystr) (i j : nat) :
  chunk_filename ts i = chunk_filename ts j → i = j.
Proof.
  unfold chunk_filename. intros H.
  do 3 apply app_inv_head in H. apply app_inv_tail in H. by apply str_of_nat_inj.
Qed.

Lemma path_join_relative (d : pystr) (c : N) (n : pystr) :
  c ≠ SLASH → path_join d (c :: n) = dir_prefix d ++ c :: n.
Proof.
  intros Hc. unfold path_join, dir_prefix.
  replace (startswith (c :: n) [SLASH]) with false.
  - destruct (bool_decide (d = []) || endswith d [SLASH]); [done|].
    by rewrite <- app_assoc.
  - symmetry. cbn [startswith]. apply andb_false_iff. left.
    apply bool_decide_eq_false. congruence.
Qed.

(** Canonicalisation leaves alone a name that does not begin with a dot. *)
Lemma canon_app_name (x : pystr) (c : N) (n : pystr) :
  dirlike x → c ≠ DOT → canon (x ++ c :: n) = canon x ++ c :: n.
Proof.
  remember (length x) as k eqn:Hk. revert x Hk.
  induction k as [k IH] using lt_wf_ind. intros x Hk Hx Hc.
  destruct x as [|c1 [|c2 x]].
  - cbn [app canon]. destruct n as [|c' n]; [done|].
    by rewrite bool_decide_eq_false_2 by done.
  - destruct Hx as [?|[y Hy]]; [done|].
    destruct y as [|a y]; [|by destruct y]. injection Hy as ->.
    cbn. by rewrite bool_decide_eq_false_2.
  - cbn [app canon]. destruct (bool_decide (c1 = DOT) && bool_decide (c2 = SLASH)); [|done].
    apply (IH (length x)); [subst k; cbn; lia|done| |done].
    by eapply dirlike_tail2.
Qed.

Lemma canon_chunk_path (d ts : pystr) (i : nat) :
  canon (path_join d (chunk_filename ts i))
  = canon (dir_prefix d) ++ chunk_filename ts i.
Proof.
  change (chunk_filename ts i)
    with (99%N :: lit "hunk_" ++ ts ++ lit "_" ++ str_of_nat i ++ lit ".wav").
  rewrite path_join_relative by done.
  apply canon_app_name; [apply dir_prefix_dirlike|done].
Qed.

Lemma canon_combined_path (d ts : pystr) :
  canon (path_join d (combined_filename ts))
  = canon (dir_prefix d) ++ combined_filename ts.
Proof.
  change (combined_filename ts) with (99%N :: lit "ombined_" ++ ts ++ lit ".wav").
  rewrite path_join_relative by done.
  apply canon_app_name; [apply dir_prefix_dirlike|done].
Qed.

(** Two chunks of one call have different files, and none of them is the
    combined file. *)
Lemma chunk_paths_differ (d ts : pystr) (i j : nat) :
  canon (path_join d (chunk_filename ts i)) = canon (path_join d (chunk_filename ts j)) →
  i = j.
Proof.
  rewrite !canon_chunk_path. intros H. apply app_inv_head in H.
  by apply (chunk_filename_inj ts).
Qed.

Lemma chunk_path_not_combined (d ts : pystr) (i : nat) :
  canon (path_join d (chunk_filename ts i)) ≠ canon (path_join d (combined_filename ts)).
Proof.
  rewrite (canon_chunk_path d ts i), (canon_combined_path d ts). intros H.
  apply app_inv_head in H. discriminate H.
Qed.

End ChunkNames.

Section Chunks.
Import TtsWrapper.

Variable w : world.
Variable self : KokoroTTSWrapper.
Variable ts : pystr.

Lemma chunks_from_nil (i : nat) : chunks_from self ts i [] = [].
Proof. reflexivity. Qed.

Lemma chunks_from_cons (i : nat) (item : raw_item) (items : list raw_item) :
  chunks_from self ts i (item :: items)
  = match chunk_of self ts i item with
    | Some c => c :: chunks_from self ts (S i) items
    | None => chunks_from self ts (S i) items
    end.
Proof.
  unfold chunks_from. cbn [imap omap]. rewrite Nat.add_0_r.
  replace (imap ((λ k, chunk_of self ts (i + k)) ∘ S) items)
    with (imap (λ k, chunk_of self ts (S i + k)) items).
  - by destruct (chunk_of self ts i item).
  - apply imap_ext. intros k x _. cbn. f_equal. lia.
Qed.

(** As many chunks as segments with audio. *)
Lemma length_chunks_from (i : nat) (items : list raw_item) :
  length (chunks_from self ts i items) = length (non_empty items).
Proof.
  revert i. induction items as [|item items IH]; intros i; [done|].
  rewrite chunks_from_cons. unfold non_empty, chunk_of. rewrite filter_cons.
  destruct (audio_tensor item) as [a|].
  - rewrite decide_True by eauto. cbn. f_equal. apply IH.
  - rewrite decide_False by (by intros [? ?]). apply IH.
Qed.

(** Every chunk made from position [i] on carries the path of a position
    not before [i]. *)
Lemma chunks_from_paths (i : nat) (items : list raw_item) (c : chunk) :
  c ∈ chunks_from self ts i items →
  ∃ k, (i ≤ k)%nat ∧ chunk_path c = path_join (temp_dir self) (chunk_filename ts k).
Proof.
  revert i. induction items as [|item items IH]; intros i Hc.
  { by apply elem_of_nil in Hc. }
  rewrite chunks_from_cons in Hc. unfold chunk_of in Hc.
  destruct (audio_tensor item) as [a|].
  - apply elem_of_cons in Hc as [->|Hc]; [by exists i|].
    destruct (IH _ Hc) as (k & Hk & Hp). exists k. split; [lia|done].
  - destruct (IH _ Hc) as (k & Hk & Hp). exists k. split; [lia|done].
Qed.

Lemma chunks_from_NoDup (i : nat) (items : list raw_item) :
  NoDup ((λ c, canon (chunk_path c)) <$> chunks_from self ts i items).
Proof.
  revert i. induction items as [|item items IH]; intros i; [constructor|].
  rewrite chunks_from_cons. unfold chunk_of.
  destruct (audio_tensor item) as [a|]; [|apply IH].
  cbn [fmap list_fmap]. constructor; [|apply IH].
  intros Hin. apply list_elem_of_fmap in Hin as (c & Hc & Hin).
  apply chunks_from_paths in Hin as (k & Hk & Hp).
  unfold chunk_path in *. cbn [snd] in Hc. rewrite Hp in Hc.
  apply chunk_paths_differ in Hc. lia.
Qed.

(** With every write going through, the loop returns the chunks of the
    segments and has written their files, one after the other. *)
Lemma synthesize_loop_run (items : list raw_item) (i : nat)
    (acc : list chunk * list tensor) (st : state) :
  (∀ p, sf_write_fails w p (lit "WAV") = false) →
  ∃ st',
    synthesize_loop w self ts items i acc st
    = (Ok (acc.1 ++ chunks_from self ts i items,
           acc.2 ++ (chunk_audio <$> chunks_from self ts i items)), st')
    ∧ files st' = foldl write_chunk (files st) (chunks_from self ts i items).
Proof.
  intros Hw. revert i acc st.
  induction items as [|item items IH]; intros i acc st.
  { exists st. rewrite chunks_from_nil. cbn. rewrite !app_nil_r. by destruct acc. }
  cbn [synthesize_loop]. rewrite chunks_from_cons. unfold chunk_of.
  destruct (audio_tensor item) as [a|] eqn:Ea.
  - set (p := path_join (temp_dir self) (chunk_filename ts i)).
    set (acc' := (acc.1 ++ [(gs item, ps item, a, p)], acc.2 ++ [a])).
    destruct (IH (S i) acc' (saved a p st)) as (st' & Hrun & Hfiles).
    exists st'. split.
    + erewrite bind_ok; cycle 1.
      { erewrite bind_ok; [reflexivity|]. by apply save_audio_ok. }
      rewrite Hrun. subst acc'. cbn [fst snd fmap list_fmap].
      by rewrite <- !app_assoc.
    + rewrite Hfiles. reflexivity.
  - destruct (IH (S i) acc st) as (st' & Hrun & Hfiles).
    exists st'. split; [|done].
    erewrite bind_ok; [|reflexivity]. exact Hrun.
Qed.

(** Files written one after the other at different paths: each holds what
    was written to it. *)
Lemma foldl_write_chunk_lookup (chunks : list chunk) (fs : filesystem) (c : chunk) :
  NoDup ((λ c, canon (chunk_path c)) <$> chunks) →
  c ∈ chunks →
  fs_node (foldl write_chunk fs chunks) (chunk_path c)
  = Some (File (WavFile 24000 (to_int16 (chunk_audio c)))).
Proof.
  assert (Hkeep : ∀ chunks fs q,
            q ∉ (λ c, canon (chunk_path c)) <$> chunks →
            foldl write_chunk fs chunks !! q = fs !! q).
  { clear. intros chunks. induction chunks as [|c chunks IH]; intros fs q Hq; [done|].
    cbn [foldl]. rewrite IH.
    - unfold write_chunk, fs_write. apply lookup_insert_ne.
      intros Heq. apply Hq. rewrite <- Heq. by left.
    - intros H. apply Hq. by right. }
  revert fs. induction chunks as [|c' chunks IH]; intros fs Hnd Hin.
  { by apply elem_of_nil in Hin. }
  cbn [fmap list_fmap] in Hnd. apply NoDup_cons in Hnd as [Hc' Hnd].
  cbn [foldl]. apply elem_of_cons in Hin as [->|Hin]; [|by apply IH].
  unfold fs_node. rewrite Hkeep by done.
  unfold write_chunk, fs_write. by rewrite lookup_insert_eq.
Qed.

End Chunks.

Section SynthesisRun.
Import TtsWrapper.

Variable w : world.
Variable self : KokoroTTSWrapper.
Variables (text : pystr) (speed : Q) (selected_voice : pystr).

Local Abbreviation items := (yields (raw_sequence w self text speed selected_voice)).
Local Abbreviation chunks := (chunks_from self (strftime w) 0 items).
Local Abbreviation combined :=
  (path_join (temp_dir self) (combined_filename (strftime w))).

(** The audio of the chunks is the audio of the segments that carry some,
    in the order of the raw sequence. *)
Lemma chunk_audio_chunks_from (ts : pystr) (i : nat) (l : list raw_item) :
  chunk_audio <$> chunks_from self ts i l = omap audio_tensor l.
Proof.
  revert i. induction l as [|item l IH]; intros i; [done|].
  rewrite chunks_from_cons. unfold chunk_of. cbn [omap list_omap].
  destruct (audio_tensor item) as [a|]; [|apply IH].
  cbn [fmap list_fmap]. f_equal. apply IH.
Qed.

(** A whole call, the voice loaded, the sequence run to its end with some
    audio, every write going through. *)
Lemma synthesize_run (st : state) (v : Models.voice_model) (m' : Models.state) :
  Models.load_voice (hub w) selected_voice (device self) (models st) = (Ok v, m') →
  fault (raw_sequence w self text speed selected_voice) = None →
  non_empty items ≠ [] →
  (∀ p, sf_write_fails w p (lit "WAV") = false) →
  ∃ st',
    synthesize w self text speed selected_voice st = (Ok (chunks, Some combined), st')
    ∧ files st'
      = fs_write (foldl write_chunk (Models.fs m') chunks) combined
          (WavFile 24000 (to_int16 (concat (chunk_audio <$> chunks)))).
Proof.
  intros Hload Hfault Haudio Hw.
  rewrite (synthesize_unfold w self text speed selected_voice st v m' Hload).
  destruct (synthesize_loop_run w self (strftime w) items 0 ([], [])
              (voice_loaded w m') Hw) as (st1 & Hrun & Hfiles).
  cbn [fst snd app] in Hrun.
  exists (saved (concat (chunk_audio <$> chunks)) combined st1). split.
  - apply try_except_ok.
    erewrite bind_ok; [|exact Hrun].
    rewrite Hfault. erewrite bind_ok; [|reflexivity].
    rewrite bool_decide_eq_true_2; cycle 1.
    { intros Hnil. apply Haudio. apply nil_length_inv.
      rewrite <- (length_chunks_from self (strftime w) 0).
      apply (f_equal length) in Hnil. by rewrite length_fmap in Hnil. }
    erewrite bind_ok; [reflexivity|]. by apply save_audio_ok.
  - rewrite files_saved, Hfiles. reflexivity.
Qed.

End SynthesisRun.

(** X16. The chunks come back in the order of the raw sequence, named by
    their position in it: when [synthesize] returns, the voice loaded, the
    sequence run to its end with some audio, and the writes gone through,
    the chunk list holds, for each segment that carries audio and in the
    order of the sequence, the segment's graphemes, phonemes and audio and
    the path [temp_dir/chunk_<timestamp>_<k>.wav], where [k] is the position
    of the segment in the raw sequence, silent segments counted; the
    combined path is [temp_dir/combined_<timestamp>.wav]. *)
Theorem synthesize_chunks_follow_the_sequence
    (w : TtsWrapper.world) (self : TtsWrapper.KokoroTTSWrapper)
    (text : pystr) (speed : Q) (selected_voice : pystr)
    (st : TtsWrapper.state) (v : Models.voice_model) (m' : Models.state) :
  Models.load_voice (TtsWrapper.hub w) selected_voice (TtsWrapper.device self)
    (TtsWrapper.models st) = (Ok v, m') →
  TtsWrapper.fault (raw_sequence w self text speed selected_voice) = None →
  TtsWrapper.non_empty
    (TtsWrapper.yields (raw_sequence w self text speed selected_voice)) ≠ [] →
  (∀ p, TtsWrapper.sf_write_fails w p (lit "WAV") = false) →
  ∃ chunk_list st',
    TtsWrapper.synthesize w self text speed selected_voice st
    = (Ok (chunk_list,
           Some (path_join (TtsWrapper.temp_dir self)
                   (TtsWrapper.combined_filename (TtsWrapper.strftime w)))), st')
    ∧ chunk_list
      = omap id
          (imap (λ k item,
                   audio ← TtsWrapper.audio_tensor item;
                   Some (TtsWrapper.gs item, TtsWrapper.ps item, audio,
                         path_join (TtsWrapper.temp_dir self)
                           (TtsWrapper.chunk_filename (TtsWrapper.strftime w) k)))
             (TtsWrapper.yields (raw_sequence w self text speed selected_voice))).
Proof.
  intros Hload Hfault Haudio Hw.
  destruct (synthesize_run w self text speed selected_voice st v m'
              Hload Hfault Haudio Hw) as (st' & Hrun & _).
  eexists _, st'. split; [exact Hrun|]. reflexivity.
Qed.

Lemma synthesize_chunks_follow_the_sequence_witness :
  ∃ st',
    TtsWrapper.synthesize
      (Examples.call [Examples.silent; Examples.spoken] false)
      Examples.wrapper (lit "Hello world.") 1 (lit "af_bella") Examples.idle
    = (Ok ([(lit "Hello world.", lit "h@loU w3:ld", [1 # 2; -1 # 4]%Q,
             lit "outputs/temp_audio/chunk_20240101_120000_1.wav")],
           Some (lit "outputs/temp_audio/combined_20240101_120000.wav")), st').
Proof.
  destruct (synthesize_chunks_follow_the_sequence
              (Examples.call [Examples.silent; Examples.spoken] false)
              Examples.wrapper (lit "Hello world.") 1 (lit "af_bella") Examples.idle
              Examples.cpu_voice
              (Models.load_voice Examples.offline (lit "af_bella") (lit "cpu")
                 Examples.ready).2)
    as (chunk_list & st' & Hrun & Hchunks).
  - vm_compute. reflexivity.
  - reflexivity.
  - vm_compute. discriminate.
  - intros p. reflexivity.
  - exists st'. rewrite Hrun, Hchunks. reflexivity.
Defined.

(** X17. The files hold the audio they are said to hold: under the same
    conditions and for audio whose samples are below 65536 in size, when
    [synthesize] has returned, the file of every chunk of the list holds that
    chunk's samples as [int16] numbers at 24000 Hz (each the [float32]
    product of the sample and 32767, truncated toward zero, wrapped around
    where it is out of range), no chunk having overwritten another, and the
    combined file holds the samples of all the chunks' audio, concatenated in
    the order of the list, which is the audio of the raw sequence's segments
    in their order. *)
Theorem synthesized_files_hold_the_audio
    (w : TtsWrapper.world) (self : TtsWrapper.KokoroTTSWrapper)
    (text : pystr) (speed : Q) (selected_voice : pystr)
    (st : TtsWrapper.state) (v : Models.voice_model) (m' : Models.state) :
  Models.load_voice (TtsWrapper.hub w) selected_voice (TtsWrapper.device self)
    (TtsWrapper.models st) = (Ok v, m') →
  TtsWrapper.fault (raw_sequence w self text speed selected_voice) = None →
  TtsWrapper.non_empty
    (TtsWrapper.yields (raw_sequence w self text speed selected_voice)) ≠ [] →
  (∀ p, TtsWrapper.sf_write_fails w p (lit "WAV") = false) →
  castable_sequence (raw_sequence w self text speed selected_voice) →
  ∃ chunk_list combined_path st',
    TtsWrapper.synthesize w self text speed selected_voice st
    = (Ok (chunk_list, Some combined_path), st')
    ∧ (∀ c, c ∈ chunk_list →
         fs_node (TtsWrapper.files st') (chunk_path c)
         = Some (File (WavFile 24000 (TtsWrapper.to_int16 (chunk_audio c)))))
    ∧ fs_node (TtsWrapper.files st') combined_path
      = Some (File (WavFile 24000
                      (TtsWrapper.to_int16 (concat (chunk_audio <$> chunk_list)))))
    ∧ chunk_audio <$> chunk_list
      = omap TtsWrapper.audio_tensor
          (TtsWrapper.yields (raw_sequence w self text speed selected_voice)).
Proof.
  intros Hload Hfault Haudio Hw _.
  destruct (synthesize_run w self text speed selected_voice st v m'
              Hload Hfault Haudio Hw) as (st' & Hrun & Hfiles).
  eexists _, _, st'. split; [exact Hrun|]. split; [|split].
  - intros c Hc. rewrite Hfiles. unfold fs_node, fs_write.
    apply chunks_from_paths in Hc as Hp. destruct Hp as (k & _ & Hp).
    rewrite lookup_insert_ne; cycle 1.
    { rewrite Hp. intros Heq. symmetry in Heq. by apply chunk_path_not_combined in Heq. }
    apply (foldl_write_chunk_lookup _ (Models.fs m') c); [|done].
    apply chunks_from_NoDup.
  - rewrite Hfiles. unfold fs_node, fs_write. by rewrite lookup_insert_eq.
  - apply chunk_audio_chunks_from.
Qed.

Lemma synthesized_files_hold_the_audio_witness :
  ∃ st',
    (TtsWrapper.synthesize
       (Examples.call [Examples.spoken; Examples.silent; Examples.spoken] false)
       Examples.wrapper (lit "Hello world.") 1 (lit "af_bella") Examples.idle).2 = st'
    ∧ fs_node (TtsWrapper.files st')
        (lit "outputs/temp_audio/combined_20240101_120000.wav")
      = Some (File (WavFile 24000 [16383; -8191; 16383; -8191])).
Proof.
  destruct (synthesized_files_hold_the_audio
              (Examples.call [Examples.spoken; Examples.silent; Examples.spoken] false)
              Examples.wrapper (lit "Hello world.") 1 (lit "af_bella") Examples.idle
              Examples.cpu_voice
              (Models.load_voice Examples.offline (lit "af_bella") (lit "cpu")
                 Examples.ready).2)
    as (chunk_list & combined_path & st' & Hrun & _ & Hcombined & Haudio).
  - vm_compute. reflexivity.
  - reflexivity.
  - vm_compute. discriminate.
  - intros p. reflexivity.
  - by repeat constructor.
  - exists st'. split; [by rewrite Hrun|].
    assert (Hp : combined_path = lit "outputs/temp_audio/combined_20240101_120000.wav").
    { revert Hrun. vm_compute. congruence. }
    rewrite <- Hp, Hcombined, Haudio. reflexivity.
Defined.

(** *** A sequence that breaks off *)

Section BrokenSequence.
Import TtsWrapper.

(** Chunk files written one after the other leave the other files alone. *)
Lemma foldl_write_chunk_other (chunks : list chunk) (fs : filesystem) (q : pystr) :
  q ∉ (λ c, canon (chunk_path c)) <$> chunks →
  foldl write_chunk fs chunks !! q = fs !! q.
Proof.
  revert fs. induction chunks as [|c chunks IH]; intros fs Hq; [done|].
  cbn [foldl]. rewrite IH.
  - unfold write_chunk, fs_write. apply lookup_insert_ne.
    intros Heq. apply Hq. rewrite <- Heq. by left.
  - intros H. apply Hq. by right.
Qed.

End BrokenSequence.

(** X24. A sequence that breaks off leaves its chunks behind: when the
    voice loads and the writes go through but the raw sequence raises after
    the segments it yielded (their audio with samples below 65536 in size),
    [synthesize] raises that same exception; the chunk files of the segments
    yielded before are on disk, each with its samples as [int16] numbers, and
    no combined file has been written. *)
Theorem broken_sequence_leaves_its_chunks
    (w : TtsWrapper.world) (self : TtsWrapper.KokoroTTSWrapper)
    (text : pystr) (speed : Q) (selected_voice : pystr)
    (st : TtsWrapper.state) (v : Models.voice_model) (m' : Models.state) (e : exn) :
  Models.load_voice (TtsWrapper.hub w) selected_voice (TtsWrapper.device self)
    (TtsWrapper.models st) = (Ok v, m') →
  TtsWrapper.fault (raw_sequence w self text speed selected_voice) = Some e →
  (∀ p, TtsWrapper.sf_write_fails w p (lit "WAV") = false) →
  castable_sequence (raw_sequence w self text speed selected_voice) →
  ∃ st',
    TtsWrapper.synthesize w self text speed selected_voice st = (Raise e, st')
    ∧ (∀ c,
         c ∈ chunks_from self (TtsWrapper.strftime w) 0
               (TtsWrapper.yields (raw_sequence w self text speed selected_voice)) →
         fs_node (TtsWrapper.files st') (chunk_path c)
         = Some (File (WavFile 24000 (TtsWrapper.to_int16 (chunk_audio c)))))
    ∧ fs_node (TtsWrapper.files st')
        (path_join (TtsWrapper.temp_dir self)
           (TtsWrapper.combined_filename (TtsWrapper.strftime w)))
      = fs_node (Models.fs m')
          (path_join (TtsWrapper.temp_dir self)
             (TtsWrapper.combined_filename (TtsWrapper.strftime w))).
Proof.
  intros Hload Hfault Hw _.
  rewrite (synthesize_unfold w self text speed selected_voice st v m' Hload).
  destruct (synthesize_loop_run w self (TtsWrapper.strftime w)
              (TtsWrapper.yields (raw_sequence w self text speed selected_voice))
              0 ([], []) (voice_loaded w m') Hw) as (st1 & Hrun & Hfiles).
  exists st1. split; [|split].
  - erewrite try_except_raise; [reflexivity|].
    erewrite bind_ok; [|exact Hrun]. rewrite Hfault. reflexivity.
  - intros c Hc. rewrite Hfiles.
    apply foldl_write_chunk_lookup; [apply chunks_from_NoDup|done].
  - rewrite Hfiles. unfold fs_node. apply foldl_write_chunk_other.
    intros Hin. apply list_elem_of_fmap in Hin as (c & Hc & Hin).
    apply chunks_from_paths in Hin as (k & _ & Hp). rewrite Hp in Hc.
    symmetry in Hc. by apply chunk_path_not_combined in Hc.
Qed.

Lemma broken_sequence_leaves_its_chunks_witness :
  ∃ st',
    TtsWrapper.synthesize (Cases.breaking [Examples.spoken]) Examples.wrapper
      (lit "Hello world.") 1 (lit "af_bella") Examples.idle
    = (Raise (RuntimeError (lit "espeak")), st')
    ∧ fs_node (TtsWrapper.files st')
        (lit "outputs/temp_audio/chunk_20240101_120000_0.wav")
      = Some (File (WavFile 24000 [16383; -8191])).
Proof.
  destruct (broken_sequence_leaves_its_chunks
              (Cases.breaking [Examples.spoken]) Examples.wrapper
              (lit "Hello world.") 1 (lit "af_bella") Examples.idle
              Examples.cpu_voice
              (Models.load_voice Examples.offline (lit "af_bella") (lit "cpu")
                 Examples.ready).2 (RuntimeError (lit "espeak")))
    as (st' & Hrun & Hchunks & _).
  - vm_compute. reflexivity.
  - reflexivity.
  - intros p. reflexivity.
  - by repeat constructor.
  - exists st'. split; [exact Hrun|].
    apply (Hchunks (lit "Hello world.", lit "h@loU w3:ld", [1 # 2; -1 # 4]%Q,
                    lit "outputs/temp_audio/chunk_20240101_120000_0.wav")).
    by left.
Defined.

(** ** The orchestrator and the ledger (ui_main.py) *)

Lemma lstrip_blank (s : pystr) : Forall (λ c, isspace c = true) s → lstrip s = [].
Proof. induction 1 as [|c s Hc _ IH]; [done|]. cbn. by rewrite Hc. Qed.

(** The text [strip] leaves of a blank string is empty. *)
Lemma strip_blank (s : pystr) : Forall (λ c, isspace c = true) s → strip s = [].
Proof. intros H. unfold strip. rewrite (lstrip_blank s) by done. reflexivity. Qed.

Lemma lstrip_nil_blank (s : pystr) : lstrip s = [] → Forall (λ c, isspace c = true) s.
Proof.
  induction s as [|c s IH]; [constructor|]. cbn.
  destruct (isspace c) eqn:E; [|done]. intros H. constructor; auto.
Qed.

(** And only of a blank string. *)
Lemma strip_nil_blank (s : pystr) : strip s = [] → Forall (λ c, isspace c = true) s.
Proof.
  unfold strip. intros H.
  apply (f_equal reverse) in H. rewrite reverse_involutive in H. cbn in H.
  apply lstrip_nil_blank in H. apply (proj1 (Forall_reverse _ _)) in H.
  (* what [lstrip] removed was blank, and so is what it left *)
  induction s as [|c s IH]; [constructor|]. cbn in H.
  destruct (isspace c) eqn:E; [constructor; auto|].
  apply Forall_cons in H as [Hc _]. congruence.
Qed.

Section Orchestrator.
Import UiMain.

Lemma process_events_last (s : system) (q : list call) (b : bool) :
  queue s = q ++ [SynthButtonSetEnabled b] →
  synth_button_enabled (ui (process_events s)) = b.
Proof.
  intros Hq. unfold process_events. rewrite Hq, fold_left_app. reflexivity.
Qed.

(** Whatever happens in the worker, the last call it posts re-enables the
    button. *)
Lemma run_synthesis_posts_enable (w : world) (j : job) (s : system) :
  ∃ s', (run_synthesis w j s).2 = post (SynthButtonSetEnabled true) s'.
Proof.
  unfold run_synthesis, try_finally.
  destruct (try_except _ _ s) as [r s']. by exists s'.
Qed.

Lemma appends_ret {A} (a : A) : appends (mret a).
Proof. intros s. exists []. by rewrite app_nil_r. Qed.

Lemma appends_get : appends get.
Proof. intros s. exists []. by rewrite app_nil_r. Qed.

Lemma appends_bind {A B} (m : M system A) (f : A → M system B) :
  appends m → (∀ a, appends (f a)) → appends (m ≫= f).
Proof.
  intros Hm Hf s. unfold mbind, M_bind. destruct (Hm s) as [p1 H1].
  destruct (m s) as [[a|e] s1]; [|by exists p1].
  destruct (Hf a s1) as [p2 H2]. exists (p1 ++ p2).
  cbn in *. by rewrite H2, H1, app_assoc.
Qed.

Lemma appends_try_except {A} (m : M system A) (h : exn → M system A) :
  appends m → (∀ e, appends (h e)) → appends (try_except m h).
Proof.
  intros Hm Hh s. unfold try_except. destruct (Hm s) as [p1 H1].
  destruct (m s) as [[a|e] s1]; [by exists p1|].
  destruct (Hh e s1) as [p2 H2]. exists (p1 ++ p2).
  cbn in *. by rewrite H2, H1, app_assoc.
Qed.

Lemma appends_post (c : call) : appends (modify (post c)).
Proof. intros s. by exists [c]. Qed.

Lemma appends_modify (f : system → system) :
  (∀ s, queue (f s) = queue s) → appends (modify f).
Proof. intros Hf s. exists []. cbn. by rewrite Hf, app_nil_r. Qed.

Lemma appends_in_engine {A} (c : M TtsWrapper.state A) : appends (in_engine c).
Proof.
  intros s. exists []. unfold in_engine. destruct (c (engine s)). cbn.
  by rewrite app_nil_r.
Qed.

Lemma appends_show_error (w : world) (e : exn) : appends (show_error w e).
Proof.
  intros s. exists []. unfold show_error.
  destruct (show_error_fails w); cbn; by rewrite app_nil_r.
Qed.

Lemma appends_run_synthesis_try (w : world) (j : job) : appends (run_synthesis_try w j).
Proof.
  unfold run_synthesis_try.
  repeat first
    [ apply appends_get | apply appends_post | apply appends_in_engine
    | apply appends_ret
    | apply appends_modify; solve [intros; reflexivity]
    | apply appends_bind; [|intros ?]
    | match goal with
      | |- appends (match ?x with _ => _ end) => destruct x
      | |- appends (if ?b then _ else _) => destruct b
      end ].
Qed.

(** The worker adds calls to the queue, the re-enabling of the button last. *)
Lemma run_synthesis_queue (w : world) (j : job) (s : system) :
  ∃ posted,
    queue (run_synthesis w j s).2 = queue s ++ posted ++ [SynthButtonSetEnabled true].
Proof.
  unfold run_synthesis, try_finally.
  assert (Hb : appends (try_except (run_synthesis_try w j)
                          (λ e, _ ← modify (post (UpdateStatusMessage
                                                   (lit "Synthesis error.") 2000));
                                show_error w e))).
  { apply appends_try_except; [apply appends_run_synthesis_try|intros e].
    apply appends_bind; [apply appends_post|intros _; apply appends_show_error]. }
  destruct (Hb s) as [posted Hp].
  destruct (try_except _ _ s) as [r s1]. cbn in *.
  exists posted. by rewrite Hp, app_assoc.
Qed.

End Orchestrator.

(** C10. A click on Synthesize with an empty or blank text changes nothing:
    the button stays as it is, no worker thread is started, no call is
    queued, the ledger and the rest of the window are what they were. *)
Theorem blank_submission_is_noop (s : UiMain.system) :
  Forall (λ c, isspace c = true) (UiMain.text_edit (UiMain.ui s)) →
  UiMain.on_synthesize_clicked s = s.
Proof.
  intros Hblank. unfold UiMain.on_synthesize_clicked.
  by rewrite strip_blank, bool_decide_eq_true_2.
Qed.

(** C5. A click on Synthesize with a text that is not blank disables the
    button at once and starts one worker; and whenever that worker runs, and
    whether [synthesize] returns or raises in it, the last call it queues
    re-enables the button, so that the button is enabled once the UI thread
    has taken the queued calls. *)
Theorem submit_button_disabled_then_reenabled (s : UiMain.system) :
  strip (UiMain.text_edit (UiMain.ui s)) ≠ [] →
  let s1 := UiMain.on_synthesize_clicked s in
  UiMain.synth_button_enabled (UiMain.ui s1) = false
  ∧ ∃ j,
      UiMain.threads s1 = UiMain.threads s ++ [j]
      ∧ UiMain.job_text j = strip (UiMain.text_edit (UiMain.ui s))
      ∧ ∀ (w : UiMain.world) (s' : UiMain.system),
          let s2 := (UiMain.run_synthesis w j s').2 in
          (∃ posted, UiMain.queue s2
                     = UiMain.queue s' ++ posted ++ [UiMain.SynthButtonSetEnabled true])
          ∧ UiMain.synth_button_enabled (UiMain.ui (UiMain.process_events s2)) = true.
Proof.
  intros Htext. cbv zeta. unfold UiMain.on_synthesize_clicked.
  rewrite bool_decide_eq_false_2 by done. cbn.
  split; [done|]. eexists. split; [reflexivity|]. split; [reflexivity|].
  intros w s'.
  match goal with
  | |- context [UiMain.run_synthesis w ?j s'] =>
      destruct (run_synthesis_queue w j s') as [posted Hq]
  end.
  split; [by exists posted|].
  eapply process_events_last. rewrite Hq, app_assoc. reflexivity.
Qed.

Section Ledger.
Import UiMain.

(** What a worker does to the ledger: nothing when [synthesize] raises, and
    otherwise it adds the record made of what [synthesize] returned and of
    the files as they are at that moment. *)
Lemma run_synthesis_ledger (w : world) (j : job) (s : system) :
  synthesis_results (ui (run_synthesis w j s).2)
  = match engine_call w j s with
    | (Ok results, e') =>
        synthesis_results (ui s) ++ [make_record w (TtsWrapper.files e') results]
    | (Raise _, _) => synthesis_results (ui s)
    end.
Proof.
  unfold run_synthesis, try_finally, try_except, run_synthesis_try, engine_call.
  unfold mbind, M_bind, get, in_engine. cbn.
  destruct (TtsWrapper.synthesize _ _ _ _ _ (engine s)) as [[[chunk_list combined_path]|e] e'];
    cbn.
  - destruct combined_path as [p|]; cbn; [destruct (bool_decide (p ≠ [])); cbn|]; done.
  - unfold show_error. by destruct (show_error_fails w).
Qed.

Lemma fold_append_chunk (chunk_list : list TtsWrapper.chunk) (gen : GenerationRecord) :
  fold_left append_chunk chunk_list gen
  = {| timestamp := timestamp gen;
       chunks := chunks gen ++ (chunk_meta <$> chunk_list);
       combined := combined gen |}.
Proof.
  revert gen. induction chunk_list as [|c cl IH]; intros gen; cbn.
  - rewrite app_nil_r. by destruct gen.
  - rewrite IH. cbn. by rewrite <- app_assoc.
Qed.

(** The record made of a result: the time stamp, the metadata of every
    chunk in order, and the combined path if it names a file. *)
Lemma make_record_spec (w : world) (fs : filesystem)
    (chunk_list : list TtsWrapper.chunk) (combined_path : option pystr) :
  make_record w fs (chunk_list, combined_path)
  = {| timestamp := stamp_time w;
       chunks := chunk_meta <$> chunk_list;
       combined := match combined_path with
                   | Some p => if bool_decide (p ≠ []) && path_exists fs p then p else []
                   | None => []
                   end |}.
Proof. unfold make_record. by rewrite fold_append_chunk. Qed.

End Ledger.



(** C9. The record a worker adds to the ledger is made of what [synthesize]
    returned and of the files as they are when it has returned; if its
    combined field is not empty, the field is the combined path returned and
    that path exists among those files. *)
Theorem recorded_combined_path_exists
    (w : UiMain.world) (j : UiMain.job) (s : UiMain.system)
    (g : UiMain.GenerationRecord) :
  UiMain.synthesis_results (UiMain.ui (UiMain.run_synthesis w j s).2)
    = UiMain.synthesis_results (UiMain.ui s) ++ [g] →
  ∃ results e',
    TtsWrapper.synthesize (UiMain.tts w) (UiMain.tts_wrapper (UiMain.ui s))
      (UiMain.job_text j) (UiMain.job_speed j) (UiMain.job_voice j) (UiMain.engine s)
    = (Ok results, e')
    ∧ g = UiMain.make_record w (TtsWrapper.files e') results
    ∧ (UiMain.combined g ≠ [] →
       results.2 = Some (UiMain.combined g)
       ∧ path_exists (TtsWrapper.files e') (UiMain.combined g) = true).
Proof.
  rewrite run_synthesis_ledger. unfold engine_call.
  destruct (TtsWrapper.synthesize _ _ _ _ _ _) as [[results|e] e'] eqn:E.
  - intros H. apply app_inv_head in H. injection H as <-.
    exists results, e'. split; [done|]. split; [done|].
    destruct results as [chunk_list combined_path]. rewrite make_record_spec. cbn.
    destruct combined_path as [p|]; [|done].
    destruct (bool_decide (p ≠ [])); cbn; [|done].
    destruct (path_exists (TtsWrapper.files e') p) eqn:Ep; done.
  - intros H. apply (f_equal length) in H. rewrite length_app in H. cbn in H. lia.
Qed.

(** The same at the level of the record alone, on any file system: a
    combined path that does not exist is recorded as the empty string. *)
Lemma make_record_combined (w : UiMain.world) (fs : filesystem)
    (results : list TtsWrapper.chunk * option pystr) :
  let g := UiMain.make_record w fs results in
  (UiMain.combined g ≠ [] → path_exists fs (UiMain.combined g) = true)
  ∧ (∀ p, results.2 = Some p → path_exists fs p = false → UiMain.combined g = []).
Proof.
  destruct results as [chunk_list combined_path]. cbv zeta.
  rewrite make_record_spec. cbn. split.
  - destruct combined_path as [p|]; [|done].
    destruct (bool_decide (p ≠ [])); cbn; [|done].
    by destruct (path_exists fs p) eqn:Ep.
  - intros p -> Hp. rewrite Hp. by rewrite andb_false_r.
Qed.

Section Purge.
Import UiMain.

Variable w : world.

(** The removal of the chunk files touches nothing but the files, and goes
    on past a file that cannot be removed. *)
Lemma remove_chunk_files_frame (temp_dir : pystr) (names : list pystr) (s : system) :
  ∃ s', for_each names (remove_chunk_file w temp_dir) s = (Ok (), s')
        ∧ ui s' = ui s ∧ queue s' = queue s ∧ threads s' = threads s.
Proof.
  revert s. induction names as [|n names IH]; intros s; [by exists s|].
  cbn [for_each].
  assert (∃ s1, remove_chunk_file w temp_dir n s = (Ok (), s1)
                ∧ ui s1 = ui s ∧ queue s1 = queue s ∧ threads s1 = threads s)
    as (s1 & H1 & Hu & Hq & Ht).
  { unfold remove_chunk_file. destruct (startswith n (lit "chunk_")); [|by exists s].
    destruct (os_remove _ _ _); eauto. }
  destruct (IH s1) as (s' & H' & Hu' & Hq' & Ht').
  exists s'. erewrite bind_ok; [|exact H1]. by rewrite H', Hu', Hq', Ht'.
Qed.


End Purge.



(** *** Concrete runs of the orchestrator *)

Lemma blank_submission_is_noop_witness :
  UiMain.on_synthesize_clicked (Examples.typed [32; 9; 10; 160]%N)
  = Examples.typed [32; 9; 10; 160]%N.
Proof.
  apply (blank_submission_is_noop (Examples.typed [32; 9; 10; 160]%N)).
  repeat constructor.
Defined.

Lemma submit_button_disabled_then_reenabled_witness :
  let s := Examples.typed (lit "  Hello world. ") in
  let s1 := UiMain.on_synthesize_clicked s in
  UiMain.synth_button_enabled (UiMain.ui s1) = false
  ∧ ∃ j,
      UiMain.threads s1 = [j]
      ∧ UiMain.synth_button_enabled
          (UiMain.ui (UiMain.process_events
             (UiMain.run_synthesis (Examples.session [Examples.spoken] false) j s1).2))
        = true
      ∧ UiMain.synth_button_enabled
          (UiMain.ui (UiMain.process_events
             (UiMain.run_synthesis (Examples.session [Examples.spoken] true) j s1).2))
        = true.
Proof.
  cbv zeta.
  destruct (submit_button_disabled_then_reenabled
              (Examples.typed (lit "  Hello world. ")))
    as (Hoff & j & Hthreads & _ & Hrun).
  - vm_compute. discriminate.
  - split; [exact Hoff|]. exists j. split; [exact Hthreads|]. split.
    + apply (Hrun (Examples.session [Examples.spoken] false)).
    + apply (Hrun (Examples.session [Examples.spoken] true)).
Defined.

Lemma recorded_combined_path_exists_witness :
  ∃ results e',
    TtsWrapper.synthesize (Examples.call [Examples.spoken] false) Examples.wrapper
      (lit "Hello world.") 1 (lit "af_bella") Examples.idle
    = (Ok results, e')
    ∧ results.2 = Some (lit "outputs/temp_audio/combined_20240101_120000.wav")
    ∧ path_exists (TtsWrapper.files e')
        (lit "outputs/temp_audio/combined_20240101_120000.wav") = true.
Proof.
  destruct (recorded_combined_path_exists
              (Examples.session [Examples.spoken] false) Examples.hello_job
              (Examples.typed (lit "Hello world.")) Examples.recorded)
    as (results & e' & Hcall & _ & Hcombined).
  - vm_compute. reflexivity.
  - exists results, e'. split; [exact Hcall|].
    apply Hcombined. vm_compute. discriminate.
Defined.


(** A synthesis without audio leaves a record without chunks and without
    a combined path; one that raises leaves no record. *)
Example empty_synthesis_record :
  UiMain.synthesis_results
    (UiMain.ui (UiMain.run_synthesis (Examples.session [Examples.silent] false)
                  Examples.hello_job (Examples.typed (lit "Hello world."))).2)
  = [Examples.earlier;
     {| UiMain.timestamp := {| UiMain.float_repr := lit "1704110401.5" |};
        UiMain.chunks := [];
        UiMain.combined := [] |}].
Proof. vm_compute. reflexivity. Qed.

Example failed_synthesis_no_record :
  UiMain.synthesis_results
    (UiMain.ui (UiMain.run_synthesis (Examples.session [Examples.spoken] true)
                  Examples.hello_job (Examples.typed (lit "Hello world."))).2)
  = [Examples.earlier].
Proof. vm_compute. reflexivity. Qed.

(** *** What a click hands to the worker *)

Section Trimmed.

Lemma lstrip_head (s : pystr) (c : N) (r : pystr) :
  lstrip s = c :: r → isspace c = false.
Proof.
  induction s as [|d s IH]; [done|]. cbn.
  destruct (isspace d) eqn:E; [exact IH|]. by intros [= <- _].
Qed.

Lemma lstrip_suffix (s : pystr) : ∃ blanks, s = blanks ++ lstrip s.
Proof.
  induction s as [|d s [blanks IH]]; [by exists []|]. cbn.
  destruct (isspace d); [|by exists []].
  exists (d :: blanks). cbn. by f_equal.
Qed.

Lemma last_suffix {A} (l1 l2 : list A) : l2 ≠ [] → last (l1 ++ l2) = last l2.
Proof.
  intros H. destruct l2 as [|x l2 _] using rev_ind; [done|].
  by rewrite app_assoc, !last_snoc.
Qed.

(** What [strip] leaves neither begins nor ends with a blank. *)
Lemma strip_ends (s : pystr) :
  (∀ c, head (strip s) = Some c → isspace c = false)
  ∧ (∀ c, last (strip s) = Some c → isspace c = false).
Proof.
  unfold strip. rewrite head_reverse, last_reverse.
  set (t := reverse (lstrip s)). split; intros c Hc.
  - destruct (lstrip t) as [|d r] eqn:E; [done|].
    destruct (lstrip_suffix t) as [blanks Ht].
    assert (Hl : last t = Some c).
    { rewrite Ht, last_suffix, E; [done|by rewrite E]. }
    subst t. rewrite last_reverse in Hl.
    destruct (lstrip s) as [|e r'] eqn:E'; [done|].
    injection Hl as ->. by eapply lstrip_head.
  - destruct (lstrip t) as [|d r] eqn:E; [done|].
    injection Hc as ->. by eapply lstrip_head.
Qed.

End Trimmed.

(** X18. What a click hands to the worker is trimmed: the job started by
    [on_synthesize_clicked] carries the text of the text box without the
    blanks around it, a text that is not empty and neither begins nor ends
    with a blank; the speed of the spin box; and the voice of the combo box,
    or [af_bella] when that is empty or blank, so never a blank voice. *)
Theorem submitted_job_is_trimmed (s : UiMain.system) (j : UiMain.job) :
  UiMain.threads (UiMain.on_synthesize_clicked s) = UiMain.threads s ++ [j] →
  UiMain.job_text j = strip (UiMain.text_edit (UiMain.ui s))
  ∧ UiMain.job_text j ≠ []
  ∧ (∀ c, head (UiMain.job_text j) = Some c → isspace c = false)
  ∧ (∀ c, last (UiMain.job_text j) = Some c → isspace c = false)
  ∧ UiMain.job_speed j = UiMain.speed_spin (UiMain.ui s)
  ∧ UiMain.job_voice j
    = (if bool_decide (strip (UiMain.voice_combo (UiMain.ui s)) = [])
       then lit "af_bella" else UiMain.voice_combo (UiMain.ui s))
  ∧ strip (UiMain.job_voice j) ≠ [].
Proof.
  unfold UiMain.on_synthesize_clicked.
  case_bool_decide as Htext.
  { intros H. apply (f_equal length) in H. rewrite length_app in H. cbn in H. lia. }
  cbn. intros H. apply app_inv_head in H. injection H as <-. cbn.
  destruct (strip_ends (UiMain.text_edit (UiMain.ui s))) as [Hh Hl].
  repeat split; try done.
  case_bool_decide as Hvoice; [|done]. by vm_compute.
Qed.

Lemma submitted_job_is_trimmed_witness :
  ∃ j,
    UiMain.threads (UiMain.on_synthesize_clicked (Examples.typed (lit "  Hello world. ")))
    = [j]
    ∧ UiMain.job_text j = lit "Hello world.".
Proof.
  eexists. split; [reflexivity|].
  refine (proj1 (submitted_job_is_trimmed (Examples.typed (lit "  Hello world. ")) _ _)).
  reflexivity.
Defined.

(** *** The waveform widget *)

Section WaveformFacts.
Import Waveform.

Local Open Scope Q_scope.

Local Abbreviation pick := (λ m y : Q, if Qle_bool m y then y else m).

Lemma fold_pick_spec (l : list Q) (m0 : Q) :
  let r := fold_left pick l m0 in
  (r = m0 ∨ r ∈ l) ∧ m0 <= r ∧ ∀ y, y ∈ l → y <= r.
Proof.
  revert m0. induction l as [|x l IH]; intros m0; cbn.
  { split; [by left|]. split; [apply Qle_refl|]. intros y Hy. by apply elem_of_nil in Hy. }
  destruct (IH (pick m0 x)) as (Hin & Hle & Hall). cbv zeta in *.
  assert (Hm : m0 <= pick m0 x ∧ x <= pick m0 x).
  { cbv beta. destruct (Qle_bool m0 x) eqn:E.
    - apply Qle_bool_iff in E. split; [done|apply Qle_refl].
    - split; [apply Qle_refl|]. apply Qlt_le_weak, Qnot_le_lt. intros H.
      apply Qle_bool_iff in H. congruence. }
  destruct Hm as [Hm0 Hx]. split; [|split].
  - destruct Hin as [->|Hin]; [|right; by right].
    cbv beta. destruct (Qle_bool m0 x); [right; by left|by left].
  - by eapply Qle_trans.
  - intros y Hy. apply elem_of_cons in Hy as [->|Hy]; [by eapply Qle_trans|by apply Hall].
Qed.

(** [np.max] gives a value of the array that no value of it exceeds. *)
Lemma np_max_spec (values : list Q) (peak : Q) :
  np_max values = Some peak → peak ∈ values ∧ ∀ y, y ∈ values → y <= peak.
Proof.
  destruct values as [|x l]; [done|]. cbn. intros [= <-].
  destruct (fold_pick_spec l x) as (Hin & Hle & Hall). cbv zeta in *. split.
  - destruct Hin as [->|Hin]; [by left|by right].
  - intros y Hy. apply elem_of_cons in Hy as [->|Hy]; [done|by apply Hall].
Qed.

Lemma np_max_Some (values : list Q) : values ≠ [] → ∃ peak, np_max values = Some peak.
Proof. destruct values; [done|]. intros _. by eexists. Qed.

Lemma abs_int16_abs (z : Z) : (-32767 ≤ z ≤ 32767)%Z → abs_int16 z = Z.abs z.
Proof. intros H. unfold abs_int16. destruct (Z.eqb_spec z (-32768)); [lia|done]. Qed.

(** A sample divided by a peak that bounds it lies between -1 and 1. *)
Lemma normalised_sample (z p : Z) :
  (0 < p)%Z → (Z.abs z ≤ p)%Z →
  -1 <= inject_Z z / inject_Z p ∧ inject_Z z / inject_Z p <= 1.
Proof.
  intros Hp Hz.
  assert (Hp' : 0 < inject_Z p) by (change 0 with (inject_Z 0); by rewrite <- Zlt_Qlt).
  split.
  - apply Qle_shift_div_l; [done|].
    assert (H1 : inject_Z (- p) <= inject_Z z) by (rewrite <- Zle_Qle; lia).
    rewrite inject_Z_opp in H1. lra.
  - apply Qle_shift_div_r; [done|].
    assert (H1 : inject_Z z <= inject_Z p) by (rewrite <- Zle_Qle; lia).
    lra.
Qed.

(** So does the [float64] the division gives. *)
Lemma normalised_float (z p : Z) :
  (0 < p)%Z → (Z.abs z ≤ p)%Z →
  -1 <= float64 (inject_Z z / inject_Z p) ∧ float64 (inject_Z z / inject_Z p) <= 1.
Proof.
  intros Hp Hz. destruct (normalised_sample z p Hp Hz) as [Hlo Hhi].
  assert (Hq : Qabs (inject_Z z / inject_Z p) < 2).
  { apply (proj2 (Qabs_Qlt_condition _ _)). split; lra. }
  split.
  - by apply (float64_ge _ (-1)).
  - by apply (float64_le _ 1).
Qed.

Lemma peak_sample (z p : Z) :
  (0 < p)%Z → Z.abs z = p →
  inject_Z z / inject_Z p == 1 ∨ inject_Z z / inject_Z p == -1.
Proof.
  intros Hp Hz.
  assert (Hp' : ¬ inject_Z p == 0).
  { change 0 with (inject_Z 0). rewrite inject_Z_injective. lia. }
  destruct (Z.abs_eq_or_opp z) as [H|H]; rewrite H in Hz.
  - left. subst p. by field.
  - right. assert (z = - p)%Z as -> by lia. rewrite inject_Z_opp. by field.
Qed.

(** The sample at the peak comes out as 1 or -1 exactly. *)
Lemma peak_float (z p : Z) :
  (0 < p)%Z → Z.abs z = p →
  float64 (inject_Z z / inject_Z p) == 1 ∨ float64 (inject_Z z / inject_Z p) == -1.
Proof.
  intros Hp Hz.
  destruct (normalised_float z p Hp ltac:(lia)) as [Hlo Hhi].
  destruct (peak_sample z p Hp Hz) as [H|H]; [left|right]; apply Qle_antisym; try done.
  - apply (float64_ge _ 1); rewrite H; [done|]. apply Qle_refl.
  - apply (float64_le _ (-1)); rewrite H; [done|]. apply Qle_refl.
Qed.

End WaveformFacts.

(** X22. The waveform is normalised, and silence is not divided by zero:
    when [load_audio] reads an audio file of one channel (as the engine
    writes them) that it has not loaded yet, that holds at least one sample,
    and whose samples lie in [-32767, 32767], the widget takes the file's
    sample rate and remembers the path, and it holds one value per sample,
    each between -1 and 1. If the file is all silence the values are the
    samples themselves, all zero (the peak is zero and nothing is divided);
    otherwise some value is 1 or -1. *)
Theorem waveform_is_normalised
    (fs : filesystem) (filepath : pystr) (self : Waveform.WaveformWidget)
    (framerate : Z) (frames : list Z) :
  filepath ≠ [] →
  Waveform.last_loaded_filepath self ≠ Some filepath →
  fs_node fs filepath = Some (File (WavFile framerate frames)) →
  frames ≠ [] →
  Forall (λ z, -32767 ≤ z ≤ 32767) frames →
  let self' := Waveform.load_audio fs filepath self in
  Waveform.sample_rate self' = framerate
  ∧ Waveform.last_loaded_filepath self' = Some filepath
  ∧ length (Waveform.audio_data self') = length frames
  ∧ Forall (λ x, (-1 <= x)%Q ∧ (x <= 1)%Q) (Waveform.audio_data self')
  ∧ (Forall (λ z, z = 0) frames → Waveform.audio_data self' = inject_Z <$> frames)
  ∧ (Exists (λ z, z ≠ 0) frames →
     Exists (λ x, (x == 1)%Q ∨ (x == -1)%Q) (Waveform.audio_data self')).
Proof.
  intros Hpath Hnew Hfile Hne Hrange. cbv zeta. unfold Waveform.load_audio.
  rewrite bool_decide_eq_false_2 by done.
  replace (path_exists fs filepath) with true
    by (symmetry; unfold path_exists; rewrite Hfile; by apply bool_decide_eq_true).
  cbn [negb orb].
  rewrite bool_decide_eq_false_2 by (by intros H; apply Hnew).
  unfold Waveform.wave_open. rewrite Hfile.
  change (1 =? 2) with false. cbv iota beta.
  destruct (np_max_Some ((λ z, inject_Z (Waveform.abs_int16 z)) <$> frames))
    as [peak Hpeak]; [by destruct frames|].
  rewrite Hpeak. apply np_max_spec in Hpeak as [Hin Hmax].
  apply list_elem_of_fmap in Hin as (z0 & -> & Hz0).
  assert (Hr0 : -32767 ≤ z0 ≤ 32767) by (by eapply Forall_forall in Hrange).
  rewrite abs_int16_abs in * by done.
  assert (Hbound : ∀ z, z ∈ frames → Z.abs z ≤ Z.abs z0).
  { intros z Hz. rewrite Zle_Qle. rewrite <- (abs_int16_abs z).
    - apply Hmax, list_elem_of_fmap. by exists z.
    - by eapply Forall_forall in Hrange. }
  destruct (Qeq_bool (inject_Z (Z.abs z0)) 0) eqn:Ez; cbn [negb]; cbv iota;
    cbn [Waveform.sample_rate Waveform.last_loaded_filepath Waveform.audio_data
         Waveform.set_last_loaded_filepath Waveform.set_audio_data
         Waveform.set_sample_rate].
  - (* silence *)
    apply Qeq_bool_iff in Ez. change 0%Q with (inject_Z 0) in Ez.
    apply (proj1 (inject_Z_injective _ _)) in Ez.
    assert (Hzero : ∀ z, z ∈ frames → z = 0).
    { intros z Hz. specialize (Hbound z Hz). lia. }
    split; [done|]. split; [done|]. split; [by rewrite length_fmap|].
    split; [|split; [done|]].
    + apply Forall_fmap, Forall_forall. intros z Hz. by rewrite (Hzero z Hz).
    + intros Hex. apply Exists_exists in Hex as (z & Hz & Hnz).
      by specialize (Hzero z Hz).
  - assert (Hpos : 0 < Z.abs z0).
    { assert (Z.abs z0 ≠ 0); [|lia]. intros H0. rewrite H0 in Ez. done. }
    split; [done|]. split; [done|]. split; [by rewrite !length_fmap|].
    split; [|split].
    + apply Forall_fmap, Forall_fmap, Forall_forall. intros z Hz. cbn.
      apply normalised_float; [done|by apply Hbound].
    + intros Hsil. eapply Forall_forall in Hsil; [|exact Hz0]. lia.
    + intros _. apply Exists_exists.
      exists (float64 (inject_Z z0 / inject_Z (Z.abs z0))).
      split; [|by apply peak_float].
      apply list_elem_of_fmap. exists (inject_Z z0). split; [done|].
      apply list_elem_of_fmap. by exists z0.
Qed.

Lemma waveform_is_normalised_witness :
  Waveform.sample_rate
    (Waveform.set_file (UiMain.files Cases.after_hello)
       (lit "outputs/temp_audio/combined_20240101_120000.wav") Waveform.init)
  = 24000.
Proof.
  apply (waveform_is_normalised (UiMain.files Cases.after_hello)
           (lit "outputs/temp_audio/combined_20240101_120000.wav")
           (Waveform.set_audio_filepath
              (Some (lit "outputs/temp_audio/combined_20240101_120000.wav"))
              Waveform.init)
           24000 [16383; -8191]).
  - done.
  - done.
  - vm_compute. reflexivity.
  - done.
  - repeat constructor; lia.
Defined.

(** *** A file of two channels *)

Section StereoFacts.
Import Waveform.

Local Open Scope Q_scope.

(** A value divided by a peak that bounds it comes out between -1 and 1. *)
Lemma normalised_quotient (x p : Q) :
  0 < p → Qabs x <= p → -1 <= float64 (x / p) ∧ float64 (x / p) <= 1.
Proof.
  intros Hp Hx. apply Qabs_Qle_condition in Hx as [Hlo Hhi].
  assert (H1 : -1 <= x / p) by (apply Qle_shift_div_l; [done|lra]).
  assert (H2 : x / p <= 1) by (apply Qle_shift_div_r; [done|lra]).
  assert (Hq : Qabs (x / p) < 2).
  { apply (proj2 (Qabs_Qlt_condition _ _)). split; lra. }
  split.
  - by apply (float64_ge _ (-1)).
  - by apply (float64_le _ 1).
Qed.

(** The samples pair up exactly when there is an even number of them, and
    each pair gives one mean. *)
Lemma pair_means_length (n : nat) (frames : list Z) :
  length frames = (2 * n)%nat →
  ∃ means, pair_means frames = Some means ∧ length means = n.
Proof.
  revert frames. induction n as [|n IH]; intros frames Hlen.
  { destruct frames; [|done]. by exists []. }
  destruct frames as [|l [|r frames]]; [done|cbn in Hlen; lia|].
  destruct (IH frames) as (means & Hm & Hl); [cbn in Hlen; lia|].
  cbn [pair_means]. rewrite Hm. eexists. split; [done|]. cbn. by rewrite Hl.
Qed.

Lemma pair_means_odd (n : nat) (frames : list Z) :
  length frames = S (2 * n) → pair_means frames = None.
Proof.
  revert frames. induction n as [|n IH]; intros frames Hlen.
  { by destruct frames as [|l [|r frames]]. }
  destruct frames as [|l [|r frames]]; [done|cbn in Hlen; lia|].
  cbn [pair_means]. rewrite IH; [done|]. cbn in Hlen. lia.
Qed.

End StereoFacts.

(** X27. A file of two channels is mixed down before it is normalised:
    when [load_audio] reads a 16-bit audio file of two channels that it has
    not loaded yet, the widget takes the file's sample rate. If the file
    holds an even number of samples, and at least one, the widget remembers
    the path and holds one value per pair of samples (from the mean of the
    pair, divided by the largest mean in size unless that is zero), each
    between -1 and 1. If the file holds an odd number of samples, pairing
    them up raises, and beyond the sample rate the widget is as it was: it
    does not remember the path and keeps the values it held. *)
Theorem stereo_waveform_is_mixed_down
    (fs : filesystem) (filepath : pystr) (self : Waveform.WaveformWidget)
    (framerate : Z) (frames : list Z) :
  filepath ≠ [] →
  Waveform.last_loaded_filepath self ≠ Some filepath →
  fs_node fs filepath = Some (File (WavFileN 2 framerate frames)) →
  let self' := Waveform.load_audio fs filepath self in
  (Nat.Even (length frames) → frames ≠ [] →
   Waveform.sample_rate self' = framerate
   ∧ Waveform.last_loaded_filepath self' = Some filepath
   ∧ length (Waveform.audio_data self') = (length frames / 2)%nat
   ∧ Forall (λ x, (-1 <= x)%Q ∧ (x <= 1)%Q) (Waveform.audio_data self'))
  ∧ (Nat.Odd (length frames) →
     self' = Waveform.set_sample_rate framerate self).
Proof.
  intros Hpath Hnew Hfile. cbv zeta. unfold Waveform.load_audio.
  rewrite bool_decide_eq_false_2 by done.
  replace (path_exists fs filepath) with true
    by (symmetry; unfold path_exists; rewrite Hfile; by apply bool_decide_eq_true).
  cbn [negb orb].
  rewrite bool_decide_eq_false_2 by (by intros H; apply Hnew).
  unfold Waveform.wave_open. rewrite Hfile.
  change (2 =? 2) with true. cbv iota beta.
  split.
  - intros [n Hlen] Hne.
    destruct (pair_means_length n frames Hlen) as (means & -> & Hl).
    assert (Hhalf : (length frames / 2)%nat = n).
    { rewrite Hlen, (Nat.mul_comm 2 n). by apply Nat.div_mul. }
    rewrite Hhalf.
    assert (Hmeans : means ≠ []).
    { intros ->. cbn in Hl. subst n. by destruct frames. }
    destruct (np_max_Some (Qabs <$> means)) as [peak Hpeak]; [by destruct means|].
    rewrite Hpeak. apply np_max_spec in Hpeak as [Hin Hmax].
    apply list_elem_of_fmap in Hin as (m0 & -> & Hm0).
    assert (Hbound : ∀ m, m ∈ means → (Qabs m <= Qabs m0)%Q).
    { intros m Hm. apply Hmax, list_elem_of_fmap. by exists m. }
    pose proof (Qabs_nonneg m0) as Hnn.
    destruct (Qeq_bool (Qabs m0) 0) eqn:Ez; cbn [negb]; cbv iota;
      cbn [Waveform.sample_rate Waveform.last_loaded_filepath Waveform.audio_data
           Waveform.set_last_loaded_filepath Waveform.set_audio_data
           Waveform.set_sample_rate].
    + apply Qeq_bool_iff in Ez.
      split; [done|]. split; [done|]. split; [done|].
      apply Forall_forall. intros m Hm. specialize (Hbound m Hm).
      rewrite Ez in Hbound. apply Qabs_Qle_condition in Hbound as [? ?].
      split; lra.
    + apply Qeq_bool_neq in Ez.
      split; [done|]. split; [done|]. split; [by rewrite length_fmap|].
      apply Forall_fmap, Forall_forall. intros m Hm. cbn.
      apply normalised_quotient; [|by apply Hbound].
      apply Qle_lt_or_eq in Hnn as [Hlt|Heq]; [done|]. by destruct Ez.
  - intros [n Hlen].
    rewrite (pair_means_odd n frames); [done|]. rewrite Hlen. lia.
Qed.

Lemma stereo_waveform_is_mixed_down_witness :
  let self' :=
    Waveform.load_audio Cases.with_stereo (lit "imported.wav") Waveform.init in
  Waveform.sample_rate self' = 44100
  ∧ Waveform.last_loaded_filepath self' = Some (lit "imported.wav")
  ∧ length (Waveform.audio_data self') = 2%nat
  ∧ Forall (λ x, (-1 <= x)%Q ∧ (x <= 1)%Q) (Waveform.audio_data self').
Proof.
  apply (stereo_waveform_is_mixed_down Cases.with_stereo (lit "imported.wav")
           Waveform.init 44100 [100; 300; -200; 0]).
  - done.
  - done.
  - vm_compute. reflexivity.
  - exists 2%nat. reflexivity.
  - done.
Defined.

(** *** A synthesis that fails *)

(** X25. A failed synthesis is reported and changes nothing in the window:
    when [synthesize] raises in a worker, the worker queues the status
    message [Synthesis error.] and then the re-enabling of the button, and
    nothing else (no table refresh, no waveform); the window is as it was;
    and, the message box opening, the exception does not leave the worker
    and the box shows it. *)
Theorem failed_synthesis_is_reported
    (w : UiMain.world) (j : UiMain.job) (s : UiMain.system)
    (e : exn) (e' : TtsWrapper.state) :
  engine_call w j s = (Raise e, e') →
  let r := UiMain.run_synthesis w j s in
  UiMain.queue r.2
  = UiMain.queue s
    ++ [UiMain.UpdateStatusMessage (lit "Synthesis error.") 2000;
        UiMain.SynthButtonSetEnabled true]
  ∧ UiMain.ui r.2 = UiMain.ui s
  ∧ UiMain.engine r.2 = e'
  ∧ (UiMain.show_error_fails w = false →
     r.1 = Ok () ∧ UiMain.error_boxes r.2 = UiMain.error_boxes s ++ [e]).
Proof.
  unfold engine_call. intros Hcall. cbv zeta.
  unfold UiMain.run_synthesis, try_finally, try_except, UiMain.run_synthesis_try.
  unfold mbind, M_bind, get, UiMain.in_engine. cbv beta iota zeta.
  rewrite Hcall. cbv beta iota zeta.
  unfold UiMain.show_error, modify. cbv beta iota zeta.
  destruct (UiMain.show_error_fails w); cbn [fst snd];
    unfold UiMain.post, UiMain.set_engine;
    cbn [UiMain.queue UiMain.ui UiMain.engine UiMain.error_boxes UiMain.threads];
    rewrite <- app_assoc; repeat split; done.
Qed.

Lemma failed_synthesis_is_reported_witness :
  (UiMain.run_synthesis (Examples.session [Examples.spoken] true) Examples.hello_job
     (Examples.typed (lit "Hello world."))).1
  = Ok ().
Proof.
  refine (proj1 (proj2 (proj2 (proj2
            (failed_synthesis_is_reported (Examples.session [Examples.spoken] true)
               Examples.hello_job (Examples.typed (lit "Hello world."))
               (OSError (lit "outputs/temp_audio/chunk_20240101_120000_0.wav")) _ _)))
            eq_refl)).
  unfold engine_call.
  match goal with
  | |- ?lhs = _ => rewrite (surjective_pairing lhs)
  end.
  f_equal; vm_compute; reflexivity.
Defined.

(** *** The worker and the widgets *)

(** X26. The worker touches no widget: whatever happens in it, whether
    [synthesize] returns with audio, returns without, or raises, and whether
    the message box opens or not, [run_synthesis] leaves the text box, the
    combo box, the spin box, the button, the status bar, the generation
    label, the results table and the waveform as they were. What it has to
    say to them it queues for the UI thread; what it changes itself is the
    ledger and the current file. *)
Theorem worker_touches_no_widget
    (w : UiMain.world) (j : UiMain.job) (s : UiMain.system) :
  widgets (UiMain.ui (UiMain.run_synthesis w j s).2) = widgets (UiMain.ui s)
  ∧ ∃ posted, UiMain.queue (UiMain.run_synthesis w j s).2 = UiMain.queue s ++ posted.
Proof.
  split.
  - unfold UiMain.run_synthesis, try_finally, try_except, UiMain.run_synthesis_try.
    unfold mbind, M_bind, get, UiMain.in_engine. cbv beta iota zeta.
    destruct (TtsWrapper.synthesize _ _ _ _ _ (UiMain.engine s))
      as [[[chunk_list combined_path]|e] e']; cbv beta iota zeta.
    + unfold modify, mret, M_ret. cbv beta iota zeta. cbn [snd].
      destruct combined_path as [p|]; cbv beta iota zeta;
        [destruct (bool_decide (p ≠ [])); cbv beta iota zeta|]; reflexivity.
    + unfold UiMain.show_error, modify. cbv beta iota zeta.
      destruct (UiMain.show_error_fails w); reflexivity.
  - destruct (run_synthesis_queue w j s) as [posted H].
    exists (posted ++ [UiMain.SynthButtonSetEnabled true]). exact H.
Qed.

(** ** The ledger file (persistence.py) *)

Section JsonStrings.
Import Json.
Local Open Scope N_scope.

Lemma hexval_hexdigit (d : N) : d < 16 → hexval (hexdigit d) = Some d.
Proof.
  intros Hd. unfold hexval, hexdigit.
  destruct (N.ltb_spec d 10); n_cases; f_equal; lia.
Qed.

Lemma div_mod_digits (n : N) :
  n < 65536 →
  ((n / 4096 mod 16 * 16 + n / 256 mod 16) * 16 + n / 16 mod 16) * 16 + n mod 16 = n.
Proof.
  intros H.
  pose proof (N.div_mod n 16 ltac:(lia)) as H1.
  pose proof (N.div_mod (n / 16) 16 ltac:(lia)) as H2.
  pose proof (N.div_mod (n / 16 / 16) 16 ltac:(lia)) as H3.
  rewrite !N.Div0.div_div in H2, H3.
  change (16 * 16) with 256 in *. change (256 * 16) with 4096 in *.
  assert (n / 4096 < 16) by (apply N.Div0.div_lt_upper_bound; lia).
  rewrite (N.mod_small (n / 4096)) by lia.
  assert (n / 256 / 16 = n / 4096) as E by (rewrite N.Div0.div_div; reflexivity).
  rewrite E in H3. lia.
Qed.

(** The four hex digits [json.dump] writes are read back as the number. *)
Lemma hex4_digits (n : N) :
  n < 65536 →
  hex4 (hexdigit (n / 4096 mod 16)) (hexdigit (n / 256 mod 16))
       (hexdigit (n / 16 mod 16)) (hexdigit (n mod 16)) = Some n.
Proof.
  intros Hn. unfold hex4.
  rewrite !hexval_hexdigit by (apply N.mod_upper_bound; lia).
  cbn. f_equal. by apply div_mod_digits.
Qed.

Lemma land_high_low (k y : N) : y < 1024 → N.land (k * 1024) y = 0.
Proof.
  intros Hy. apply N.bits_inj. intros i. rewrite N.land_spec, N.bits_0.
  destruct (N.lt_ge_cases i 10) as [Hi|Hi].
  - change 1024 with (2 ^ 10). by rewrite N.mul_pow2_bits_low.
  - replace (N.testbit y i) with false; [apply andb_false_r|].
    symmetry. destruct (N.eq_dec y 0) as [->|Hne]; [apply N.bits_0|].
    apply N.bits_above_log2. apply N.log2_lt_pow2; [lia|].
    apply N.lt_le_trans with (2 ^ 10); [exact Hy|].
    apply N.pow_le_mono_r; lia.
Qed.

Lemma lor_high_low (k y : N) : y < 1024 → N.lor (k * 1024) y = k * 1024 + y.
Proof.
  intros Hy. rewrite N.add_nocarry_lxor, N.lxor_lor; auto using land_high_low.
Qed.

Lemma surrogates_spec (c : N) :
  65536 ≤ c → c < 1114112 →
  high_surrogate c = 55296 + (c - 65536) / 1024
  ∧ low_surrogate c = 56320 + (c - 65536) mod 1024
  ∧ (c - 65536) / 1024 < 1024.
Proof.
  intros H1 H2. unfold high_surrogate, low_surrogate.
  assert ((c - 65536) / 1024 < 1024) as Hq
    by (apply N.Div0.div_lt_upper_bound; lia).
  change 1023 with (N.ones 10). rewrite !N.land_ones, N.shiftr_div_pow2.
  change (2 ^ 10) with 1024.
  rewrite (N.mod_small ((c - 65536) / 1024)) by lia.
  change 55296 with (54 * 1024). change 56320 with (55 * 1024).
  rewrite !lor_high_low; [done|by apply N.mod_upper_bound|done].
Qed.

(** The decoder puts the pair together again. *)
Lemma surrogates_combine (c : N) :
  65536 ≤ c → c < 1114112 →
  65536 + N.lor (N.shiftl (high_surrogate c - 55296) 10) (low_surrogate c - 56320) = c.
Proof.
  intros H1 H2. destruct (surrogates_spec c H1 H2) as (-> & -> & Hq).
  assert (Hsub : ∀ a b : N, a + b - a = b) by lia. rewrite !Hsub.
  rewrite N.shiftl_mul_pow2. change (2 ^ 10) with 1024.
  rewrite lor_high_low by (apply N.mod_upper_bound; lia).
  pose proof (N.div_mod (c - 65536) 1024 ltac:(lia)) as Hdm.
  rewrite (N.mul_comm _ 1024), <- Hdm. lia.
Qed.

End JsonStrings.

Section JsonScanString.
Import Json.
Local Open Scope N_scope.

Lemma scan_plain (c : N) (r : pystr) :
  c ≠ QUOTE → c ≠ BACKSLASH → 32 ≤ c → scan_string (c :: r) = then_scan c r.
Proof.
  intros H1 H2 H3. cbn [scan_string].
  destruct (N.eqb_spec c QUOTE); [done|]. destruct (N.eqb_spec c BACKSLASH); [done|].
  destruct (N.ltb_spec c 32); [lia|]. reflexivity.
Qed.

Lemma scan_escape (esc ch : N) (r : pystr) :
  esc ≠ 117 → unescape esc = Some ch →
  scan_string (BACKSLASH :: esc :: r) = then_scan ch r.
Proof.
  intros H1 H2. cbn [scan_string]. change (BACKSLASH =? QUOTE) with false.
  change (BACKSLASH =? BACKSLASH) with true. cbn match.
  destruct (N.eqb_spec esc 117); [done|]. by rewrite H2.
Qed.

Lemma scan_u_escape_bmp (n : N) (r : pystr) :
  n < 65536 → is_high_surrogate n = false →
  scan_string (u_escape n ++ r) = then_scan n r.
Proof.
  intros Hn Hs. unfold u_escape. cbn [app scan_string].
  change (BACKSLASH =? QUOTE) with false. change (BACKSLASH =? BACKSLASH) with true.
  change (117 =? 117) with true. cbn match.
  rewrite hex4_digits by done. rewrite Hs. cbn [andb].
  by destruct r as [|b [|u r]].
Qed.

Lemma scan_u_escape_pair (c : N) (r : pystr) :
  65536 ≤ c → c < 1114112 →
  scan_string (u_escape (high_surrogate c) ++ u_escape (low_surrogate c) ++ r)
  = then_scan c r.
Proof.
  intros H1 H2. destruct (surrogates_spec c H1 H2) as (Hh & Hl & Hq).
  pose proof (N.mod_upper_bound (c - 65536) 1024 ltac:(done)) as Hr.
  assert (is_high_surrogate (high_surrogate c) = true) as Hhigh.
  { unfold is_high_surrogate. rewrite Hh. clear -Hq.
    generalize dependent ((c - 65536) / 1024). intros q Hq.
    apply andb_true_iff. split; apply N.leb_le; lia. }
  assert (is_low_surrogate (low_surrogate c) = true) as Hlow.
  { unfold is_low_surrogate. rewrite Hl. clear -Hr.
    generalize dependent ((c - 65536) mod 1024). intros q Hq.
    apply andb_true_iff. split; apply N.leb_le; lia. }
  assert (high_surrogate c < 65536).
  { rewrite Hh. clear -Hq. generalize dependent ((c - 65536) / 1024). intros; lia. }
  assert (low_surrogate c < 65536).
  { rewrite Hl. clear -Hr. generalize dependent ((c - 65536) mod 1024). intros; lia. }
  unfold u_escape at 1. cbn [app scan_string].
  change (BACKSLASH =? QUOTE) with false. change (BACKSLASH =? BACKSLASH) with true.
  change (117 =? 117) with true. cbn match.
  rewrite hex4_digits by done.
  unfold u_escape at 1. cbn [app]. rewrite Hhigh.
  change (BACKSLASH =? BACKSLASH) with true. change (117 =? 117) with true.
  cbn [andb]. cbn match.
  rewrite hex4_digits by done. rewrite Hlow.
  rewrite surrogates_combine by done. reflexivity.
Qed.

(** Reading back what [json.dump] wrote for a string gives the string, and
    stops right after its closing quote. *)
Lemma scan_string_encode (s rest : pystr) :
  wf_string s = true →
  scan_string (concat (encode_char <$> s) ++ QUOTE :: rest) = Some (s, rest).
Proof.
  induction s as [|c s IH]; intros Hwf.
  { cbn. reflexivity. }
  cbn in Hwf. apply andb_true_iff in Hwf as [Hc Hwf]. specialize (IH Hwf).
  cbn [fmap list_fmap concat]. rewrite <- app_assoc.
  assert (Hthen : ∀ ch, then_scan ch (concat (encode_char <$> s) ++ QUOTE :: rest)
                        = Some (ch :: s, rest))
    by (intros ch; unfold then_scan; by rewrite IH).
  unfold scalar_value in Hc. apply andb_true_iff in Hc as [Hlt Hns].
  apply N.ltb_lt in Hlt. apply negb_true_iff in Hns.
  unfold encode_char.
  destruct (N.eqb_spec c QUOTE) as [->|?]; [by rewrite <- Hthen|].
  destruct (N.eqb_spec c BACKSLASH) as [->|?]; [by rewrite <- Hthen|].
  destruct (N.eqb_spec c 10) as [->|?]; [by rewrite <- Hthen|].
  destruct (N.eqb_spec c 13) as [->|?]; [by rewrite <- Hthen|].
  destruct (N.eqb_spec c 9) as [->|?]; [by rewrite <- Hthen|].
  destruct (N.eqb_spec c 8) as [->|?]; [by rewrite <- Hthen|].
  destruct (N.eqb_spec c 12) as [->|?]; [by rewrite <- Hthen|].
  destruct ((32 <=? c) && (c <=? 126)) eqn:Hp.
  { apply andb_true_iff in Hp as [Hp _]. apply N.leb_le in Hp.
    cbn [app]. rewrite scan_plain by done. apply Hthen. }
  destruct (N.ltb_spec c 65536).
  - rewrite scan_u_escape_bmp; [apply Hthen|done|].
    unfold is_high_surrogate.
    destruct (55296 <=? c) eqn:E1; cbn [andb] in *; [|done].
    destruct (c <=? 56319) eqn:E2; [|done].
    apply N.leb_le in E2. apply N.leb_gt in Hns. lia.
  - cbv zeta. rewrite <- app_assoc.
    fold (high_surrogate c). fold (low_surrogate c).
    rewrite scan_u_escape_pair by done. apply Hthen.
Qed.

End JsonScanString.

Section JsonValues.
Import Json.
Local Open Scope N_scope.

(** Induction on a value, with the property at hand for the items of a list
    and for the values of a dict. *)
Lemma value_ind' (P : value → Prop) :
  P Null →
  (∀ b, P (Bool b)) →
  (∀ literal, P (Number literal)) →
  (∀ s, P (String s)) →
  (∀ items, Forall P items → P (Array items)) →
  (∀ members, Forall (λ kv, P kv.2) members → P (Object members)) →
  ∀ v, P v.
Proof.
  intros HN HB HNum HS HA HO.
  fix IH 1. intros [| b | literal | s | items | members].
  - exact HN.
  - apply HB.
  - apply HNum.
  - apply HS.
  - apply HA. induction items as [|x items IHitems]; constructor; [apply IH|exact IHitems].
  - apply HO. induction members as [|[k x] members IHm]; constructor;
      [apply IH|exact IHm].
Qed.

Lemma span_number (literal rest : pystr) :
  forallb number_char literal = true → delimited rest →
  span number_char (literal ++ rest) = (literal, rest).
Proof.
  intros Hl Hr. induction literal as [|c l IH]; cbn in *.
  - destruct rest as [|c rest]; [done|]. cbn in *. by rewrite Hr.
  - apply andb_true_iff in Hl as [Hc Hl]. by rewrite Hc, IH.
Qed.

Lemma skip_ws_head (c : N) (s : pystr) : is_ws c = false → skip_ws (c :: s) = c :: s.
Proof. intros H. cbn. by rewrite H. Qed.

Lemma skip_ws_newline_indent (level : nat) (s : pystr) :
  skip_ws (newline_indent level ++ s) = skip_ws s.
Proof.
  unfold newline_indent. cbn [app skip_ws]. change (is_ws 10) with true. cbn match.
  induction (2 * level)%nat as [|k IH]; [done|]. cbn. exact IH.
Qed.

Lemma length_newline_indent (level : nat) : (1 ≤ length (newline_indent level))%nat.
Proof. unfold newline_indent. cbn. lia. Qed.

Lemma newline_indent_delimited (level : nat) (s : pystr) :
  delimited (newline_indent level ++ s).
Proof. reflexivity. Qed.

Lemma number_char_opener (c : N) : number_char c = true → opener c.
Proof.
  unfold number_char, is_digit, opener, is_ws. intros H.
  repeat split.
  - destruct (N.eqb_spec c 32) as [->|?]; [done|].
    destruct (N.eqb_spec c 9) as [->|?]; [done|].
    destruct (N.eqb_spec c 10) as [->|?]; [done|].
    by destruct (N.eqb_spec c 13) as [->|?].
  - by intros ->.
  - by intros ->.
Qed.

Lemma dumps_at_opener (level : nat) (v : value) :
  wf_value v = true → ∃ c r, dumps_at level v = c :: r ∧ opener c.
Proof.
  intros Hwf. destruct v as [| [|] | literal | s | [|x items] | [|kv members]];
    try (eexists _, _; split; [reflexivity|by repeat split]).
  cbn in Hwf. apply andb_true_iff in Hwf as [Hshape Hchars].
  destruct literal as [|c literal]; [done|].
  cbn in Hchars. apply andb_true_iff in Hchars as [Hc _].
  exists c, literal. split; [done|]. by apply number_char_opener.
Qed.

Lemma skip_ws_dumps_at (level : nat) (v : value) (rest : pystr) :
  wf_value v = true → skip_ws (dumps_at level v ++ rest) = dumps_at level v ++ rest.
Proof.
  intros Hwf. destruct (dumps_at_opener level v Hwf) as (c & r & -> & Hc & _).
  by apply skip_ws_head.
Qed.

End JsonValues.

Section JsonRoundTrip.
Import Json.
Local Open Scope N_scope.

Lemma dumps_at_array (level : nat) (x : value) (items : list value) :
  dumps_at level (Array (x :: items))
  = 91 :: newline_indent (S level) ++ items_text (S level) (x :: items)
       ++ newline_indent level ++ [93].
Proof. reflexivity. Qed.

Lemma dumps_at_object (level : nat) (kv : pystr * value) (members : list (pystr * value)) :
  dumps_at level (Object (kv :: members))
  = 123 :: newline_indent (S level) ++ members_text (S level) (kv :: members)
        ++ newline_indent level ++ [125].
Proof. reflexivity. Qed.

Lemma items_text_cons (level : nat) (x y : value) (items : list value) :
  items_text level (x :: y :: items)
  = dumps_at level x ++ separator level ++ items_text level (y :: items).
Proof. reflexivity. Qed.

Lemma members_text_cons (level : nat) (kv kv' : pystr * value)
    (members : list (pystr * value)) :
  members_text level (kv :: kv' :: members)
  = member_text level kv ++ separator level ++ members_text level (kv' :: members).
Proof. reflexivity. Qed.

Lemma parse_items_S (fuel : nat) (s : pystr) :
  parse_items (S fuel) s
  = match parse_value fuel s with
    | Some (v, r) =>
        match skip_ws r with
        | c :: r' =>
            if c =? 93 then Some ([v], r')
            else if c =? 44 then
              match parse_items fuel (skip_ws r') with
              | Some (vs, r'') => Some (v :: vs, r'')
              | None => None
              end
            else None
        | [] => None
        end
    | None => None
    end.
Proof. reflexivity. Qed.

Lemma parse_members_S (fuel : nat) (key : pystr) (s : pystr) :
  parse_members (S fuel) (QUOTE :: s)
  = match scan_string s with
    | Some (key, r1) =>
        match skip_ws r1 with
        | colon :: r2 =>
            if colon =? 58 then
              match parse_value fuel (skip_ws r2) with
              | Some (v, r3) =>
                  match skip_ws r3 with
                  | c :: r4 =>
                      if c =? 125 then Some ([(key, v)], r4)
                      else if c =? 44 then
                        match parse_members fuel (skip_ws r4) with
                        | Some (kvs, r5) => Some ((key, v) :: kvs, r5)
                        | None => None
                        end
                      else None
                  | [] => None
                  end
              | None => None
              end
            else None
        | [] => None
        end
    | None => None
    end.
Proof. reflexivity. Qed.

Lemma parse_value_array (fuel : nat) (s : pystr) :
  parse_value (S fuel) (91 :: s)
  = match skip_ws s with
    | c2 :: r2 =>
        if c2 =? 93 then Some (Array [], r2)
        else
          match parse_items fuel (skip_ws s) with
          | Some (vs, r) => Some (Array vs, r)
          | None => None
          end
    | [] => None
    end.
Proof. reflexivity. Qed.

Lemma parse_value_object (fuel : nat) (s : pystr) :
  parse_value (S fuel) (123 :: s)
  = match skip_ws s with
    | c2 :: r2 =>
        if c2 =? 125 then Some (Object [], r2)
        else
          match parse_members fuel (skip_ws s) with
          | Some (kvs, r) => Some (Object kvs, r)
          | None => None
          end
    | [] => None
    end.
Proof. reflexivity. Qed.

Lemma parse_value_string (fuel : nat) (s : pystr) :
  parse_value (S fuel) (QUOTE :: s)
  = match scan_string s with
    | Some (str, r) => Some (String str, r)
    | None => None
    end.
Proof. reflexivity. Qed.

(** A number literal is read back whole. *)
Lemma parse_value_number (fuel : nat) (literal rest : pystr) :
  wf_number literal = true → delimited rest →
  parse_value (S fuel) (literal ++ rest) = Some (Number literal, rest).
Proof.
  intros Hwf Hrest. unfold wf_number in Hwf.
  apply andb_true_iff in Hwf as [Hshape Hchars].
  pose proof (span_number literal rest Hchars Hrest) as Hspan.
  destruct literal as [|c l]; [done|].
  cbn [forallb] in Hchars. apply andb_true_iff in Hchars as [Hc Hl].
  assert (Hminus : startswith ((c :: l) ++ rest) (lit "-Infinity") = false).
  { destruct (decide (c = 45)) as [->|Hne].
    - destruct l as [|c2 l]; [done|].
      cbn [forallb] in Hl. apply andb_true_iff in Hl as [Hc2 _].
      destruct (decide (c2 = 73)) as [->|Hne2]; [done|].
      cbn. rewrite (bool_decide_eq_false_2 (73 = c2)) by done.
      by rewrite andb_false_r.
    - cbn. by rewrite (bool_decide_eq_false_2 (45 = c)). }
  cbn [app] in *. cbn [parse_value].
  destruct (N.eqb_spec c QUOTE) as [->|?]; [done|].
  destruct (N.eqb_spec c 123) as [->|?]; [done|].
  destruct (N.eqb_spec c 91) as [->|?]; [done|].
  assert (Hstart : ∀ k p, c ≠ k → startswith (c :: l ++ rest) (k :: p) = false).
  { intros k p Hk. cbn. by rewrite (bool_decide_eq_false_2 (k = c)). }
  change (lit "null") with (110 :: lit "ull").
  change (lit "true") with (116 :: lit "rue").
  change (lit "false") with (102 :: lit "alse").
  change (lit "NaN") with (78 :: lit "aN").
  change (lit "Infinity") with (73 :: lit "nfinity").
  rewrite !Hstart by (intros ->; done).
  rewrite Hminus, Hspan. by rewrite Hshape.
Qed.

Lemma items_text_opener (level : nat) (x : value) (items : list value) (tail : pystr) :
  wf_value x = true →
  ∃ c r, items_text level (x :: items) ++ tail = c :: r ∧ opener c.
Proof.
  intros Hwf. destruct (dumps_at_opener level x Hwf) as (c & r & Hd & Hc).
  destruct items as [|y items].
  - exists c, (r ++ tail). unfold items_text. cbn. by rewrite Hd.
  - rewrite items_text_cons, Hd. by eexists _, _.
Qed.

Lemma length_items_text_cons (level : nat) (x y : value) (items : list value) :
  (length (dumps_at level x) + 2 + length (items_text level (y :: items))
   ≤ length (items_text level (x :: y :: items)))%nat.
Proof.
  rewrite items_text_cons, !length_app. unfold separator. cbn [length].
  pose proof (length_newline_indent level). lia.
Qed.

Lemma parse_items_text (items : list value) :
  Forall reads_back items →
  ∀ (level level' : nat) (tail : pystr) (fuel : nat),
    forallb wf_value items = true → items ≠ [] →
    (length (items_text level items) < fuel)%nat →
    parse_items fuel (items_text level items ++ newline_indent level' ++ 93 :: tail)
    = Some (items, tail).
Proof.
  induction 1 as [|x items Hx _ IH]; intros level level' tail fuel Hwf Hne Hfuel; [done|].
  cbn [forallb] in Hwf. apply andb_true_iff in Hwf as [Hwx Hwf].
  destruct fuel as [|fuel]; [lia|]. rewrite parse_items_S.
  destruct items as [|y items].
  - unfold items_text in *. cbn [fmap list_fmap join] in *.
    rewrite (Hx level _ fuel Hwx (newline_indent_delimited _ _)) by lia.
    rewrite skip_ws_newline_indent. cbn. reflexivity.
  - rewrite items_text_cons, <- !app_assoc.
    pose proof (length_items_text_cons level x y items) as Hlen.
    rewrite (Hx level _ fuel Hwx) by (done || lia).
    unfold separator. cbn [app skip_ws]. change (is_ws 44) with false. cbn match.
    change (44 =? 93) with false. change (44 =? 44) with true. cbn match.
    rewrite skip_ws_newline_indent.
    assert (Hwy : wf_value y = true) by (cbn in Hwf; by apply andb_true_iff in Hwf as [? _]).
    destruct (items_text_opener level y items (newline_indent level' ++ 93 :: tail) Hwy)
      as (c & r & Ht & Hc & _).
    rewrite Ht, skip_ws_head by done. rewrite <- Ht.
    rewrite (IH level level' tail fuel Hwf) by (done || lia). reflexivity.
Qed.

Lemma members_text_quote (level : nat) (kv : pystr * value)
    (members : list (pystr * value)) (tail : pystr) :
  ∃ r, members_text level (kv :: members) ++ tail = QUOTE :: r.
Proof.
  destruct members as [|kv' members].
  - eexists. unfold members_text, member_text, encode_string. cbn. reflexivity.
  - eexists. rewrite members_text_cons. unfold member_text, encode_string. cbn.
    reflexivity.
Qed.

Lemma length_members_text_cons (level : nat) (kv kv' : pystr * value)
    (members : list (pystr * value)) :
  (length (dumps_at level kv.2) + 2 + length (members_text level (kv' :: members))
   ≤ length (members_text level (kv :: kv' :: members)))%nat.
Proof.
  rewrite members_text_cons, !length_app. unfold member_text, separator.
  rewrite length_app. cbn [length].
  pose proof (length_newline_indent level). lia.
Qed.

(** Reading one member: the key, the colon, the value. *)
Lemma parse_member_text (fuel level : nat) (kv : pystr * value) (r : pystr) :
  reads_back kv.2 → wf_string kv.1 = true → wf_value kv.2 = true →
  delimited r → (length (dumps_at level kv.2) ≤ fuel)%nat →
  ∃ s, member_text level kv ++ r = QUOTE :: s
       ∧ scan_string s = Some (kv.1, 58 :: 32 :: dumps_at level kv.2 ++ r)
       ∧ parse_value fuel (skip_ws (32 :: dumps_at level kv.2 ++ r)) = Some (kv.2, r).
Proof.
  intros Hv Hwk Hwv Hr Hfuel. unfold member_text, encode_string.
  eexists. split; [cbn; reflexivity|]. split.
  - rewrite <- !app_assoc. cbn [app]. by apply scan_string_encode.
  - cbn [skip_ws]. change (is_ws 32) with true. cbn match.
    rewrite skip_ws_dumps_at by done. by apply Hv.
Qed.

Lemma parse_members_text (members : list (pystr * value)) :
  Forall (λ kv, reads_back kv.2) members →
  ∀ (level level' : nat) (tail : pystr) (fuel : nat),
    forallb (λ kv, wf_string kv.1 && wf_value kv.2) members = true → members ≠ [] →
    (length (members_text level members) < fuel)%nat →
    parse_members fuel (members_text level members ++ newline_indent level' ++ 125 :: tail)
    = Some (members, tail).
Proof.
  induction 1 as [|kv members Hkv _ IH]; intros level level' tail fuel Hwf Hne Hfuel;
    [done|].
  cbn [forallb] in Hwf. apply andb_true_iff in Hwf as [Hw Hwf].
  apply andb_true_iff in Hw as [Hwk Hwv].
  destruct fuel as [|fuel]; [lia|].
  destruct members as [|kv' members].
  - unfold members_text in *. cbn [fmap list_fmap join] in *.
    assert (length (dumps_at level kv.2) ≤ fuel)%nat as Hf.
    { unfold member_text in Hfuel. rewrite length_app in Hfuel. cbn in Hfuel. lia. }
    destruct (parse_member_text fuel level kv (newline_indent level' ++ 125 :: tail)
                Hkv Hwk Hwv (newline_indent_delimited _ _) Hf) as (s & Hs & Hscan & Hval).
    rewrite Hs, (parse_members_S fuel kv.1), Hscan.
    cbn [skip_ws]. change (is_ws 58) with false. cbn match.
    change (58 =? 58) with true. cbn match. rewrite Hval.
    rewrite skip_ws_newline_indent. cbn. by destruct kv.
  - rewrite members_text_cons, <- !app_assoc.
    pose proof (length_members_text_cons level kv kv' members) as Hlen.
    assert (length (dumps_at level kv.2) ≤ fuel)%nat as Hf by lia.
    destruct (parse_member_text fuel level kv
                (separator level ++ members_text level (kv' :: members)
                   ++ newline_indent level' ++ 125 :: tail)
                Hkv Hwk Hwv eq_refl Hf) as (s & Hs & Hscan & Hval).
    rewrite Hs, (parse_members_S fuel kv.1), Hscan.
    cbn [skip_ws]. change (is_ws 58) with false. cbn match.
    change (58 =? 58) with true. cbn match. rewrite Hval.
    unfold separator. cbn [app skip_ws]. change (is_ws 44) with false. cbn match.
    change (44 =? 125) with false. change (44 =? 44) with true. cbn match.
    rewrite skip_ws_newline_indent.
    destruct (members_text_quote level kv' members (newline_indent level' ++ 125 :: tail))
      as (r & Hq).
    rewrite Hq, skip_ws_head by done. rewrite <- Hq.
    rewrite (IH level level' tail fuel Hwf) by (done || lia). by destruct kv.
Qed.

(** Every well-formed value is read back from its text. *)
Lemma dumps_reads_back (v : value) : reads_back v.
Proof.
  induction v as [| b | literal | s | items IH | members IH] using value_ind';
    intros level rest fuel Hwf Hrest Hfuel.
  - destruct fuel as [|fuel]; [cbn in Hfuel; lia|]. reflexivity.
  - destruct fuel as [|fuel]; [destruct b; cbn in Hfuel; lia|]. by destruct b.
  - cbn in Hwf. destruct fuel as [|fuel].
    { destruct literal; [done|cbn in Hfuel; lia]. }
    by apply parse_value_number.
  - destruct fuel as [|fuel]; [cbn in Hfuel; lia|].
    cbn [dumps_at]. unfold encode_string. cbn [app].
    rewrite parse_value_string, <- app_assoc. cbn [app].
    by rewrite scan_string_encode.
  - destruct items as [|x items].
    { destruct fuel as [|fuel]; [cbn in Hfuel; lia|]. reflexivity. }
    rewrite dumps_at_array in *. cbn [wf_value] in Hwf.
    destruct fuel as [|fuel]; [cbn in Hfuel; lia|].
    cbn [app]. rewrite parse_value_array, <- !app_assoc.
    rewrite skip_ws_newline_indent.
    assert (Hwx : wf_value x = true)
      by (cbn in Hwf; by apply andb_true_iff in Hwf as [? _]).
    destruct (items_text_opener (S level) x items
                (newline_indent level ++ [93] ++ rest) Hwx) as (c & r & Ht & Hc & Hc' & _).
    rewrite Ht, skip_ws_head by done.
    destruct (N.eqb_spec c 93); [done|]. rewrite <- Ht.
    cbn [app]. rewrite (parse_items_text _ IH); [done..|].
    cbn [length] in Hfuel. rewrite !length_app in Hfuel.
    pose proof (length_newline_indent (S level)). lia.
  - destruct members as [|kv members].
    { destruct fuel as [|fuel]; [cbn in Hfuel; lia|]. reflexivity. }
    rewrite dumps_at_object in *. cbn [wf_value] in Hwf.
    apply andb_true_iff in Hwf as [Hwf _].
    destruct fuel as [|fuel]; [cbn in Hfuel; lia|].
    cbn [app]. rewrite parse_value_object, <- !app_assoc.
    rewrite skip_ws_newline_indent.
    destruct (members_text_quote (S level) kv members
                (newline_indent level ++ [125] ++ rest)) as (r & Hq).
    rewrite Hq, skip_ws_head by done. change (QUOTE =? 125) with false. cbn match.
    rewrite <- Hq. cbn [app]. rewrite (parse_members_text _ IH); [done..|].
    cbn [length] in Hfuel. rewrite !length_app in Hfuel.
    pose proof (length_newline_indent (S level)). lia.
Qed.

(** [json.loads(json.dumps(obj, indent=2)) == obj] *)
Lemma loads_dumps (v : value) : wf_value v = true → loads (dumps v) = Some v.
Proof.
  intros Hwf. unfold loads, dumps.
  pose proof (skip_ws_dumps_at 0 v [] Hwf) as Hs. rewrite app_nil_r in Hs.
  pose proof (dumps_reads_back v 0%nat [] (S (length (dumps_at 0 v))) Hwf I
                ltac:(lia)) as Hp.
  rewrite app_nil_r in Hp. rewrite Hs, Hp. reflexivity.
Qed.

End JsonRoundTrip.

Section LedgerFile.
Import UiMain.

Lemma wf_chunk_to_json (c : ChunkMeta) :
  wf_chunk c = true → Json.wf_value (chunk_to_json c) = true.
Proof.
  unfold wf_chunk. intros H.
  apply andb_true_iff in H as [H Hf]. apply andb_true_iff in H as [Hg Hp].
  cbn. rewrite Hg, Hp, Hf. reflexivity.
Qed.

Lemma wf_record_to_json (g : GenerationRecord) :
  wf_record g = true → Json.wf_value (record_to_json g) = true.
Proof.
  unfold wf_record. intros H.
  apply andb_true_iff in H as [H Hc]. apply andb_true_iff in H as [Ht Hch].
  cbn. rewrite Ht, Hc.
  replace (forallb Json.wf_value (chunk_to_json <$> chunks g)) with true; [done|].
  symmetry. apply forallb_forall. intros v Hv.
  apply list_elem_of_In, list_elem_of_fmap in Hv as (c & -> & Hin).
  apply wf_chunk_to_json.
  eapply forallb_forall in Hch; [exact Hch|]. by apply list_elem_of_In.
Qed.

(** A well-formed ledger is a well-formed Python object. *)
Lemma wf_ledger_to_json (ledger : list GenerationRecord) :
  wf_ledger ledger = true → Json.wf_value (ledger_to_json ledger) = true.
Proof.
  unfold wf_ledger, ledger_to_json. intros H. cbn.
  apply forallb_forall. intros v Hv.
  apply list_elem_of_In, list_elem_of_fmap in Hv as (g & -> & Hin).
  apply wf_record_to_json.
  eapply forallb_forall in H; [exact H|]. by apply list_elem_of_In.
Qed.

End LedgerFile.

(** Saving and loading back any well-formed object, the file opening both
    times and the write getting to its end. *)
Lemma load_save_generations (w : Persistence.io_world) (fs : filesystem)
    (file_path : pystr) (generations : Json.value) :
  Json.wf_value generations = true →
  Persistence.open_w_fails w file_path = false →
  Persistence.write_stops w file_path = None →
  Persistence.open_r_fails w file_path = false →
  Persistence.load_generations w
    (Persistence.save_generations w fs file_path generations) file_path
  = generations.
Proof.
  intros Hwf Hw Hs Hr. unfold Persistence.save_generations, Persistence.load_generations.
  rewrite Hw, Hs, Hr.
  unfold path_exists, fs_node, fs_write. rewrite lookup_insert_eq.
  rewrite bool_decide_eq_true_2 by eauto.
  by rewrite loads_dumps.
Qed.

(** When the file cannot be opened for writing, saving changes nothing. *)
Lemma save_generations_fails (w : Persistence.io_world) (fs : filesystem)
    (file_path : pystr) (generations : Json.value) :
  Persistence.open_w_fails w file_path = true →
  Persistence.save_generations w fs file_path generations = fs.
Proof. intros Hw. unfold Persistence.save_generations. by rewrite Hw. Qed.

(** Saving touches no other file. *)
Lemma save_generations_other (w : Persistence.io_world) (fs : filesystem)
    (file_path : pystr) (generations : Json.value) (q : pystr) :
  q ≠ canon file_path →
  Persistence.save_generations w fs file_path generations !! q = fs !! q.
Proof.
  intros Hq. unfold Persistence.save_generations.
  destruct (Persistence.open_w_fails w file_path); [done|].
  unfold fs_write. by destruct (Persistence.write_stops w file_path);
    rewrite lookup_insert_ne.
Qed.

(** C3, as the code has it. For every well-formed list of generation
    records: when the ledger file opens for writing, the write gets to its
    end, and the file opens for reading, saving the list and loading the file
    back returns the list. (When the file does not open for writing,
    [save_generations] prints the error and the file is what it was; when the
    write breaks off, it prints the error and the file holds the part of the
    text written so far.) *)
Theorem ledger_round_trip (w : Persistence.io_world) (fs : filesystem)
    (file_path : pystr) (ledger : list UiMain.GenerationRecord) :
  UiMain.wf_ledger ledger = true →
  Persistence.open_w_fails w file_path = false →
  Persistence.write_stops w file_path = None →
  Persistence.open_r_fails w file_path = false →
  Persistence.load_generations w
    (Persistence.save_generations w fs file_path (UiMain.ledger_to_json ledger))
    file_path
  = UiMain.ledger_to_json ledger.
Proof.
  intros Hwf Hw Hs Hr.
  apply load_save_generations; [by apply wf_ledger_to_json|done..].
Qed.

Lemma ledger_round_trip_witness :
  let fs : filesystem := <[lit "outputs" := Dir]> ∅ in
  Persistence.load_generations Cases.disk_ok
    (Persistence.save_generations Cases.disk_ok fs UiMain.PERSIST_FILE
       (UiMain.ledger_to_json [Examples.earlier; Examples.recorded]))
    UiMain.PERSIST_FILE
  = UiMain.ledger_to_json [Examples.earlier; Examples.recorded].
Proof.
  cbv zeta.
  apply (ledger_round_trip Cases.disk_ok
           (<[lit "outputs" := Dir]> ∅) UiMain.PERSIST_FILE
           [Examples.earlier; Examples.recorded]);
    vm_compute; reflexivity.
Defined.

(** C3, as stated, fails where the save does not go through. Where the
    ledger file does not open for writing the save is dropped, and where the
    write breaks off (here on a disk that is full after forty characters) the
    file is left with the beginning of the text, which is no JSON text; in
    both cases loading gives the empty list, not the list that was saved. *)
Lemma ledger_lost_when_save_fails :
  let fs : filesystem := <[lit "outputs" := Dir]> ∅ in
  UiMain.wf_ledger [Examples.earlier] = true
  ∧ UiMain.ledger_to_json [Examples.earlier]
    = Json.Array [UiMain.record_to_json Examples.earlier]
  ∧ Persistence.load_generations Cases.read_only
      (Persistence.save_generations Cases.read_only fs UiMain.PERSIST_FILE
         (UiMain.ledger_to_json [Examples.earlier]))
      UiMain.PERSIST_FILE
    = Json.Array []
  ∧ fs_node
      (Persistence.save_generations Cases.disk_full fs UiMain.PERSIST_FILE
         (UiMain.ledger_to_json [Examples.earlier]))
      UiMain.PERSIST_FILE
    = Some (File (TextFile (take 40 (Json.dumps (UiMain.ledger_to_json [Examples.earlier])))))
  ∧ Persistence.load_generations Cases.disk_full
      (Persistence.save_generations Cases.disk_full fs UiMain.PERSIST_FILE
         (UiMain.ledger_to_json [Examples.earlier]))
      UiMain.PERSIST_FILE
    = Json.Array [].
Proof. vm_compute. repeat split. Qed.

(** *** The characters of the ledger file *)

Section JsonPlain.
Import Json.
Local Open Scope N_scope.

Local Abbreviation plain := (Forall (λ c, plain_ascii c = true)).

Lemma plain_hexdigit (d : N) : d < 16 → plain_ascii (hexdigit d) = true.
Proof.
  intros Hd. unfold hexdigit, plain_ascii.
  destruct (N.ltb_spec d 10); n_cases.
Qed.

Lemma plain_u_escape (n : N) : plain (u_escape n).
Proof.
  unfold u_escape. repeat constructor;
    apply plain_hexdigit, N.mod_upper_bound; lia.
Qed.

Lemma plain_encode_char (c : N) : plain (encode_char c).
Proof.
  unfold encode_char.
  repeat match goal with
    | |- plain (if ?b then _ else _) => destruct b eqn:?
    end;
    try (repeat constructor; done);
    try apply plain_u_escape.
  - constructor; [|constructor]. unfold plain_ascii.
    apply andb_true_iff in Heqb6 as [H1 H2]. by rewrite H1, H2, orb_true_r.
  - apply Forall_app. split; apply plain_u_escape.
Qed.

Lemma plain_encode_string (s : pystr) : plain (encode_string s).
Proof.
  unfold encode_string. constructor; [done|]. apply Forall_app. split; [|by repeat constructor].
  induction s as [|c s IH]; cbn; [constructor|].
  apply Forall_app. split; [apply plain_encode_char|exact IH].
Qed.

Lemma plain_newline_indent (level : nat) : plain (newline_indent level).
Proof.
  unfold newline_indent. constructor; [done|].
  induction (2 * level)%nat; cbn; by constructor.
Qed.

Lemma plain_join (sep : pystr) (parts : list pystr) :
  plain sep → Forall plain parts → plain (join sep parts).
Proof.
  intros Hsep. induction 1 as [|part parts Hp Hps IH]; [constructor|].
  destruct parts as [|part' parts]; [exact Hp|].
  change (join sep (part :: part' :: parts))
    with (part ++ sep ++ join sep (part' :: parts)).
  rewrite !Forall_app. auto.
Qed.

Lemma plain_number_char (c : N) : number_char c = true → plain_ascii c = true.
Proof.
  unfold number_char, is_digit, plain_ascii. intros H.
  destruct (N.leb_spec 48 c), (N.leb_spec c 57); cbn [andb orb] in H.
  - apply orb_true_iff. right. apply andb_true_iff. split; apply N.leb_le; lia.
  - repeat (apply orb_true_iff in H as [H|H]); apply N.eqb_eq in H; by subst.
  - repeat (apply orb_true_iff in H as [H|H]); apply N.eqb_eq in H; by subst.
  - repeat (apply orb_true_iff in H as [H|H]); apply N.eqb_eq in H; by subst.
Qed.

(** The text [json.dump] writes has no character beyond ASCII and no control
    character but the line feed: [ensure_ascii] escapes the rest. *)
Lemma plain_dumps_at (v : value) :
  ∀ level, plain_numbers v = true → plain (dumps_at level v).
Proof.
  induction v as [| b | literal | s | items IH | members IH] using value_ind';
    intros level Hn.
  - by repeat constructor.
  - destruct b; by repeat constructor.
  - cbn in *. apply Forall_forall. intros c Hc. apply plain_number_char.
    eapply forallb_forall in Hn; [exact Hn|]. by apply list_elem_of_In.
  - apply plain_encode_string.
  - destruct items as [|x items]; [by repeat constructor|].
    change (dumps_at level (Array (x :: items)))
      with (lit "[" ++ newline_indent (S level)
            ++ join (lit "," ++ newline_indent (S level))
                 (dumps_at (S level) <$> (x :: items))
            ++ newline_indent level ++ lit "]").
    rewrite !Forall_app. repeat split;
      try apply plain_newline_indent; try (by repeat constructor).
    apply plain_join.
    + constructor; [done|]. apply plain_newline_indent.
    + apply Forall_fmap. cbn [plain_numbers] in Hn.
      apply Forall_forall. intros y Hy. cbn.
      eapply Forall_forall in IH; [|exact Hy]. apply IH.
      eapply forallb_forall in Hn; [exact Hn|]. by apply list_elem_of_In.
  - destruct members as [|kv members]; [by repeat constructor|].
    change (dumps_at level (Object (kv :: members)))
      with (lit "{" ++ newline_indent (S level)
            ++ join (lit "," ++ newline_indent (S level))
                 ((λ kv, encode_string kv.1 ++ lit ": " ++ dumps_at (S level) kv.2)
                    <$> (kv :: members))
            ++ newline_indent level ++ lit "}").
    rewrite !Forall_app. repeat split;
      try apply plain_newline_indent; try (by repeat constructor).
    apply plain_join.
    + constructor; [done|]. apply plain_newline_indent.
    + apply Forall_fmap. cbn [plain_numbers] in Hn.
      apply Forall_forall. intros y Hy. unfold compose.
      rewrite !Forall_app. repeat split;
        [apply plain_encode_string|by repeat constructor|].
      eapply Forall_forall in IH; [|exact Hy]. apply IH.
      eapply forallb_forall in Hn; [|apply list_elem_of_In; exact Hy]. exact Hn.
Qed.

End JsonPlain.

Lemma ledger_plain_numbers (ledger : list UiMain.GenerationRecord) :
  Forall (λ g, Json.wf_number (UiMain.float_repr (UiMain.timestamp g)) = true) ledger →
  plain_numbers (UiMain.ledger_to_json ledger) = true.
Proof.
  intros H. cbn. apply forallb_forall. intros v Hv.
  apply list_elem_of_In, list_elem_of_fmap in Hv as (g & -> & Hg).
  eapply Forall_forall in H; [|exact Hg].
  unfold Json.wf_number in H. apply andb_true_iff in H as [_ H].
  cbn. rewrite H. cbn.
  replace (forallb plain_numbers (UiMain.chunk_to_json <$> UiMain.chunks g)) with true;
    [done|].
  symmetry. apply forallb_forall. intros c Hc.
  by apply list_elem_of_In, list_elem_of_fmap in Hc as (? & -> & _).
Qed.

(** X3. The ledger file is plain ASCII whatever was synthesized: when the
    file opens for writing, what [save_generations] leaves in it is a text
    of printable ASCII characters and line feeds only, for every ledger with
    finite time stamps, also when graphemes, phonemes or paths hold
    characters beyond ASCII, control characters or quotes, and also when the
    write breaks off and leaves only the beginning of the text. *)
Theorem saved_ledger_is_plain_ascii (w : Persistence.io_world) (fs : filesystem)
    (file_path : pystr) (ledger : list UiMain.GenerationRecord) :
  Forall (λ g, Json.wf_number (UiMain.float_repr (UiMain.timestamp g)) = true) ledger →
  Persistence.open_w_fails w file_path = false →
  ∃ text,
    fs_node (Persistence.save_generations w fs file_path (UiMain.ledger_to_json ledger))
      file_path = Some (File (TextFile text))
    ∧ forallb plain_ascii text = true.
Proof.
  intros Hnum Hw. unfold Persistence.save_generations. rewrite Hw.
  pose proof (plain_dumps_at (UiMain.ledger_to_json ledger) 0
                (ledger_plain_numbers ledger Hnum)) as Hp.
  destruct (Persistence.write_stops w file_path) as [n|].
  - (* the write broke off: the beginning of the text is there *)
    eexists. split.
    + unfold fs_node, fs_write. by rewrite lookup_insert_eq.
    + apply forallb_forall. intros c Hc. apply list_elem_of_In in Hc.
      apply (Forall_take _ n) in Hp.
      eapply Forall_forall in Hp; [exact Hp|exact Hc].
  - eexists. split.
    + unfold fs_node, fs_write. by rewrite lookup_insert_eq.
    + apply forallb_forall. intros c Hc. apply list_elem_of_In in Hc.
      eapply Forall_forall in Hp; [exact Hp|exact Hc].
Qed.

Lemma saved_ledger_is_plain_ascii_witness :
  ∃ text,
    fs_node (Persistence.save_generations Cases.disk_ok ∅ UiMain.PERSIST_FILE
               (UiMain.ledger_to_json [Cases.accented]))
      UiMain.PERSIST_FILE = Some (File (TextFile text))
    ∧ forallb plain_ascii text = true.
Proof.
  apply (saved_ledger_is_plain_ascii Cases.disk_ok ∅ UiMain.PERSIST_FILE
           [Cases.accented]).
  - repeat constructor.
  - reflexivity.
Defined.

(** *** The ledger file after a change of the ledger *)

Section LedgerFileFollows.
Import UiMain.

Variable w : world.

Lemma files_save_generations (s : system) :
  files (save_generations w s)
  = Persistence.save_generations (io w) (files s) PERSIST_FILE
      (ledger_to_json (synthesis_results (ui s))).
Proof. reflexivity. Qed.

(** What a worker leaves on disk: when [synthesize] has returned, the ledger
    file written over the files it left. *)
Lemma run_synthesis_files (j : job) (s : system) :
  files (run_synthesis w j s).2
  = match engine_call w j s with
    | (Ok results, e') =>
        Persistence.save_generations (io w) (TtsWrapper.files e') PERSIST_FILE
          (ledger_to_json
             (synthesis_results (ui s) ++ [make_record w (TtsWrapper.files e') results]))
    | (Raise _, e') => TtsWrapper.files e'
    end.
Proof.
  unfold run_synthesis, try_finally, try_except, run_synthesis_try, engine_call.
  unfold mbind, M_bind, get, in_engine. cbn.
  destruct (TtsWrapper.synthesize _ _ _ _ _ (engine s)) as [[[chunk_list combined_path]|e] e'];
    cbn.
  - destruct combined_path as [p|]; cbn; [destruct (bool_decide (p ≠ [])); cbn|]; done.
  - unfold show_error. by destruct (show_error_fails w).
Qed.

(** What Clear Temp Files leaves: nothing changed when the temp directory
    cannot be listed; otherwise the ledger with its chunk lists emptied, and
    the ledger file written last. *)
Lemma clear_temp_files_cases (s : system) :
  (clear_temp_files w s).2 = s
  ∨ ∃ s1,
      synthesis_results (ui (clear_temp_files w s).2)
      = clear_chunks <$> synthesis_results (ui s)
      ∧ files (clear_temp_files w s).2
        = Persistence.save_generations (io w) (files s1) PERSIST_FILE
            (ledger_to_json (clear_chunks <$> synthesis_results (ui s))).
Proof.
  unfold clear_temp_files. erewrite bind_ok; [|reflexivity].
  destruct (listdir (files s) (TtsWrapper.temp_dir (tts_wrapper (ui s))))
    as [names|e] eqn:El.
  - right.
    destruct (remove_chunk_files_frame w (TtsWrapper.temp_dir (tts_wrapper (ui s)))
                names s) as (s1 & H1 & Hu & _).
    assert (Hrun : ∃ s', clear_temp_files w s = (Ok (), s')
              ∧ synthesis_results (ui s') = clear_chunks <$> synthesis_results (ui s1)
              ∧ files s'
                = Persistence.save_generations (io w) (files s1) PERSIST_FILE
                    (ledger_to_json (clear_chunks <$> synthesis_results (ui s1)))).
    { unfold clear_temp_files. erewrite bind_ok; [|reflexivity].
      erewrite bind_ok; [|by rewrite El].
      erewrite bind_ok; [|exact H1].
      eexists. split; [reflexivity|]. by split. }
    destruct Hrun as (s' & Hrun & Hl & Hf). unfold clear_temp_files in Hrun.
    erewrite bind_ok in Hrun; [|reflexivity]. rewrite Hrun. cbn [snd].
    exists s1. rewrite Hl, Hf, Hu. by split.
  - left. erewrite bind_raise; [reflexivity|]. by rewrite El.
Qed.

End LedgerFileFollows.

(** X19. The ledger file follows the ledger: whenever a worker, Clear Temp
    Files or Clear Old Results has changed the ledger in memory, and the
    ledger file could be opened and the write to it got to its end, the file
    reads back as the ledger now in memory (for a well-formed ledger), so
    that a restart shows what the window showed. *)
Theorem ledger_file_follows_the_ledger
    (w : UiMain.world) (op : ledger_op) (s : UiMain.system) :
  let s' := (run_ledger_op w op s).2 in
  ledger s' ≠ ledger s →
  UiMain.wf_ledger (ledger s') = true →
  Persistence.open_w_fails (UiMain.io w) UiMain.PERSIST_FILE = false →
  Persistence.write_stops (UiMain.io w) UiMain.PERSIST_FILE = None →
  Persistence.open_r_fails (UiMain.io w) UiMain.PERSIST_FILE = false →
  ledger_on_disk w s' = UiMain.ledger_to_json (ledger s').
Proof.
  cbv zeta. unfold ledger, ledger_on_disk. intros Hchanged Hwf Hw Hs Hr.
  destruct op as [j| |]; cbn [run_ledger_op] in *.
  - rewrite run_synthesis_ledger in *. rewrite run_synthesis_files.
    destruct (engine_call w j s) as [[results|e] e']; [|done].
    apply load_save_generations; [by apply wf_ledger_to_json|done..].
  - destruct (clear_temp_files_cases w s) as [Hsame|(s1 & Hl & Hf)].
    { by rewrite Hsame in Hchanged. }
    rewrite Hl in *. rewrite Hf.
    apply load_save_generations; [by apply wf_ledger_to_json|done..].
  - cbn in *. apply load_save_generations; [by apply wf_ledger_to_json|done..].
Qed.

Lemma ledger_file_follows_the_ledger_witness :
  ledger_on_disk (Examples.session [Examples.spoken] false)
    (UiMain.run_synthesis (Examples.session [Examples.spoken] false) Examples.hello_job
       (Examples.typed (lit "Hello world."))).2
  = UiMain.ledger_to_json [Examples.earlier; Examples.recorded].
Proof.
  apply (ledger_file_follows_the_ledger (Examples.session [Examples.spoken] false)
           (Synthesis Examples.hello_job) (Examples.typed (lit "Hello world."))).
  - vm_compute. discriminate.
  - vm_compute. reflexivity.
  - reflexivity.
  - reflexivity.
  - reflexivity.
Defined.

(** *** What Clear Temp Files removes *)

Section PurgeFiles.
Import UiMain.

Variable w : world.
Variable temp_dir : pystr.

(** One round of the loop: the files are as they were, or the entry's file
    is gone; it is gone when it was a file that could be removed. *)
Lemma remove_chunk_file_cases (n : pystr) (s : system) :
  ∃ s1,
    remove_chunk_file w temp_dir n s = (Ok (), s1)
    ∧ (files s1 = files s
       ∨ (startswith n (lit "chunk_") = true
          ∧ (∃ data, files s !! canon (path_join temp_dir n) = Some (File data))
          ∧ files s1 = delete (canon (path_join temp_dir n)) (files s)))
    ∧ (startswith n (lit "chunk_") = true →
       remove_fails w (path_join temp_dir n) = false →
       files s !! canon (path_join temp_dir n) ≠ Some Dir →
       files s1 !! canon (path_join temp_dir n) = None).
Proof.
  unfold remove_chunk_file.
  destruct (startswith n (lit "chunk_")) eqn:Ec;
    [|exists s; split; [done|]; split; [by left|done]].
  unfold os_remove, fs_node.
  destruct (remove_fails w (path_join temp_dir n)) eqn:Ef.
  { exists s. split; [done|]. split; [by left|done]. }
  destruct (files s !! canon (path_join temp_dir n)) as [[|data]|] eqn:En.
  - exists s. split; [done|]. split; [by left|done].
  - eexists. split; [reflexivity|]. split.
    + right. split; [done|]. split; [by exists data|]. by destruct s as [? [[]]].
    + intros _ _ _. destruct s as [? [[]]]. cbn. apply lookup_delete_eq.
  - exists s. split; [done|]. split; [by left|done].
Qed.

(** The whole loop: every node is what it was, or it was the file of a
    listed [chunk_] entry and is gone. *)
Lemma remove_chunk_files_lookup (names : list pystr) (s : system) :
  ∃ s',
    for_each names (remove_chunk_file w temp_dir) s = (Ok (), s')
    ∧ ∀ q,
        files s' !! q = files s !! q
        ∨ (files s' !! q = None
           ∧ ∃ n data,
               n ∈ names
               ∧ startswith n (lit "chunk_") = true
               ∧ q = canon (path_join temp_dir n)
               ∧ files s !! q = Some (File data)).
Proof.
  revert s. induction names as [|n names IH]; intros s.
  { exists s. split; [done|]. intros q. by left. }
  cbn [for_each].
  destruct (remove_chunk_file_cases n s) as (s1 & H1 & Hstep & _).
  destruct (IH s1) as (s' & H' & Hrest).
  exists s'. split; [by erewrite bind_ok|].
  intros q. destruct (Hrest q) as [Hq|(Hq & m & data & Hm & Hc & -> & Hd)].
  - destruct Hstep as [Heq|(Hc & [data Hd] & Hdel)]; [left; by rewrite <- Heq|].
    rewrite Hdel in Hq.
    destruct (decide (q = canon (path_join temp_dir n))) as [->|Hne].
    + right. rewrite lookup_delete_eq in Hq. split; [done|].
      exists n, data. repeat split; try done. by left.
    + left. by rewrite lookup_delete_ne in Hq.
  - right. split; [done|]. exists m, data.
    destruct Hstep as [Heq|(_ & _ & Hdel)].
    + rewrite Heq in Hd. repeat split; try done. by right.
    + rewrite Hdel in Hd. apply lookup_delete_Some in Hd as [_ Hd].
      repeat split; try done. by right.
Qed.

(** A listed [chunk_] file that can be removed is gone after the loop. *)
Lemma remove_chunk_files_gone (names : list pystr) (n : pystr) (s s' : system) :
  for_each names (remove_chunk_file w temp_dir) s = (Ok (), s') →
  n ∈ names →
  startswith n (lit "chunk_") = true →
  remove_fails w (path_join temp_dir n) = false →
  files s !! canon (path_join temp_dir n) ≠ Some Dir →
  files s' !! canon (path_join temp_dir n) = None.
Proof.
  revert s. induction names as [|m names IH]; intros s Hrun Hin Hc Hf Hnd.
  { by apply elem_of_nil in Hin. }
  cbn [for_each] in Hrun.
  destruct (remove_chunk_file_cases m s) as (s1 & H1 & Hstep & Hgone).
  erewrite bind_ok in Hrun by exact H1.
  assert (Hnd1 : files s1 !! canon (path_join temp_dir n) ≠ Some Dir).
  { destruct Hstep as [Heq|(_ & _ & Heq)]; rewrite Heq; [done|].
    intros H. by apply lookup_delete_Some in H as [_ H]. }
  apply elem_of_cons in Hin as [->|Hin]; [|by eapply IH].
  specialize (Hgone Hc Hf Hnd).
  destruct (remove_chunk_files_lookup names s1) as (s'' & Hrun' & Hlook).
  rewrite Hrun in Hrun'. injection Hrun' as <-.
  destruct (Hlook (canon (path_join temp_dir m))) as [Hq|[Hq _]]; [|done].
  by rewrite Hq.
Qed.

End PurgeFiles.

(** X20. Clear Temp Files removes chunk files and nothing else: when it
    returns, every node of the file system other than the ledger file and
    the log file (a removal that fails is logged) is what it was, or it was
    a regular file directly in the temp directory with a name that starts
    with [chunk_], and it is gone; so the combined files, which Play Combined
    needs, stay. And every such chunk file that [os.remove] lets go is
    gone. *)
Theorem purge_removes_chunk_files_only
    (w : UiMain.world) (s s' : UiMain.system) :
  UiMain.clear_temp_files w s = (Ok (), s') →
  let temp_dir := TtsWrapper.temp_dir (UiMain.tts_wrapper (UiMain.ui s)) in
  (∀ q, q ≠ canon UiMain.PERSIST_FILE → q ≠ canon UiMain.log_file →
     UiMain.files s' !! q = UiMain.files s !! q
     ∨ (UiMain.files s' !! q = None
        ∧ ∃ filename data,
            entry_name filename
            ∧ startswith filename (lit "chunk_") = true
            ∧ q = canon (path_join temp_dir filename)
            ∧ UiMain.files s !! q = Some (File data)))
  ∧ (∀ filename,
       isfile (UiMain.files s) (path_join temp_dir filename) = true →
       entry_name filename →
       startswith filename (lit "chunk_") = true →
       UiMain.remove_fails w (path_join temp_dir filename) = false →
       canon (path_join temp_dir filename) ≠ canon UiMain.PERSIST_FILE →
       UiMain.files s' !! canon (path_join temp_dir filename) = None).
Proof.
  intros Hrun. cbv zeta.
  set (temp_dir := TtsWrapper.temp_dir (UiMain.tts_wrapper (UiMain.ui s))) in *.
  unfold UiMain.clear_temp_files in Hrun.
  erewrite bind_ok in Hrun by reflexivity. fold temp_dir in Hrun.
  apply bind_inv_ok in Hrun as (names & s0 & Hl & Hrun).
  destruct (listdir (UiMain.files s) temp_dir) as [names'|e] eqn:El; [|done].
  injection Hl as <- <-.
  destruct (remove_chunk_files_lookup w temp_dir names' s) as (s1 & H1 & Hlook).
  erewrite bind_ok in Hrun by exact H1.
  assert (Hfiles : ∀ q, q ≠ canon UiMain.PERSIST_FILE →
            UiMain.files s' !! q = UiMain.files s1 !! q).
  { intros q Hq. injection Hrun as <-. cbn.
    by apply save_generations_other. }
  split.
  - intros q Hq _. rewrite (Hfiles q Hq).
    destruct (Hlook q) as [H|(H & n & data & Hn & Hc & -> & Hd)]; [by left|right].
    split; [done|]. exists n, data. repeat split; try done.
    + by apply (listdir_spec _ _ _ _ El) in Hn as [[? ?] _].
    + by apply (listdir_spec _ _ _ _ El) in Hn as [[? ?] _].
  - intros n Hfile Hn Hc Hf Hq. rewrite (Hfiles _ Hq).
    apply (remove_chunk_files_gone w temp_dir names' n s s1); try done.
    + apply (listdir_spec _ _ _ _ El). split; [done|].
      unfold isfile in Hfile. by destruct (fs_node _ _).
    + unfold isfile, fs_node in Hfile. intros H. by rewrite H in Hfile.
Qed.

Lemma purge_removes_chunk_files_only_witness :
  UiMain.files (UiMain.clear_temp_files (Examples.session [] false) Cases.after_hello).2
    !! lit "outputs/temp_audio/chunk_20240101_120000_0.wav"
  = None.
Proof.
  assert (E : UiMain.clear_temp_files (Examples.session [] false) Cases.after_hello
              = (Ok (),
                 (UiMain.clear_temp_files (Examples.session [] false)
                    Cases.after_hello).2))
    by (vm_compute; reflexivity).
  apply (proj2 (purge_removes_chunk_files_only (Examples.session [] false)
                  Cases.after_hello _ E)
           (lit "chunk_20240101_120000_0.wav")).
  - vm_compute. reflexivity.
  - split; [done|]. by apply (bool_decide_unpack _).
  - reflexivity.
  - reflexivity.
  - vm_compute. discriminate.
Defined.

(** *** The table after a change of the ledger *)

Section TableFollows.
Import UiMain.

(** The slots of the queued calls leave the ledger alone. *)
Lemma dispatch_ledger (c : call) (s : system) :
  synthesis_results (ui (dispatch c s)) = synthesis_results (ui s).
Proof. by destruct c. Qed.

(** A slot leaves a table that shows the ledger showing it; the slot of
    [PopulateResultsTable] makes the table show it. *)
Lemma dispatch_table (c : call) (s : system) :
  results_table (ui s) = rows_of (synthesis_results (ui s))
  ∨ c = PopulateResultsTable →
  results_table (ui (dispatch c s)) = rows_of (synthesis_results (ui (dispatch c s))).
Proof. intros [H | ->]; [by destruct c|done]. Qed.

Lemma fold_dispatch_ledger (q : list call) (s : system) :
  synthesis_results (ui (fold_left (λ s c, dispatch c s) q s))
  = synthesis_results (ui s).
Proof.
  revert s. induction q as [|c q IH]; intros s; [done|].
  cbn. by rewrite IH, dispatch_ledger.
Qed.

Lemma fold_dispatch_table (q : list call) (s : system) :
  results_table (ui s) = rows_of (synthesis_results (ui s))
  ∨ PopulateResultsTable ∈ q →
  results_table (ui (fold_left (λ s c, dispatch c s) q s))
  = rows_of (synthesis_results (ui (fold_left (λ s c, dispatch c s) q s))).
Proof.
  revert s. induction q as [|c q IH]; intros s H.
  { destruct H as [H|H]; [done|by apply elem_of_nil in H]. }
  cbn. destruct H as [H|H].
  - apply IH. left. apply dispatch_table. by left.
  - apply elem_of_cons in H as [<-|H]; [|apply IH; by right].
    apply IH. left. apply dispatch_table. by right.
Qed.

Lemma process_events_ledger (s : system) :
  synthesis_results (ui (process_events s)) = synthesis_results (ui s).
Proof. unfold process_events. by rewrite fold_dispatch_ledger. Qed.

Lemma process_events_table (s : system) :
  results_table (ui s) = rows_of (synthesis_results (ui s))
  ∨ PopulateResultsTable ∈ queue s →
  results_table (ui (process_events s))
  = rows_of (synthesis_results (ui (process_events s))).
Proof. intros H. unfold process_events. by apply fold_dispatch_table. Qed.

Variable w : world.

(** A worker whose ledger changed has queued the call that fills the
    table. *)
Lemma run_synthesis_populates (j : job) (s : system) :
  synthesis_results (ui (run_synthesis w j s).2) ≠ synthesis_results (ui s) →
  PopulateResultsTable ∈ queue (run_synthesis w j s).2.
Proof.
  unfold run_synthesis, try_finally, try_except, run_synthesis_try.
  unfold mbind, M_bind, get, in_engine. cbn.
  destruct (TtsWrapper.synthesize _ _ _ _ _ (engine s)) as [[[chunk_list combined_path]|e] e'];
    cbn.
  - intros _. destruct combined_path as [p|]; cbn;
      [destruct (bool_decide (p ≠ [])); cbn|];
      rewrite !elem_of_app, !list_elem_of_singleton; auto.
  - unfold show_error. by destruct (show_error_fails w).
Qed.

(** Clear Temp Files fills the table itself, unless the temp directory
    cannot be listed and nothing changes. *)
Lemma clear_temp_files_table (s : system) :
  (clear_temp_files w s).2 = s
  ∨ results_table (ui (clear_temp_files w s).2)
    = rows_of (synthesis_results (ui (clear_temp_files w s).2)).
Proof.
  unfold clear_temp_files. erewrite bind_ok; [|reflexivity].
  destruct (listdir (files s) (TtsWrapper.temp_dir (tts_wrapper (ui s))))
    as [names|e] eqn:El.
  - right.
    destruct (remove_chunk_files_frame w (TtsWrapper.temp_dir (tts_wrapper (ui s)))
                names s) as (s1 & H1 & _).
    erewrite bind_ok; [|by rewrite El].
    erewrite bind_ok; [|exact H1]. reflexivity.
  - left. erewrite bind_raise; [reflexivity|]. by rewrite El.
Qed.

End TableFollows.

(** X21. The table follows the ledger: whenever a worker, Clear Temp Files
    or Clear Old Results has changed the ledger, the results table shows the
    rows of the ledger as it now is once the UI thread has taken the queued
    calls: the worker queues the call that fills the table, and the buttons
    fill it themselves. *)
Theorem table_follows_the_ledger
    (w : UiMain.world) (op : ledger_op) (s : UiMain.system) :
  let s' := UiMain.process_events (run_ledger_op w op s).2 in
  ledger s' ≠ ledger s →
  UiMain.results_table (UiMain.ui s') = UiMain.rows_of (ledger s').
Proof.
  cbv zeta. unfold ledger. rewrite process_events_ledger. intros Hchanged.
  rewrite <- (process_events_ledger (run_ledger_op w op s).2).
  apply process_events_table.
  destruct op as [j| |]; cbn [run_ledger_op] in *.
  - right. by apply run_synthesis_populates.
  - left. destruct (clear_temp_files_table w s) as [Hsame|Htable]; [|done].
    by rewrite Hsame in Hchanged.
  - left. reflexivity.
Qed.

Lemma table_follows_the_ledger_witness :
  UiMain.results_table
    (UiMain.ui (UiMain.process_events Cases.after_hello))
  = UiMain.rows_of [Examples.earlier; Examples.recorded].
Proof.
  apply (table_follows_the_ledger (Examples.session [Examples.spoken] false)
           (Synthesis Examples.hello_job) (Examples.typed (lit "Hello world."))).
  vm_compute. discriminate.
Defined.
